(** * SimpleLLM: a shallow embedding of [notebookllm.ipynb]

    The notebook defines a word-level transformer ([SimpleLLM]) in PyTorch,
    trains it with teacher forcing and predicts the next word of a prefix.

    Conventions of the embedding.
    - A torch tensor is a shape together with an indexing function; the
      scalars are the real numbers, so every statement below is about the
      exact-arithmetic meaning of the torch operations (float32 rounding is
      outside the model).
    - A Python exception is the [Raise] branch of [result].
    - A Python [str] is a list of Unicode code points, a [dict] an
      association list in insertion order.
    - Library code (autograd, the Adam update rule) is a section variable. *)

From Stdlib Require Import String Ascii.
From Stdlib Require Import Reals Lra Lia List ZArith NArith Bool Arith.
From Stdlib Require Import Permutation FunctionalExtensionality.
Import ListNotations.

Set Implicit Arguments.

(* ================================================================== *)
(** * Exceptions *)

Inductive exn : Type :=
| KeyError
| IndexError
| ValueError
| ZeroDivisionError
| NameError
| TypeError
| OverflowError
| SizeMismatch (a b dim : nat)   (* RuntimeError: The size of tensor a (a)
                                    must match the size of tensor b (b) at
                                    non-singleton dimension dim *)
| ExpandMismatch (expanded existing dim : nat)
                                 (* RuntimeError: The expanded size of the
                                    tensor (expanded) must match the existing
                                    size (existing) at non-singleton
                                    dimension dim *)
| ShapeError.                    (* RuntimeError: shapes cannot be multiplied,
                                    wrong normalized_shape, ... *)

Inductive result (A : Type) : Type :=
| Ok (a : A)
| Raise (e : exn).

Arguments Ok {A} a.
Arguments Raise {A} e.

Definition bind {A B} (m : result A) (k : A -> result B) : result B :=
  match m with
  | Ok a => k a
  | Raise e => Raise e
  end.

Declare Scope result_scope.
Delimit Scope result_scope with result.
Notation "x <- m ;; k" := (bind m (fun x => k))
  (at level 61, m at next level, right associativity) : result_scope.
Open Scope result_scope.

Fixpoint mapM {A B} (f : A -> result B) (l : list A) : result (list B) :=
  match l with
  | [] => Ok []
  | a :: l' => b <- f a ;; bs <- mapM f l' ;; Ok (b :: bs)
  end.

(* ================================================================== *)
(** * Cell 1: the tokenizer *)

Module Tokenizer.

(** A character is a Unicode code point. *)
Definition char := N.
Definition str := list char.

Definition str_of_string (s : string) : str :=
  map N_of_ascii (list_ascii_of_string s).

(** [str.isspace] for one code point: the table behind
    [_PyUnicode_IsWhitespace]. *)
Definition isspace (c : char) : bool :=
  ((9 <=? c) && (c <=? 13) || (28 <=? c) && (c <=? 32)
   || (c =? 133) || (c =? 160) || (c =? 5760)
   || (8192 <=? c) && (c <=? 8202)
   || (c =? 8232) || (c =? 8233) || (c =? 8239) || (c =? 8287)
   || (c =? 12288))%N.

(** [text.split()] with no argument: runs of whitespace separate the words,
    leading and trailing whitespace produce no empty word.  [cur] is the
    word being read, most recent character first. *)
Fixpoint split_from (cur : str) (text : str) : list str :=
  match text with
  | [] => match cur with [] => [] | _ => [rev cur] end
  | c :: rest =>
      if isspace c
      then match cur with
           | [] => split_from [] rest
           | _ => rev cur :: split_from [] rest
           end
      else split_from (c :: cur) rest
  end.

Definition split (text : str) : list str := split_from [] text.

(** A [dict] from words to ids, in insertion order. *)
Definition dict := list (str * Z).

Definition str_eqb (a b : str) : bool :=
  if list_eq_dec N.eq_dec a b then true else false.

Fixpoint lookup (vocab : dict) (k : str) : option Z :=
  match vocab with
  | [] => None
  | (k', v) :: rest => if str_eqb k' k then Some v else lookup rest k
  end.

(** [vocab[k]] *)
Definition getitem (vocab : dict) (k : str) : result Z :=
  match lookup vocab k with
  | Some v => Ok v
  | None => Raise KeyError
  end.

(** [vocab.get(k, default)] *)
Definition get (vocab : dict) (k : str) (default : Z) : Z :=
  match lookup vocab k with
  | Some v => v
  | None => default
  end.

Definition UNK : str := str_of_string "<UNK>".

(** [[vocab.get(word, vocab["<UNK>"]) for word in text.split()]]: the
    default argument is evaluated once per word, before the call. *)
Definition tokenize (text : str) (vocab : dict) : result (list Z) :=
  mapM (fun word => unk <- getitem vocab UNK ;; Ok (get vocab word unk))
       (split text).

(** The number of whitespace-separated words of a text, counted directly:
    a word starts at each non-space character that follows a space or the
    beginning of the text. *)
Fixpoint count_words (after_space : bool) (text : str) : nat :=
  match text with
  | [] => 0
  | c :: rest =>
      if isspace c then count_words true rest
      else (if after_space then 1 else 0) + count_words false rest
  end.

Definition contains_key (vocab : dict) (k : str) : Prop :=
  exists v, lookup vocab k = Some v.

Definition values_in_range (vocab : dict) (vocabulary_size : nat) : Prop :=
  Forall (fun kv => (0 <= snd kv < Z.of_nat vocabulary_size)%Z) vocab.

Definition id_in_range (vocabulary_size : nat) (id : Z) : Prop :=
  (0 <= id < Z.of_nat vocabulary_size)%Z.

End Tokenizer.

(* ================================================================== *)
(** * Tensors and the torch operations the notebook calls *)

Open Scope R_scope.

Module Torch.

(** Finite sums of reals. *)
Definition Rsum (l : list R) : R := fold_right Rplus 0 l.

(** [sigma n f] is f 0 + ... + f (n-1). *)
Definition sigma (n : nat) (f : nat -> R) : R := Rsum (map f (seq 0 n)).

(** A float tensor of rank 1, 2 or 3: its sizes and its entries. *)
Record Tensor1 : Type := { len1 : nat; at1 : nat -> R }.
Record Tensor2 : Type := { rows : nat; cols : nat; at2 : nat -> nat -> R }.
Record Tensor3 : Type :=
  { size0 : nat; size1 : nat; size2 : nat; at3 : nat -> nat -> nat -> R }.

(** An int64 tensor of rank 2 (a batch of token-id sequences). *)
Record LongTensor2 : Type :=
  { lrows : nat; lcols : nat; lat2 : nat -> nat -> Z }.

Definition shape3 (t : Tensor3) : nat * nat * nat :=
  (size0 t, size1 t, size2 t).

(** Two tensors are the same tensor: same shape, same entries. *)
Definition same3 (a b : Tensor3) : Prop :=
  shape3 a = shape3 b /\
  forall i j k, (i < size0 a)%nat -> (j < size1 a)%nat -> (k < size2 a)%nat ->
    at3 a i j k = at3 b i j k.

(** Broadcasting of one axis: the sizes agree or one of them is 1. *)
Definition broadcast_dim (dim a b : nat) : result nat :=
  if (a =? b)%nat then Ok a
  else if (a =? 1)%nat then Ok b
  else if (b =? 1)%nat then Ok a
  else Raise (SizeMismatch a b dim).

(** The index read along an axis of size [size] that may be broadcast. *)
Definition bidx (size i : nat) : nat := if (size =? 1)%nat then 0%nat else i.

(** [a + b] on rank-3 tensors; sizes are compared from the last axis. *)
Definition add (a b : Tensor3) : result Tensor3 :=
  d2 <- broadcast_dim 2 (size2 a) (size2 b) ;;
  d1 <- broadcast_dim 1 (size1 a) (size1 b) ;;
  d0 <- broadcast_dim 0 (size0 a) (size0 b) ;;
  Ok {| size0 := d0; size1 := d1; size2 := d2;
        at3 := fun i j k =>
          at3 a (bidx (size0 a) i) (bidx (size1 a) j) (bidx (size2 a) k)
          + at3 b (bidx (size0 b) i) (bidx (size1 b) j) (bidx (size2 b) k) |}.

(** [t.transpose(0, 1)] and [t.transpose(1, 2)]. *)
Definition transpose01 (t : Tensor3) : Tensor3 :=
  {| size0 := size1 t; size1 := size0 t; size2 := size2 t;
     at3 := fun i j k => at3 t j i k |}.

Definition transpose12 (t : Tensor3) : Tensor3 :=
  {| size0 := size0 t; size1 := size2 t; size2 := size1 t;
     at3 := fun i j k => at3 t i k j |}.

(** [t.unsqueeze(0)] on a matrix. *)
Definition unsqueeze0 (t : Tensor2) : Tensor3 :=
  {| size0 := 1; size1 := rows t; size2 := cols t;
     at3 := fun _ j k => at2 t j k |}.

(** [t[:n, :]]: a slice is clipped to the size of the axis. *)
Definition narrow0 (t : Tensor3) (n : nat) : Tensor3 :=
  {| size0 := Nat.min n (size0 t); size1 := size1 t; size2 := size2 t;
     at3 := at3 t |}.

(** [torch.bmm(a, b)]. *)
Definition bmm (a b : Tensor3) : result Tensor3 :=
  if ((size0 a =? size0 b) && (size2 a =? size1 b))%nat
  then Ok {| size0 := size0 a; size1 := size1 a; size2 := size2 b;
             at3 := fun n i j =>
               sigma (size2 a) (fun k => at3 a n i k * at3 b n k j) |}
  else Raise ShapeError.

(** [t / c] for a scalar tensor [c]. *)
Definition div_scalar (t : Tensor3) (c : R) : Tensor3 :=
  {| size0 := size0 t; size1 := size1 t; size2 := size2 t;
     at3 := fun i j k => at3 t i j k / c |}.

(** [torch.softmax(t, dim=-1)]. *)
Definition softmax (t : Tensor3) : Tensor3 :=
  {| size0 := size0 t; size1 := size1 t; size2 := size2 t;
     at3 := fun i j k =>
       exp (at3 t i j k) / sigma (size2 t) (fun k' => exp (at3 t i j k')) |}.

(** [nn.ReLU]. *)
Definition relu (t : Tensor3) : Tensor3 :=
  {| size0 := size0 t; size1 := size1 t; size2 := size2 t;
     at3 := fun i j k => Rmax 0 (at3 t i j k) |}.

(** [nn.Linear(in_features, out_features)]: [weight] has shape
    (out_features, in_features), [bias] has shape (out_features). *)
Record Linear : Type :=
  { in_features : nat; out_features : nat;
    weight : nat -> nat -> R; bias : nat -> R }.

Definition Linear_forward (l : Linear) (x : Tensor3) : result Tensor3 :=
  if (size2 x =? in_features l)%nat
  then Ok {| size0 := size0 x; size1 := size1 x; size2 := out_features l;
             at3 := fun n p j =>
               sigma (in_features l) (fun i => at3 x n p i * weight l j i)
               + bias l j |}
  else Raise ShapeError.

(** [nn.LayerNorm(normalized_shape)] with the default [eps] and the
    elementwise affine parameters [ln_weight], [ln_bias]. *)
Record LayerNorm : Type :=
  { normalized_shape : nat; ln_weight : nat -> R; ln_bias : nat -> R }.

Definition LayerNorm_eps : R := 1 / 100000.

Definition mean (n : nat) (v : nat -> R) : R := sigma n v / INR n.

(** The biased variance LayerNorm uses. *)
Definition variance (n : nat) (v : nat -> R) : R :=
  sigma n (fun c => (v c - mean n v) * (v c - mean n v)) / INR n.

(** The normalised vector, before the affine map. *)
Definition normalize (n : nat) (v : nat -> R) (c : nat) : R :=
  (v c - mean n v) / sqrt (variance n v + LayerNorm_eps).

Definition LayerNorm_forward (ln : LayerNorm) (x : Tensor3) : result Tensor3 :=
  if (size2 x =? normalized_shape ln)%nat
  then Ok {| size0 := size0 x; size1 := size1 x; size2 := size2 x;
             at3 := fun n p c =>
               normalize (normalized_shape ln) (at3 x n p) c * ln_weight ln c
               + ln_bias ln c |}
  else Raise ShapeError.

(** [nn.Embedding(num_embeddings, embedding_dim)]. *)
Record nn_Embedding : Type :=
  { num_embeddings : nat; emb_dim : nat; emb_weight : nat -> nat -> R }.

Definition valid_index (n : nat) (i : Z) : bool :=
  ((0 <=? i) && (i <? Z.of_nat n))%Z.

Definition all_indices_valid (n : nat) (x : LongTensor2) : bool :=
  forallb (fun r => forallb (fun c => valid_index n (lat2 x r c))
                            (seq 0 (lcols x)))
          (seq 0 (lrows x)).

Definition nn_Embedding_forward (e : nn_Embedding) (x : LongTensor2)
  : result Tensor3 :=
  if all_indices_valid (num_embeddings e) x
  then Ok {| size0 := lrows x; size1 := lcols x; size2 := emb_dim e;
             at3 := fun n p c => emb_weight e (Z.to_nat (lat2 x n p)) c |}
  else Raise IndexError.

(** [t[:, -1, :]]. *)
Definition select_last (t : Tensor3) : result Tensor2 :=
  match size1 t with
  | O => Raise IndexError
  | S last => Ok {| rows := size0 t; cols := size2 t;
                    at2 := fun n c => at3 t n last c |}
  end.

(** [torch.argmax(t)] without [dim]: the index, in the flattened tensor, of
    the first maximal value. *)
Fixpoint argmax_from (f : nat -> R) (best next count : nat) : nat :=
  match count with
  | O => best
  | S count' =>
      argmax_from f (if Rlt_dec (f best) (f next) then next else best)
                  (S next) count'
  end.

Definition flat2 (t : Tensor2) (k : nat) : R :=
  at2 t (k / cols t) (k mod cols t).

Definition argmax (t : Tensor2) : result nat :=
  match (rows t * cols t)%nat with
  | O => Raise IndexError
  | S n => Ok (argmax_from (flat2 t) 0 1 n)
  end.

(** [nn.CrossEntropyLoss()(input, target)] for class-index targets, with
    the default mean reduction. *)
Definition nll (input : Tensor2) (n : nat) (t : Z) : R :=
  - ln (exp (at2 input n (Z.to_nat t))
        / sigma (cols input) (fun c => exp (at2 input n c))).

(** Targets equal to [ignore_index] are left out of the mean.  When all
    of them are, torch returns nan; here the quotient by zero stands for
    it. *)
Definition ignore_index : Z := (-100)%Z.

Definition counted (t : Z) : bool := negb (t =? ignore_index)%Z.

Definition valid_target (classes : nat) (t : Z) : bool :=
  valid_index classes t || negb (counted t).

Definition CrossEntropyLoss (input : Tensor2) (target : list Z) : result R :=
  if negb (rows input =? length target)%nat then Raise ValueError
  else if negb (forallb (valid_target (cols input)) target)
  then Raise IndexError
  else Ok (sigma (rows input)
                 (fun n => let t := nth n target 0%Z in
                           if counted t then nll input n t else 0)
           / INR (length (filter counted target))).

(** The pieces of the positional table's construction. *)
Definition zeros (r c : nat) : Tensor2 :=
  {| rows := r; cols := c; at2 := fun _ _ => 0 |}.

(** [torch.arange(0, n, dtype=torch.float).unsqueeze(1)]. *)
Definition arange_column (n : nat) : Tensor2 :=
  {| rows := n; cols := 1; at2 := fun r _ => INR r |}.

(** [torch.arange(0, n, 2).float()]: the even numbers below [n]. *)
Definition arange_step2 (n : nat) : Tensor1 :=
  {| len1 := (n + 1) / 2; at1 := fun k => INR (2 * k) |}.

Definition scale1 (t : Tensor1) (c : R) : Tensor1 :=
  {| len1 := len1 t; at1 := fun k => at1 t k * c |}.

Definition exp1 (t : Tensor1) : Tensor1 :=
  {| len1 := len1 t; at1 := fun k => exp (at1 t k) |}.

(** [a * b] for a matrix and a vector: the vector is a row, broadcast down
    the rows of the matrix. *)
Definition mul_row (a : Tensor2) (b : Tensor1) : result Tensor2 :=
  d1 <- broadcast_dim 1 (cols a) (len1 b) ;;
  Ok {| rows := rows a; cols := d1;
        at2 := fun r c => at2 a r (bidx (cols a) c) * at1 b (bidx (len1 b) c) |}.

Definition map2d (f : R -> R) (t : Tensor2) : Tensor2 :=
  {| rows := rows t; cols := cols t; at2 := fun r c => f (at2 t r c) |}.

(** The number of indices selected by the slice [start::step] of an axis. *)
Definition slice_len (size start step : nat) : nat :=
  ((size - start + (step - 1)) / step)%nat.

(** [t[:, start::step] = v]: [v] is expanded to the shape of the slice. *)
Definition expand_dim (dim target existing : nat) : result unit :=
  if ((existing =? target) || (existing =? 1))%nat then Ok tt
  else Raise (ExpandMismatch target existing dim).

Definition setitem_cols (t : Tensor2) (start step : nat) (v : Tensor2)
  : result Tensor2 :=
  _ <- expand_dim 1 (slice_len (cols t) start step) (cols v) ;;
  _ <- expand_dim 0 (rows t) (rows v) ;;
  Ok {| rows := rows t; cols := cols t;
        at2 := fun r c =>
          if ((start <=? c) && ((c - start) mod step =? 0))%nat
          then at2 v (bidx (rows v) r) (bidx (cols v) ((c - start) / step))
          else at2 t r c |}.

(** The int64 tensor of shape (1, len(l)) with the entries of [l]. *)
Definition long_row (l : list Z) : LongTensor2 :=
  {| lrows := 1; lcols := length l; lat2 := fun _ c => nth c l 0%Z |}.

Definition is_int64 (i : Z) : bool :=
  ((- 2 ^ 63 <=? i) && (i <? 2 ^ 63))%Z.

(** [torch.tensor(l).unsqueeze(0)] for a list of Python ints.  An int
    outside int64 overflows.  For the empty list torch builds an empty
    float tensor, which [nn.Embedding], its only consumer in the notebook,
    rejects for its dtype; that exception is raised here. *)
Definition tensor_row (l : list Z) : result LongTensor2 :=
  match l with
  | [] => Raise TypeError
  | _ => if forallb is_int64 l then Ok (long_row l) else Raise OverflowError
  end.

(** [torch.tensor(t).unsqueeze(0)] for one Python int: a 1-d tensor, given
    by its list of entries. *)
Definition tensor_item (t : Z) : result (list Z) :=
  if is_int64 t then Ok [t] else Raise OverflowError.

End Torch.

Import Torch.

(* ================================================================== *)
(** * Cells 2-6: the modules of the model *)

(** ** class Embedding *)
Module Embedding.

Record t : Type := { embedding : nn_Embedding }.

Definition forward (self : t) (x : LongTensor2) : result Tensor3 :=
  nn_Embedding_forward (embedding self) x.

(** What [__init__(vocab_size, embedding_dim)] establishes; the size of a
    tensor is an int64. *)
Definition constructed (vocab_size embedding_dim : nat) (self : t) : Prop :=
  num_embeddings (embedding self) = vocab_size /\
  emb_dim (embedding self) = embedding_dim /\
  (Z.of_nat vocab_size < 2 ^ 63)%Z.

End Embedding.

(** ** class PositionalEncoding *)
Module PositionalEncoding.

Record t : Type := { embedding_dim : nat; pe : Tensor3 }.

(** [-math.log(10000.0) / embedding_dim]: a Python float division. *)
Definition neg_log_over (embedding_dim : nat) : result R :=
  match embedding_dim with
  | O => Raise ZeroDivisionError
  | _ => Ok (- ln 10000 / INR embedding_dim)
  end.

Definition init (embedding_dim max_seq_len : nat) : result t :=
  let pe := zeros max_seq_len embedding_dim in
  let position := arange_column max_seq_len in
  c <- neg_log_over embedding_dim ;;
  let div_term := exp1 (scale1 (arange_step2 embedding_dim) c) in
  angles <- mul_row position div_term ;;
  pe <- setitem_cols pe 0 2 (map2d sin angles) ;;
  angles <- mul_row position div_term ;;
  pe <- setitem_cols pe 1 2 (map2d cos angles) ;;
  let pe := transpose01 (unsqueeze0 pe) in
  Ok {| embedding_dim := embedding_dim; pe := pe |}.

Definition default_max_seq_len : nat := 5000.

(** The configured maximum is the number of rows of the buffer. *)
Definition max_seq_len (self : t) : nat := size0 (pe self).

Definition forward (self : t) (x : Tensor3) : result Tensor3 :=
  add x (narrow0 (pe self) (size0 x)).

End PositionalEncoding.

(** ** class SelfAttention *)
Module SelfAttention.

Record t : Type := { query : Linear; key : Linear; value : Linear }.

Definition forward (self : t) (x : Tensor3) : result Tensor3 :=
  queries <- Linear_forward (query self) x ;;
  keys <- Linear_forward (key self) x ;;
  values <- Linear_forward (value self) x ;;
  qk <- bmm queries (transpose12 keys) ;;
  let scores := div_scalar qk (sqrt (INR (size2 x))) in
  let attention_weights := softmax scores in
  attended_values <- bmm attention_weights values ;;
  Ok attended_values.

(** The local [attention_weights] of [forward]: the same statements up to
    the softmax. *)
Definition attention_weights (self : t) (x : Tensor3) : result Tensor3 :=
  queries <- Linear_forward (query self) x ;;
  keys <- Linear_forward (key self) x ;;
  values <- Linear_forward (value self) x ;;
  qk <- bmm queries (transpose12 keys) ;;
  let scores := div_scalar qk (sqrt (INR (size2 x))) in
  Ok (softmax scores).

Definition is_linear (i o : nat) (l : Linear) : Prop :=
  in_features l = i /\ out_features l = o.

(** What [__init__(embedding_dim)] establishes. *)
Definition constructed (embedding_dim : nat) (self : t) : Prop :=
  is_linear embedding_dim embedding_dim (query self) /\
  is_linear embedding_dim embedding_dim (key self) /\
  is_linear embedding_dim embedding_dim (value self).

End SelfAttention.

(** ** class TransformerBlock *)
Module TransformerBlock.

(** [feed_forward] is [nn.Sequential(Linear, ReLU, Linear)]: its two
    parametrised layers are [feed_forward_0] and [feed_forward_2]. *)
Record t : Type :=
  { attention : SelfAttention.t;
    feed_forward_0 : Linear;
    feed_forward_2 : Linear;
    norm1 : LayerNorm;
    norm2 : LayerNorm }.

Definition feed_forward (self : t) (x : Tensor3) : result Tensor3 :=
  h <- Linear_forward (feed_forward_0 self) x ;;
  Linear_forward (feed_forward_2 self) (relu h).

Definition forward (self : t) (x : Tensor3) : result Tensor3 :=
  attended <- SelfAttention.forward (attention self) x ;;
  s <- add x attended ;;
  x <- LayerNorm_forward (norm1 self) s ;;
  forwarded <- feed_forward self x ;;
  s <- add x forwarded ;;
  x <- LayerNorm_forward (norm2 self) s ;;
  Ok x.

(** What [__init__(embedding_dim, hidden_dim)] establishes. *)
Definition constructed (embedding_dim hidden_dim : nat) (self : t) : Prop :=
  SelfAttention.constructed embedding_dim (attention self) /\
  SelfAttention.is_linear embedding_dim hidden_dim (feed_forward_0 self) /\
  SelfAttention.is_linear hidden_dim embedding_dim (feed_forward_2 self) /\
  normalized_shape (norm1 self) = embedding_dim /\
  normalized_shape (norm2 self) = embedding_dim.

End TransformerBlock.

(** ** class SimpleLLM *)
Module SimpleLLM.

Record t : Type :=
  { embedding : Embedding.t;
    positional_encoding : PositionalEncoding.t;
    transformer_blocks : list TransformerBlock.t;
    output : Linear }.

(** [nn.Sequential] over the blocks: each block's output feeds the next. *)
Fixpoint sequential (blocks : list TransformerBlock.t) (x : Tensor3)
  : result Tensor3 :=
  match blocks with
  | [] => Ok x
  | b :: rest => y <- TransformerBlock.forward b x ;; sequential rest y
  end.

Definition forward (self : t) (x : LongTensor2) : result Tensor3 :=
  x <- Embedding.forward (embedding self) x ;;
  let x := transpose01 x in
  x <- PositionalEncoding.forward (positional_encoding self) x ;;
  let x := transpose01 x in
  x <- sequential (transformer_blocks self) x ;;
  x <- Linear_forward (output self) x ;;
  Ok x.

(** What [__init__(vocab_size, embedding_dim, hidden_dim, num_layers)]
    establishes; the positional table is built with the default maximum. *)
Definition constructed (vocab_size embedding_dim hidden_dim num_layers : nat)
    (self : t) : Prop :=
  Embedding.constructed vocab_size embedding_dim (embedding self) /\
  PositionalEncoding.init embedding_dim PositionalEncoding.default_max_seq_len
    = Ok (positional_encoding self) /\
  length (transformer_blocks self) = num_layers /\
  Forall (TransformerBlock.constructed embedding_dim hidden_dim)
         (transformer_blocks self) /\
  SelfAttention.is_linear embedding_dim vocab_size (output self).

(** [model.parameters()]: every trainable tensor.  The positional table is
    a registered buffer and is not among them. *)
Record Parameters : Type :=
  { p_embedding : Embedding.t;
    p_transformer_blocks : list TransformerBlock.t;
    p_output : Linear }.

Definition parameters (self : t) : Parameters :=
  {| p_embedding := embedding self;
     p_transformer_blocks := transformer_blocks self;
     p_output := output self |}.

(** Writing new values into the parameters of a model, in place. *)
Definition update_parameters (self : t) (p : Parameters) : t :=
  {| embedding := p_embedding p;
     positional_encoding := positional_encoding self;
     transformer_blocks := p_transformer_blocks p;
     output := p_output p |}.

End SimpleLLM.

(* ================================================================== *)
(** * Cells 7 and 8: training and prediction *)

(** The constants of cell 7. *)
Definition vocab : Tokenizer.dict :=
  [ (Tokenizer.str_of_string "hello", 0%Z);
    (Tokenizer.str_of_string "world", 1%Z);
    (Tokenizer.str_of_string "how", 2%Z);
    (Tokenizer.str_of_string "are", 3%Z);
    (Tokenizer.str_of_string "you", 4%Z);
    (Tokenizer.str_of_string "<UNK>", 5%Z) ].
Definition vocab_size : nat := length vocab.
Definition embedding_dim : nat := 16.
Definition hidden_dim : nat := 32.
Definition num_layers : nat := 2.
Definition num_epochs : nat := 100.
Definition data : list Tokenizer.str :=
  [ Tokenizer.str_of_string "hello world how are you";
    Tokenizer.str_of_string "how are you hello world" ].

(** [range(a, b)]. *)
Definition range (a b : nat) : list nat := seq a (b - a).

(** [l[i]] on a Python list. *)
Definition list_getitem {A} (l : list A) (i : nat) : result A :=
  match nth_error l i with
  | Some a => Ok a
  | None => Raise IndexError
  end.

(** [l.index(v)]. *)
Fixpoint list_index (l : list Z) (v : Z) : result nat :=
  match l with
  | [] => Raise ValueError
  | a :: rest => if (a =? v)%Z then Ok 0%nat
                 else i <- list_index rest v ;; Ok (S i)
  end.

(** The loss of the model on one example, as cell 7 computes it:
    [criterion(model(input_seq)[:, -1, :], target)]. *)
Definition example_loss (m : SimpleLLM.t) (input_seq : LongTensor2)
    (target : list Z) : result R :=
  output <- SimpleLLM.forward m input_seq ;;
  last <- select_last output ;;
  CrossEntropyLoss last target.

Section Training.

(** The optimizer's private state (Adam's moments and step counts). *)
Variable OptState : Type.

(** [torch.autograd]: the gradient of a scalar function of the
    parameters, at given parameters.  The gradient has one entry per
    parameter entry, hence the type [Parameters]. *)
Variable autograd :
  (SimpleLLM.Parameters -> result R) ->
  SimpleLLM.Parameters -> SimpleLLM.Parameters.

(** The in-place accumulation [p.grad += g] of [backward]. *)
Variable accumulate :
  SimpleLLM.Parameters -> SimpleLLM.Parameters -> SimpleLLM.Parameters.

(** One update of [optim.Adam(model.parameters(), lr=0.001)]: from the
    optimizer state, the parameters and their gradients to the new
    optimizer state and the new parameters. *)
Variable adam :
  OptState -> SimpleLLM.Parameters -> SimpleLLM.Parameters ->
  OptState * SimpleLLM.Parameters.

(** A tensor together with its autograd graph: how its value depends on
    the parameters. *)
Record Tracked (A : Type) : Type :=
  { value : A; graph : SimpleLLM.Parameters -> result A }.

(** The mutable objects of cells 7 and 8: the model, the [.grad] fields
    of its parameters ([None] after [zero_grad]), the optimizer, and the
    variable [loss] (unbound until the first example). *)
Record State : Type :=
  { model : SimpleLLM.t;
    grad : option SimpleLLM.Parameters;
    optimizer : OptState;
    loss : option (Tracked R) }.

(** A statement: it may raise, and it leaves a state behind either way. *)
Definition Run (A : Type) : Type := State -> result A * State.

Definition ret {A} (a : A) : Run A := fun st => (Ok a, st).

Definition seq_run {A B} (m : Run A) (k : A -> Run B) : Run B :=
  fun st => match m st with
            | (Ok a, st') => k a st'
            | (Raise e, st') => (Raise e, st')
            end.

Definition lift {A} (r : result A) : Run A := fun st => (r, st).

Notation "x <~ m ;; k" := (seq_run m (fun x => k))
  (at level 61, m at next level, right associativity).
Notation "m ;;; k" := (seq_run m (fun _ => k))
  (at level 61, right associativity).

Fixpoint for_each {A} (l : list A) (body : A -> Run unit) : Run unit :=
  match l with
  | [] => ret tt
  | a :: rest => body a ;;; for_each rest body
  end.

(** [optimizer.zero_grad()]. *)
Definition zero_grad : Run unit := fun st =>
  (Ok tt, {| model := model st; grad := None;
             optimizer := optimizer st; loss := loss st |}).

(** [model(input_seq)]. *)
Definition call_model (input_seq : LongTensor2) : Run (Tracked Tensor3) :=
  fun st =>
    (out <- SimpleLLM.forward (model st) input_seq ;;
     Ok {| value := out;
           graph := fun p =>
             SimpleLLM.forward (SimpleLLM.update_parameters (model st) p)
                               input_seq |},
     st).

(** [output[:, -1, :]]. *)
Definition last_position (output : Tracked Tensor3)
  : Run (Tracked Tensor2) :=
  lift (v <- select_last (value output) ;;
        Ok {| value := v;
              graph := fun p => o <- graph output p ;; select_last o |}).

(** [criterion(input, target)]. *)
Definition criterion (input : Tracked Tensor2) (target : list Z)
  : Run (Tracked R) :=
  lift (v <- CrossEntropyLoss (value input) target ;;
        Ok {| value := v;
              graph := fun p =>
                i <- graph input p ;; CrossEntropyLoss i target |}).

(** [loss = ...]. *)
Definition assign_loss (l : Tracked R) : Run unit := fun st =>
  (Ok tt, {| model := model st; grad := grad st;
             optimizer := optimizer st; loss := Some l |}).

(** [loss.backward()]: the gradient is added into the [.grad] fields. *)
Definition backward (l : Tracked R) : Run unit := fun st =>
  let g := autograd (graph l) (SimpleLLM.parameters (model st)) in
  (Ok tt, {| model := model st;
             grad := Some (match grad st with
                           | None => g
                           | Some g0 => accumulate g0 g
                           end);
             optimizer := optimizer st; loss := loss st |}).

(** [optimizer.step()]: parameters whose [.grad] is [None] are skipped. *)
Definition step : Run unit := fun st =>
  match grad st with
  | None => (Ok tt, st)
  | Some g =>
      let (o, p) := adam (optimizer st) (SimpleLLM.parameters (model st)) g in
      (Ok tt, {| model := SimpleLLM.update_parameters (model st) p;
                 grad := grad st; optimizer := o; loss := loss st |})
  end.

(** [print(... loss.item() ...)]: only the read of [loss] matters. *)
Definition print_loss : Run unit := fun st =>
  match loss st with
  | Some _ => (Ok tt, st)
  | None => (Raise NameError, st)
  end.

(** The body of the innermost loop of cell 7. *)
Definition train_prefix (sentence : list Z) (i : nat) : Run unit :=
  input_seq <~ lift (tensor_row (firstn i sentence)) ;;
  t <~ lift (list_getitem sentence i) ;;
  target <~ lift (tensor_item t) ;;
  zero_grad ;;;
  output <~ call_model input_seq ;;
  last <~ last_position output ;;
  l <~ criterion last target ;;
  assign_loss l ;;;
  backward l ;;;
  step.

(** [for i in range(1, len(sentence)): ...]. *)
Definition train_sentence (sentence : list Z) : Run unit :=
  for_each (range 1 (length sentence)) (train_prefix sentence).

(** The body of the epoch loop. *)
Definition train_epoch (tokenized_data : list (list Z)) (epoch : nat)
  : Run unit :=
  for_each tokenized_data train_sentence ;;;
  if (epoch mod 10 =? 0)%nat then print_loss else ret tt.

(** [for epoch in range(epochs): ...]; cell 7 has [epochs = 100]. *)
Definition train (epochs : nat) (tokenized_data : list (list Z))
  : Run unit :=
  for_each (range 0 epochs) (train_epoch tokenized_data).

(** Cell 8, from the token ids on: the predicted token id. *)
Definition predict_token (input_tokens : list Z) : Run nat :=
  input_tensor <~ lift (tensor_row input_tokens) ;;
  output <~ call_model input_tensor ;;
  last <~ last_position output ;;
  lift (argmax (value last)).

(** [list(vocab.keys())[list(vocab.values()).index(predicted_token)]]. *)
Definition word_of (vocab : Tokenizer.dict) (predicted_token : nat)
  : result Tokenizer.str :=
  i <- list_index (map snd vocab) (Z.of_nat predicted_token) ;;
  list_getitem (map fst vocab) i.

(** Cell 8: the predicted word of a text. *)
Definition predict (input_text : Tokenizer.str) (vocab : Tokenizer.dict)
  : Run Tokenizer.str :=
  input_tokens <~ lift (Tokenizer.tokenize input_text vocab) ;;
  predicted_token <~ predict_token input_tokens ;;
  lift (word_of vocab predicted_token).

(** Cell 7 as a whole, from the constants above. *)
Definition cell7 : Run unit :=
  tokenized_data <~
    lift (mapM (fun sentence => Tokenizer.tokenize sentence vocab) data) ;;
  train num_epochs tokenized_data.

(** Cell 8 as a whole. *)
Definition cell8 : Run Tokenizer.str :=
  predict (Tokenizer.str_of_string "hello world how") vocab.

(** ** The training step as the specification describes it

    One example (prefix, target): run the model on the prefix, take the
    cross-entropy of the last position's logits against the target, and
    apply one optimizer update with the gradient of that loss alone. *)
Definition example_graph (m : SimpleLLM.t) (prefix : list Z) (target : Z)
  : SimpleLLM.Parameters -> result R :=
  fun p => example_loss (SimpleLLM.update_parameters m p)
                        (long_row prefix) [target].

Definition spec_train_example (prefix : list Z) (target : Z) : Run unit :=
  fun st =>
    let m := model st in
    match (input <- tensor_row prefix ;; tensor_item target) with
    | Raise e => (Raise e, st)
    | Ok _ =>
        match example_loss m (long_row prefix) [target] with
        | Raise e =>
            (Raise e, {| model := m; grad := None;
                         optimizer := optimizer st; loss := loss st |})
        | Ok v =>
            let g := autograd (example_graph m prefix target)
                              (SimpleLLM.parameters m) in
            let (o, p) := adam (optimizer st) (SimpleLLM.parameters m) g in
            (Ok tt, {| model := SimpleLLM.update_parameters m p;
                       grad := Some g;
                       optimizer := o;
                       loss := Some {| value := v;
                                       graph :=
                                         example_graph m prefix target |}
                     |})
        end
    end.

(** The examples of a sentence, in order: (S[0:i], S[i]) for
    i = 1 .. len(S)-1. *)
Definition spec_examples (sentence : list Z) : list (list Z * Z) :=
  map (fun i => (firstn i sentence, nth i sentence 0%Z))
      (seq 1 (length sentence - 1)).

Definition spec_train_sentence (sentence : list Z) : Run unit :=
  for_each (spec_examples sentence)
           (fun ex => spec_train_example (fst ex) (snd ex)).

(** ** What a statement leaves untouched *)

(** The statement does not write to the model at all. *)
Definition keeps_model {A} (m : Run A) : Prop :=
  forall st, model (snd (m st)) = model st.

(** The statement does not write to the positional table. *)
Definition keeps_table {A} (m : Run A) : Prop :=
  forall st,
    SimpleLLM.positional_encoding (model (snd (m st)))
    = SimpleLLM.positional_encoding (model st).

End Training.

(* ================================================================== *)
(** * Scaled dot-product attention, as the specification states it *)

Module AttentionSpec.

(** The learned linear projection of position [p] of sequence [n],
    channel [j]. *)
Definition project (l : Linear) (x : Tensor3) (n p j : nat) : R :=
  sigma (size2 x) (fun i => at3 x n p i * weight l j i) + bias l j.

(** Q.K^T / sqrt(D) at query [q] and key [k]. *)
Definition score (self : SelfAttention.t) (x : Tensor3) (n q k : nat) : R :=
  sigma (size2 x)
        (fun i => project (SelfAttention.query self) x n q i
                  * project (SelfAttention.key self) x n k i)
  / sqrt (INR (size2 x)).

(** The softmax of the scores of query [q] over all keys. *)
Definition weight_of (self : SelfAttention.t) (x : Tensor3) (n q k : nat) : R :=
  exp (score self x n q k)
  / sigma (size1 x) (fun k' => exp (score self x n q k')).

(** softmax(Q.K^T / sqrt(D)) . V *)
Definition attention (self : SelfAttention.t) (x : Tensor3) : Tensor3 :=
  {| size0 := size0 x; size1 := size1 x; size2 := size2 x;
     at3 := fun n q c =>
       sigma (size1 x)
             (fun k => weight_of self x n q k
                       * project (SelfAttention.value self) x n k c) |}.

End AttentionSpec.

(** [x[:, pi, :]]: the sequence whose position [p] is position [pi[p]] of
    [x]. *)
Definition permute_positions (pi : list nat) (x : Tensor3) : Tensor3 :=
  {| size0 := size0 x; size1 := length pi; size2 := size2 x;
     at3 := fun n p c => at3 x n (nth p pi 0%nat) c |}.

(** Two results are the same: the same exception, or the same tensor. *)
Definition same_result (a b : result Tensor3) : Prop :=
  match a, b with
  | Ok s, Ok t => same3 s t
  | Raise e, Raise e' => e = e'
  | _, _ => False
  end.

(* ================================================================== *)
(** * Small concrete objects on which the statements are exercised *)

Definition constant_linear (i o : nat) (w b : R) : Linear :=
  {| in_features := i; out_features := o;
     weight := fun _ _ => w; bias := fun _ => b |}.

(** Attention over one channel: queries and keys are zero, the value
    projection is the identity. *)
Definition averaging_attention : SelfAttention.t :=
  {| SelfAttention.query := constant_linear 1 1 0 0;
     SelfAttention.key := constant_linear 1 1 0 0;
     SelfAttention.value := constant_linear 1 1 1 0 |}.

(** One sequence of two one-channel vectors, [a] then [b]. *)
Definition two_positions (a b : R) : Tensor3 :=
  {| size0 := 1; size1 := 2; size2 := 1;
     at3 := fun _ p _ => match p with O => a | _ => b end |}.

Definition result_map {A B} (f : A -> B) (r : result A) : result B :=
  match r with
  | Ok a => Ok (f a)
  | Raise e => Raise e
  end.

(** The positional encoder [PositionalEncoding(D, max)], when the
    constructor returns. *)
Definition encoder_of (D max : nat) : PositionalEncoding.t :=
  match PositionalEncoding.init D max with
  | Ok p => p
  | Raise _ => {| PositionalEncoding.embedding_dim := D;
                  PositionalEncoding.pe := unsqueeze0 (zeros 0 0) |}
  end.

(** A tensor of shape (L, B, D) with distinct rows. *)
Definition ramp (L B D : nat) : Tensor3 :=
  {| size0 := L; size1 := B; size2 := D;
     at3 := fun p _ c => INR (p + c) |}.

(* ================================================================== *)
(** * The transformer block, as the specification states it *)

Module BlockSpec.

(** LayerNorm of one token: normalise across its [D] channels, then the
    learned per-channel scale and shift. *)
Definition layer_norm (ln : LayerNorm) (D : nat) (v : nat -> R) (c : nat) : R :=
  normalize D v c * ln_weight ln c + ln_bias ln c.

(** A linear layer on one token. *)
Definition linear (l : Linear) (v : nat -> R) (j : nat) : R :=
  sigma (in_features l) (fun i => v i * weight l j i) + bias l j.

(** Linear(D to H), rectified linear, Linear(H to D), on one token. *)
Definition feed_forward (self : TransformerBlock.t) (v : nat -> R) (c : nat)
  : R :=
  linear (TransformerBlock.feed_forward_2 self)
         (fun j => Rmax 0 (linear (TransformerBlock.feed_forward_0 self) v j))
         c.

(** x1 = LayerNorm(x + SelfAttention(x)) *)
Definition x1 (self : TransformerBlock.t) (x : Tensor3) (n p c : nat) : R :=
  layer_norm (TransformerBlock.norm1 self) (size2 x)
    (fun c' =>
       at3 x n p c'
       + at3 (AttentionSpec.attention (TransformerBlock.attention self) x)
             n p c')
    c.

(** x2 = LayerNorm(x1 + FeedForward(x1)) *)
Definition x2 (self : TransformerBlock.t) (x : Tensor3) (n p c : nat) : R :=
  layer_norm (TransformerBlock.norm2 self) (size2 x)
    (fun c' => x1 self x n p c' + feed_forward self (x1 self x n p) c')
    c.

Definition block (self : TransformerBlock.t) (x : Tensor3) : Tensor3 :=
  {| size0 := size0 x; size1 := size1 x; size2 := size2 x;
     at3 := x2 self x |}.

End BlockSpec.

(** A LayerNorm over two channels with scale 1 and shift 0, and a block
    built around the averaging attention. *)
Definition plain_norm (D : nat) : LayerNorm :=
  {| normalized_shape := D; ln_weight := fun _ => 1; ln_bias := fun _ => 0 |}.

Definition small_block : TransformerBlock.t :=
  {| TransformerBlock.attention := averaging_attention;
     TransformerBlock.feed_forward_0 := constant_linear 1 3 1 0;
     TransformerBlock.feed_forward_2 := constant_linear 3 1 1 0;
     TransformerBlock.norm1 := plain_norm 1;
     TransformerBlock.norm2 := plain_norm 1 |}.

(** One token with two equal channels. *)
Definition flat_token : Tensor3 :=
  {| size0 := 1; size1 := 1; size2 := 2; at3 := fun _ _ _ => 1 |}.

(** A model with vocabulary 6, dimension 2, hidden width 3 and one block,
    and the objects of cell 7 around it (with a trivial optimizer state). *)
Definition tiny_block : TransformerBlock.t :=
  {| TransformerBlock.attention :=
       {| SelfAttention.query := constant_linear 2 2 0 0;
          SelfAttention.key := constant_linear 2 2 0 0;
          SelfAttention.value := constant_linear 2 2 1 0 |};
     TransformerBlock.feed_forward_0 := constant_linear 2 3 1 0;
     TransformerBlock.feed_forward_2 := constant_linear 3 2 1 0;
     TransformerBlock.norm1 := plain_norm 2;
     TransformerBlock.norm2 := plain_norm 2 |}.

Definition tiny_model : SimpleLLM.t :=
  {| SimpleLLM.embedding :=
       {| Embedding.embedding :=
            {| num_embeddings := 6; emb_dim := 2;
               emb_weight := fun id c => INR (id + c) |} |};
     SimpleLLM.positional_encoding :=
       encoder_of 2 PositionalEncoding.default_max_seq_len;
     SimpleLLM.transformer_blocks := [tiny_block];
     SimpleLLM.output := constant_linear 2 6 1 0 |}.

Definition tiny_state : State nat :=
  {| model := tiny_model; grad := None; optimizer := 0%nat; loss := None |}.

(** Stand-ins for the library pieces, to run the loop on the tiny model:
    an optimizer that keeps the parameters and counts its steps, a
    gradient that is not looked at. *)
Definition counting_adam (steps : nat) (p g : SimpleLLM.Parameters)
  : nat * SimpleLLM.Parameters := (S steps, p).

Definition no_gradient (_ : SimpleLLM.Parameters -> result R)
    (p : SimpleLLM.Parameters) : SimpleLLM.Parameters := p.

Definition first_gradient (g0 _ : SimpleLLM.Parameters)
  : SimpleLLM.Parameters := g0.

(* ================================================================== *)
(** * Vocabulary for the further properties *)

(** A word: non-empty, without whitespace. *)
Definition is_word (w : Tokenizer.str) : Prop :=
  w <> [] /\ forallb (fun c => negb (Tokenizer.isspace c)) w = true.

(** The words written one after the other with one space (U+0020) between
    them. *)
Fixpoint join_spaces (words : list Tokenizer.str) : Tokenizer.str :=
  match words with
  | [] => []
  | w :: rest =>
      match rest with
      | [] => w
      | _ => w ++ 32%N :: join_spaces rest
      end
  end.

(** The number of examples of a data set: len(S) - 1 for each sentence. *)
Definition count_examples (tokenized_data : list (list Z)) : nat :=
  fold_right (fun sentence n => (length sentence - 1 + n)%nat) 0%nat
             tokenized_data.

(** A vocabulary whose ids leave a gap. *)
Definition gap_vocab : Tokenizer.dict :=
  [ (Tokenizer.str_of_string "a", 0%Z);
    (Tokenizer.str_of_string "b", 2%Z) ].

(** A batch of two sequences of two one-channel vectors: sequence 0 is 1
    then 3, sequence 1 is [b] twice. *)
Definition two_sequences (b : R) : Tensor3 :=
  {| size0 := 2; size1 := 2; size2 := 1;
     at3 := fun n p _ =>
       match n with
       | O => match p with O => 1 | _ => 3 end
       | _ => b
       end |}.

(* ================================================================== *)
(** * Properties of the tokenizer *)

Section TokenizerFacts.
Import Tokenizer.

Lemma bind_ok {A B} (m : result A) (k : A -> result B) a :
  m = Ok a -> bind m k = k a.
Proof. intros ->. reflexivity. Qed.

Lemma mapM_ok {A B} (f : A -> result B) (g : A -> B) (l : list A) :
  (forall a, In a l -> f a = Ok (g a)) -> mapM f l = Ok (map g l).
Proof.
  induction l as [|a l IH]; intros Hf; simpl.
  - reflexivity.
  - rewrite (Hf a) by (left; reflexivity). simpl.
    rewrite IH by (intros; apply Hf; right; assumption).
    reflexivity.
Qed.

(** Inside a word ([cur] non-empty) the word being read counts as one. *)
Lemma split_from_length text : forall cur,
  length (split_from cur text) =
  match cur with
  | [] => count_words true text
  | _ => S (count_words false text)
  end.
Proof.
  induction text as [|c rest IH]; intros cur; simpl.
  - destruct cur; reflexivity.
  - destruct (isspace c).
    + destruct cur; simpl; rewrite (IH []); reflexivity.
    + rewrite (IH (c :: cur)). destruct cur; reflexivity.
Qed.

Lemma split_length text : length (split text) = count_words true text.
Proof. unfold split. apply (split_from_length text []). Qed.

Lemma lookup_in_range vocab n k v :
  values_in_range vocab n -> lookup vocab k = Some v -> id_in_range n v.
Proof.
  unfold values_in_range, id_in_range.
  induction 1 as [|[k' v'] rest Hkv _ IH]; simpl; intros Hl.
  - discriminate.
  - destruct (str_eqb k' k).
    + injection Hl as <-. exact Hkv.
    + apply IH, Hl.
Qed.

Lemma get_in_range vocab n k d :
  values_in_range vocab n -> id_in_range n d -> id_in_range n (get vocab k d).
Proof.
  intros Hv Hd. unfold get.
  destruct (lookup vocab k) eqn:E; [eapply lookup_in_range; eauto | exact Hd].
Qed.

Lemma valid_index_spec n i : valid_index n i = true <-> id_in_range n i.
Proof.
  unfold valid_index, id_in_range.
  rewrite andb_true_iff, Z.leb_le, Z.ltb_lt. tauto.
Qed.

Lemma long_row_valid n ids :
  Forall (id_in_range n) ids -> all_indices_valid n (long_row ids) = true.
Proof.
  intros H. unfold all_indices_valid, long_row; simpl.
  rewrite andb_true_r. apply forallb_forall. intros c Hc.
  apply in_seq in Hc. apply valid_index_spec.
  rewrite Forall_forall in H. apply H, nth_In. lia.
Qed.

End TokenizerFacts.

(** C10. With a vocabulary that has the key "<UNK>" and values in
    [0, vocabulary_size), [tokenize] returns one id per whitespace-separated
    word, every id is in [0, vocabulary_size), so the embedding lookup of
    the tokenized text succeeds; and the empty text gives the empty list. *)
Theorem tokenize_ids_in_range :
  forall (text : Tokenizer.str) (vocab : Tokenizer.dict) (vocabulary_size : nat),
    Tokenizer.contains_key vocab Tokenizer.UNK ->
    Tokenizer.values_in_range vocab vocabulary_size ->
    (exists ids,
        Tokenizer.tokenize text vocab = Ok ids /\
        length ids = Tokenizer.count_words true text /\
        Forall (Tokenizer.id_in_range vocabulary_size) ids /\
        forall emb : Embedding.t,
          num_embeddings (Embedding.embedding emb) = vocabulary_size ->
          exists y, Embedding.forward emb (long_row ids) = Ok y /\
                    shape3 y = (1%nat, length ids,
                                emb_dim (Embedding.embedding emb))) /\
    Tokenizer.tokenize [] vocab = Ok [].
Proof.
  intros text vocab n [unk Hunk] Hrange. split; [|reflexivity].
  assert (Hu : Tokenizer.id_in_range n unk)
    by (eapply lookup_in_range; eauto).
  exists (map (fun word => Tokenizer.get vocab word unk) (Tokenizer.split text)).
  assert (Hall : Forall (Tokenizer.id_in_range n)
            (map (fun word => Tokenizer.get vocab word unk)
                 (Tokenizer.split text))).
  { apply Forall_forall. intros id Hin. apply in_map_iff in Hin.
    destruct Hin as [w [<- _]]. apply get_in_range; assumption. }
  repeat split.
  - unfold Tokenizer.tokenize. apply mapM_ok. intros w _.
    unfold Tokenizer.getitem. rewrite Hunk. reflexivity.
  - rewrite length_map. apply split_length.
  - exact Hall.
  - intros emb Hemb. unfold Embedding.forward, nn_Embedding_forward.
    rewrite Hemb, (long_row_valid Hall). eexists. split; reflexivity.
Qed.

(** The hypotheses of C10 hold of the vocabulary of cell 7. *)
Lemma tokenize_ids_in_range_witness :
  (exists ids,
      Tokenizer.tokenize (Tokenizer.str_of_string "hello there world") vocab
        = Ok ids /\
      length ids
        = Tokenizer.count_words true
            (Tokenizer.str_of_string "hello there world") /\
      Forall (Tokenizer.id_in_range vocab_size) ids /\
      forall emb : Embedding.t,
        num_embeddings (Embedding.embedding emb) = vocab_size ->
        exists y, Embedding.forward emb (long_row ids) = Ok y /\
                  shape3 y = (1%nat, length ids,
                              emb_dim (Embedding.embedding emb))) /\
  Tokenizer.tokenize [] vocab = Ok [].
Proof.
  apply (@tokenize_ids_in_range
           (Tokenizer.str_of_string "hello there world") vocab vocab_size).
  - exists 5%Z. reflexivity.
  - unfold Tokenizer.values_in_range, vocab, vocab_size. simpl.
    repeat constructor; simpl; lia.
Defined.

Example tokenize_cell8 :
  Tokenizer.tokenize (Tokenizer.str_of_string "hello world how") vocab
  = Ok [0%Z; 1%Z; 2%Z].
Proof. reflexivity. Qed.

Example tokenize_unknown_word :
  Tokenizer.tokenize (Tokenizer.str_of_string "  hello   there ") vocab
  = Ok [0%Z; 5%Z].
Proof. reflexivity. Qed.

(* ================================================================== *)
(** * Finite sums *)

Section Sums.

Lemma sigma_ext n (f g : nat -> R) :
  (forall i, (i < n)%nat -> f i = g i) -> sigma n f = sigma n g.
Proof.
  intros H. unfold sigma. f_equal. apply map_ext_in.
  intros i Hi. apply in_seq in Hi. apply H. lia.
Qed.

Lemma Rsum_scale (l : list R) c : Rsum (map (fun a => a / c) l) = Rsum l / c.
Proof.
  induction l as [|a l IH]; simpl.
  - unfold Rdiv. ring.
  - rewrite IH. unfold Rdiv. ring.
Qed.

Lemma sigma_div n (f : nat -> R) c :
  sigma n (fun i => f i / c) = sigma n f / c.
Proof.
  unfold sigma. rewrite <- Rsum_scale, map_map. reflexivity.
Qed.

Lemma Rsum_nonneg (l : list R) : Forall (fun a => 0 <= a) l -> 0 <= Rsum l.
Proof.
  induction 1 as [|a l Ha _ IH]; simpl; lra.
Qed.

Lemma Rsum_pos (l : list R) :
  l <> [] -> Forall (fun a => 0 < a) l -> 0 < Rsum l.
Proof.
  intros Hne H. destruct H as [|a l Ha Hl]; [congruence|]. simpl.
  assert (0 <= Rsum l).
  { apply Rsum_nonneg. eapply Forall_impl; [|exact Hl]. intros; lra. }
  lra.
Qed.

Lemma sigma_pos n (f : nat -> R) :
  (0 < n)%nat -> (forall i, (i < n)%nat -> 0 < f i) -> 0 < sigma n f.
Proof.
  intros Hn H. unfold sigma. apply Rsum_pos.
  - destruct n; [lia|]. simpl. discriminate.
  - apply Forall_forall. intros a Ha. apply in_map_iff in Ha.
    destruct Ha as [i [<- Hi]]. apply in_seq in Hi. apply H. lia.
Qed.

Lemma Rsum_perm (l l' : list R) : Permutation l l' -> Rsum l = Rsum l'.
Proof.
  induction 1; simpl; try lra.
Qed.

Lemma map_nth_seq (pi : list nat) :
  map (fun k => nth k pi 0%nat) (seq 0 (length pi)) = pi.
Proof.
  apply nth_ext with (d := 0%nat) (d' := 0%nat).
  - rewrite length_map, length_seq. reflexivity.
  - intros i Hi. rewrite length_map, length_seq in Hi.
    rewrite (nth_indep _ 0%nat (nth 0 pi 0%nat)) by
      (rewrite length_map, length_seq; exact Hi).
    rewrite (map_nth (fun k => nth k pi 0%nat)).
    rewrite seq_nth by exact Hi. reflexivity.
Qed.

(** Re-indexing a sum by a permutation of its index range. *)
Lemma sigma_perm n (pi : list nat) (f : nat -> R) :
  Permutation pi (seq 0 n) ->
  sigma n (fun k => f (nth k pi 0%nat)) = sigma n f.
Proof.
  intros Hp. unfold sigma.
  assert (Hlen : length pi = n)
    by (rewrite (Permutation_length Hp); apply length_seq).
  rewrite <- (map_map (fun k => nth k pi 0%nat) f).
  rewrite <- Hlen at 1. rewrite map_nth_seq.
  apply Rsum_perm, Permutation_map, Hp.
Qed.

Lemma sigma_plus n (f g : nat -> R) :
  sigma n (fun i => f i + g i) = sigma n f + sigma n g.
Proof.
  unfold sigma. induction (seq 0 n) as [|a l IH]; simpl; [lra|].
  rewrite IH. ring.
Qed.

Lemma Rsum_const {A} (l : list A) c :
  Rsum (map (fun _ => c) l) = INR (length l) * c.
Proof.
  induction l as [|a l IH]; [simpl; ring|].
  change (length (a :: l)) with (S (length l)). rewrite S_INR. simpl.
  rewrite IH. ring.
Qed.

Lemma sigma_const n c : sigma n (fun _ => c) = INR n * c.
Proof. unfold sigma. rewrite Rsum_const, length_seq. reflexivity. Qed.

Lemma sigma_scale n (f : nat -> R) c :
  sigma n (fun i => f i * c) = sigma n f * c.
Proof.
  unfold sigma. induction (seq 0 n) as [|a l IH]; simpl; [ring|].
  rewrite IH. ring.
Qed.

Lemma sigma_nonneg n (f : nat -> R) :
  (forall i, 0 <= f i) -> 0 <= sigma n f.
Proof.
  intros H. unfold sigma. apply Rsum_nonneg, Forall_forall.
  intros a Ha. apply in_map_iff in Ha. destruct Ha as [i [<- _]]. apply H.
Qed.

End Sums.

(* ================================================================== *)
(** * Self-attention *)

(** The shapes a constructor establishes, checked on a concrete module. *)
Ltac constructed_by_computation :=
  unfold SimpleLLM.constructed, Embedding.constructed,
    TransformerBlock.constructed, SelfAttention.constructed,
    SelfAttention.is_linear;
  simpl; repeat split; try reflexivity; repeat constructor.

Section SelfAttentionFacts.

Lemma exp_sum_pos n (f : nat -> R) :
  (0 < n)%nat -> 0 < sigma n (fun k => exp (f k)).
Proof. intros Hn. apply sigma_pos; [exact Hn|]. intros; apply exp_pos. Qed.

(** A softmax row: non-negative entries that add up to one. *)
Lemma softmax_row n (f : nat -> R) :
  (0 < n)%nat ->
  (forall k, 0 < exp (f k) / sigma n (fun k' => exp (f k'))) /\
  sigma n (fun k => exp (f k) / sigma n (fun k' => exp (f k'))) = 1.
Proof.
  intros Hn. pose proof (exp_sum_pos f Hn) as Hs. split.
  - intros k. apply Rdiv_lt_0_compat; [apply exp_pos | exact Hs].
  - rewrite sigma_div. field. lra.
Qed.

Lemma forward_unfold (self : SelfAttention.t) (D : nat) (x : Tensor3) :
  SelfAttention.constructed D self -> size2 x = D ->
  SelfAttention.forward self x = Ok (AttentionSpec.attention self x).
Proof.
  destruct self as [[qi qo qw qb] [ki ko kw kb] [vi vo vw vb]].
  destruct x as [B L D' f].
  unfold SelfAttention.constructed, SelfAttention.is_linear. simpl.
  intros [[-> ->] [[-> ->] [-> ->]]] ->.
  unfold SelfAttention.forward, Linear_forward, bmm. simpl.
  repeat (rewrite !Nat.eqb_refl; simpl). reflexivity.
Qed.

Lemma weight_of_pos (self : SelfAttention.t) (x : Tensor3) n q k :
  (k < size1 x)%nat -> 0 < AttentionSpec.weight_of self x n q k.
Proof.
  intros Hk. unfold AttentionSpec.weight_of.
  apply (softmax_row (fun k => AttentionSpec.score self x n q k)). lia.
Qed.

End SelfAttentionFacts.

(** C1. On a sequence of L vectors of dimension D, [SelfAttention.forward]
    returns softmax(Q.K^T / sqrt(D)) . V for the three learned D-to-D
    projections Q, K, V of the input; no mask is applied: the weight that
    any query position gives to any key position, later ones included, is
    strictly positive. *)
Theorem SelfAttention_forward_is_scaled_dot_product :
  forall (self : SelfAttention.t) (D : nat) (x : Tensor3),
    SelfAttention.constructed D self ->
    size2 x = D ->
    SelfAttention.forward self x = Ok (AttentionSpec.attention self x) /\
    forall n q k, (q < size1 x)%nat -> (k < size1 x)%nat ->
      0 < AttentionSpec.weight_of self x n q k.
Proof.
  intros self D x Hc Hx. split.
  - eapply forward_unfold; eassumption.
  - intros n q k _ Hk. apply weight_of_pos, Hk.
Qed.

Lemma SelfAttention_forward_is_scaled_dot_product_witness :
  SelfAttention.forward averaging_attention (two_positions 0 2)
    = Ok (AttentionSpec.attention averaging_attention (two_positions 0 2)) /\
  forall n q k, (q < 2)%nat -> (k < 2)%nat ->
    0 < AttentionSpec.weight_of averaging_attention (two_positions 0 2) n q k.
Proof.
  apply (@SelfAttention_forward_is_scaled_dot_product
           averaging_attention 1%nat (two_positions 0 2)).
  - constructed_by_computation.
  - reflexivity.
Defined.

(** The output at position 0 changes when only position 1 changes. *)
Lemma averaging_attention_output (a b : R) :
  at3 (AttentionSpec.attention averaging_attention (two_positions a b))
      0 0 0 = (a + b) / 2.
Proof.
  unfold AttentionSpec.attention, AttentionSpec.weight_of. simpl at3.
  assert (Hs : forall q k,
             AttentionSpec.score averaging_attention (two_positions a b) 0 q k
             = 0).
  { intros q k. unfold AttentionSpec.score, AttentionSpec.project, sigma.
    simpl. unfold Rdiv. ring. }
  unfold sigma at 1 2. simpl. rewrite !Hs, exp_0.
  unfold AttentionSpec.project, sigma. simpl. field.
Qed.

Example SelfAttention_reads_later_positions :
  exists y y',
    SelfAttention.forward averaging_attention (two_positions 0 0) = Ok y /\
    SelfAttention.forward averaging_attention (two_positions 0 2) = Ok y' /\
    at3 y 0 0 0 <> at3 y' 0 0 0.
Proof.
  do 2 eexists. split; [|split].
  - apply (@forward_unfold averaging_attention 1%nat);
      [constructed_by_computation | reflexivity].
  - apply (@forward_unfold averaging_attention 1%nat);
      [constructed_by_computation | reflexivity].
  - rewrite !averaging_attention_output. lra.
Qed.

(** C5. For every query position of every sequence, the attention weights
    computed inside [SelfAttention.forward] (the softmax of the scaled
    scores over the key axis) are non-negative and add up to 1. *)
Theorem attention_weights_nonneg_sum_one :
  forall (self : SelfAttention.t) (D : nat) (x : Tensor3),
    SelfAttention.constructed D self ->
    size2 x = D ->
    exists w,
      SelfAttention.attention_weights self x = Ok w /\
      shape3 w = (size0 x, size1 x, size1 x) /\
      SelfAttention.forward self x
        = (values <- Linear_forward (SelfAttention.value self) x ;;
           bmm w values) /\
      forall n q, (q < size1 x)%nat ->
        (forall k, (k < size1 x)%nat -> 0 <= at3 w n q k) /\
        sigma (size1 x) (fun k => at3 w n q k) = 1.
Proof.
  intros self D x.
  destruct self as [[qi qo qw qb] [ki ko kw kb] [vi vo vw vb]].
  destruct x as [B L D' f].
  unfold SelfAttention.constructed, SelfAttention.is_linear. simpl.
  intros [[-> ->] [[-> ->] [-> ->]]] ->.
  unfold SelfAttention.attention_weights, SelfAttention.forward,
    Linear_forward, bmm. simpl.
  repeat (rewrite !Nat.eqb_refl; simpl).
  eexists. split; [reflexivity|]. split; [reflexivity|].
  split; [simpl; rewrite !Nat.eqb_refl; reflexivity|]. simpl.
  intros n q Hq.
  match goal with
  | |- context [sigma L (fun k' => exp (@?g k'))] =>
      destruct (@softmax_row L g) as [Hpos Hone]; [lia|]
  end.
  split.
  - intros k _. left. apply Hpos.
  - exact Hone.
Qed.

Lemma attention_weights_nonneg_sum_one_witness :
  exists w,
    SelfAttention.attention_weights averaging_attention (two_positions 0 2)
      = Ok w /\
    shape3 w = (1%nat, 2%nat, 2%nat) /\
    SelfAttention.forward averaging_attention (two_positions 0 2)
      = (values <- Linear_forward (SelfAttention.value averaging_attention)
                                  (two_positions 0 2) ;;
         bmm w values) /\
    forall n q, (q < 2)%nat ->
      (forall k, (k < 2)%nat -> 0 <= at3 w n q k) /\
      sigma 2 (fun k => at3 w n q k) = 1.
Proof.
  apply (@attention_weights_nonneg_sum_one
           averaging_attention 1%nat (two_positions 0 2)).
  - constructed_by_computation.
  - reflexivity.
Defined.

(** C9. Self-attention is permutation-equivariant: running it on the
    sequence re-ordered by a permutation [pi] of the positions gives the
    output of the original sequence re-ordered by [pi] (and raises exactly
    when the original call raises); it has no notion of position. *)
Theorem SelfAttention_permutation_equivariant :
  forall (self : SelfAttention.t) (pi : list nat) (x : Tensor3),
    Permutation pi (seq 0 (size1 x)) ->
    same_result (SelfAttention.forward self (permute_positions pi x))
                (result_map (permute_positions pi)
                            (SelfAttention.forward self x)).
Proof.
  intros self pi x Hp.
  assert (Hlen : length pi = size1 x)
    by (rewrite (Permutation_length Hp); apply length_seq).
  destruct self as [[qi qo qw qb] [ki ko kw kb] [vi vo vw vb]].
  destruct x as [B L D f]. simpl in *.
  unfold SelfAttention.forward, Linear_forward, bmm. simpl.
  destruct (D =? qi)%nat; simpl; [|reflexivity].
  destruct (D =? ki)%nat; simpl; [|reflexivity].
  destruct (D =? vi)%nat; simpl; [|reflexivity].
  destruct ((B =? B) && (qo =? ko))%nat; simpl; [|reflexivity].
  rewrite Hlen.
  destruct ((B =? B) && (L =? L))%nat; simpl; [|reflexivity].
  unfold same3, shape3, permute_positions; simpl. rewrite Hlen.
  split; [reflexivity|]. intros n q c _ _ _.
  (* the sum over the keys is re-indexed by pi, then the softmax divisor *)
  match goal with
  | |- _ = sigma L ?F => rewrite <- (@sigma_perm L pi F Hp)
  end.
  apply sigma_ext. intros k _.
  f_equal. unfold Rdiv. f_equal. f_equal.
  match goal with
  | |- _ = sigma L ?G => exact (@sigma_perm L pi G Hp)
  end.
Qed.

Lemma SelfAttention_permutation_equivariant_witness :
  same_result
    (SelfAttention.forward averaging_attention
       (permute_positions [1%nat; 0%nat] (two_positions 0 2)))
    (result_map (permute_positions [1%nat; 0%nat])
       (SelfAttention.forward averaging_attention (two_positions 0 2))).
Proof.
  apply (@SelfAttention_permutation_equivariant
           averaging_attention [1%nat; 0%nat] (two_positions 0 2)).
  simpl. apply perm_swap.
Defined.

Example permute_positions_swaps :
  at3 (permute_positions [1%nat; 0%nat] (two_positions 0 2)) 0 0 0 = 2.
Proof. reflexivity. Qed.

(* ================================================================== *)
(** * The positional encoder *)

Section PositionalEncodingFacts.

Lemma broadcast_dim_1_l dim n : broadcast_dim dim 1 n = Ok n.
Proof.
  unfold broadcast_dim. destruct (1 =? n)%nat eqn:E.
  - apply Nat.eqb_eq in E. subst. reflexivity.
  - reflexivity.
Qed.

Lemma broadcast_dim_1_r dim n : broadcast_dim dim n 1 = Ok n.
Proof.
  unfold broadcast_dim. destruct (n =? 1)%nat eqn:E; reflexivity.
Qed.

Lemma broadcast_dim_same dim n : broadcast_dim dim n n = Ok n.
Proof. unfold broadcast_dim. rewrite Nat.eqb_refl. reflexivity. Qed.

Lemma bidx_lt size i : (i < size)%nat -> bidx size i = i.
Proof.
  unfold bidx. destruct (size =? 1)%nat eqn:E; [|reflexivity].
  apply Nat.eqb_eq in E. lia.
Qed.

Lemma half_succ_double h : ((2 * h + 1) / 2 = h)%nat.
Proof.
  rewrite (Nat.mul_comm 2 h), Nat.div_add_l by discriminate. simpl. lia.
Qed.

Lemma half_double h : ((2 * h) / 2 = h)%nat.
Proof. rewrite (Nat.mul_comm 2 h). apply Nat.div_mul. discriminate. Qed.

Lemma even_channel_test i :
  ((1 <=? 2 * i) && ((2 * i - 1) mod 2 =? 0))%nat = false.
Proof.
  destruct i as [|i]; [reflexivity|].
  replace (2 * S i - 1)%nat with (1 + i * 2)%nat by lia.
  rewrite Nat.Div0.mod_add. reflexivity.
Qed.

Lemma odd_channel_test i :
  ((1 <=? 2 * i + 1) && ((2 * i + 1 - 1) mod 2 =? 0))%nat = true.
Proof.
  replace (2 * i + 1 - 1)%nat with (i * 2)%nat by lia.
  rewrite Nat.Div0.mod_mul.
  replace (1 <=? 2 * i + 1)%nat with true; [reflexivity|].
  symmetry. apply Nat.leb_le. lia.
Qed.


Lemma mul_row_column max (t : Tensor1) :
  mul_row (arange_column max) t
  = Ok {| rows := max; cols := len1 t;
          at2 := fun r c => INR r * at1 t (bidx (len1 t) c) |}.
Proof.
  unfold mul_row. cbn [cols arange_column rows at2].
  rewrite broadcast_dim_1_l. reflexivity.
Qed.

Lemma setitem_cols_ok (t : Tensor2) start step (v : Tensor2) :
  cols v = slice_len (cols t) start step ->
  rows v = rows t ->
  setitem_cols t start step v
  = Ok {| rows := rows t; cols := cols t;
          at2 := fun r c =>
            if ((start <=? c) && ((c - start) mod step =? 0))%nat
            then at2 v (bidx (rows v) r) (bidx (cols v) ((c - start) / step))
            else at2 t r c |}.
Proof.
  intros Hc Hr. unfold setitem_cols, expand_dim.
  rewrite Hc, Hr, !Nat.eqb_refl. reflexivity.
Qed.


Lemma half_bound i D : (2 * i < D)%nat -> (i < (D + 1) / 2)%nat.
Proof.
  intros H. apply (Nat.div_le_lower_bound (D + 1) 2 (S i)); lia.
Qed.

(** The code's divisor term is 10000^(-2i/D). *)
Lemma div_term_is_power (k D : nat) :
  (0 < D)%nat ->
  exp (INR k * (- ln 10000 / INR D)) = Rpower 10000 (- (INR k / INR D)).
Proof.
  intros HD. unfold Rpower. f_equal. field.
  apply not_0_INR. lia.
Qed.

Lemma angle_is_quotient (p k D : nat) :
  (0 < D)%nat ->
  INR p * exp (INR k * (- ln 10000 / INR D))
  = INR p / Rpower 10000 (INR k / INR D).
Proof.
  intros HD. rewrite (div_term_is_power k HD), Rpower_Ropp. reflexivity.
Qed.

Lemma shape3_eq (t : Tensor3) a b c :
  shape3 t = (a, b, c) -> size0 t = a /\ size1 t = b /\ size2 t = c.
Proof.
  unfold shape3. intros H.
  split; [|split].
  - exact (f_equal (fun s => fst (fst s)) H).
  - exact (f_equal (fun s => snd (fst s)) H).
  - exact (f_equal snd H).
Qed.

Lemma Ok_inj {A} (a b : A) : Ok a = Ok b -> a = b.
Proof. intros H. injection H as ->. reflexivity. Qed.

Lemma init_table D max penc :
  PositionalEncoding.init D max = Ok penc ->
  (0 < D)%nat /\
  PositionalEncoding.embedding_dim penc = D /\
  shape3 (PositionalEncoding.pe penc) = (max, 1%nat, D) /\
  forall p i, (p < max)%nat ->
    ((2 * i < D)%nat ->
     at3 (PositionalEncoding.pe penc) p 0 (2 * i)
       = sin (INR p * exp (INR (2 * i) * (- ln 10000 / INR D)))) /\
    ((2 * i + 1 < D)%nat ->
     at3 (PositionalEncoding.pe penc) p 0 (2 * i + 1)
       = cos (INR p * exp (INR (2 * i) * (- ln 10000 / INR D)))).
Proof.
  unfold PositionalEncoding.init. intros H.
  assert (HD : (0 < D)%nat) by (destruct D; [discriminate | lia]).
  assert (Hc : PositionalEncoding.neg_log_over D = Ok (- ln 10000 / INR D))
    by (destruct D; [lia | reflexivity]).
  rewrite Hc in H. cbn [bind] in H. rewrite mul_row_column in H.
  cbn [bind] in H.
  set (div_term := exp1 (scale1 (arange_step2 D) (- ln 10000 / INR D))) in *.
  assert (Hn : len1 div_term = ((D + 1) / 2)%nat) by reflexivity.
  rewrite setitem_cols_ok in H;
    [| cbn [cols map2d zeros]; rewrite Hn; unfold slice_len; f_equal; lia
     | reflexivity].
  cbn [bind] in H.
  unfold setitem_cols at 1 in H.
  destruct (expand_dim 1 _ _) as [[]|e]; [|discriminate]. cbn [bind] in H.
  destruct (expand_dim 0 _ _) as [[]|e]; [|discriminate]. cbn [bind] in H.
  apply Ok_inj in H. subst penc.
  split; [exact HD|]. split; [reflexivity|]. split; [reflexivity|].
  intros p i Hp.
  cbn [PositionalEncoding.pe transpose01 unsqueeze0 at3 at2 map2d rows cols
       zeros].
  rewrite Hn. split; intros Hi.
  - rewrite even_channel_test.
    replace ((0 <=? 2 * i) && ((2 * i - 0) mod 2 =? 0))%nat with true.
    2:{ rewrite Nat.sub_0_r, (Nat.mul_comm 2 i), Nat.Div0.mod_mul.
        reflexivity. }
    rewrite Nat.sub_0_r, half_double.
    assert (Hi' : (i < (D + 1) / 2)%nat) by (apply half_bound; exact Hi).
    unfold div_term. cbn [at1 exp1 scale1 arange_step2].
    rewrite !(bidx_lt Hi'), (bidx_lt Hp). reflexivity.
  - rewrite odd_channel_test.
    replace (2 * i + 1 - 1)%nat with (2 * i)%nat by lia.
    rewrite half_double.
    assert (Hi' : (i < (D + 1) / 2)%nat) by (apply half_bound; lia).
    unfold div_term. cbn [at1 exp1 scale1 arange_step2].
    rewrite !(bidx_lt Hi'), (bidx_lt Hp). reflexivity.
Qed.

Lemma forward_within (self : PositionalEncoding.t) (x : Tensor3) :
  size1 (PositionalEncoding.pe self) = 1%nat ->
  size2 (PositionalEncoding.pe self) = size2 x ->
  (size0 x <= PositionalEncoding.max_seq_len self)%nat ->
  exists y,
    PositionalEncoding.forward self x = Ok y /\
    shape3 y = shape3 x /\
    forall p b c, (p < size0 x)%nat -> (b < size1 x)%nat -> (c < size2 x)%nat ->
      at3 y p b c = at3 x p b c + at3 (PositionalEncoding.pe self) p 0 c.
Proof.
  unfold PositionalEncoding.max_seq_len, PositionalEncoding.forward, add.
  intros H1 H2 HL. cbn [narrow0 size0 size1 size2 at3].
  rewrite H1, H2, (Nat.min_l _ _ HL), !broadcast_dim_same, broadcast_dim_1_r.
  cbn [bind]. eexists. split; [reflexivity|]. split; [reflexivity|].
  intros p b c Hp Hb Hc. cbn [at3].
  rewrite (bidx_lt Hp), (bidx_lt Hb), (bidx_lt Hc). reflexivity.
Qed.

Lemma forward_beyond (self : PositionalEncoding.t) (x : Tensor3) :
  size1 (PositionalEncoding.pe self) = 1%nat ->
  size2 (PositionalEncoding.pe self) = size2 x ->
  (PositionalEncoding.max_seq_len self < size0 x)%nat ->
  PositionalEncoding.max_seq_len self <> 1%nat ->
  size0 x <> 1%nat ->
  PositionalEncoding.forward self x
  = Raise (SizeMismatch (size0 x) (PositionalEncoding.max_seq_len self) 0).
Proof.
  unfold PositionalEncoding.max_seq_len, PositionalEncoding.forward, add.
  intros H1 H2 HL Hm Hx. cbn [narrow0 size0 size1 size2 at3].
  rewrite H1, H2, broadcast_dim_same, broadcast_dim_1_r.
  cbn [bind]. rewrite Nat.min_r by lia. unfold broadcast_dim.
  destruct (Nat.eqb_spec (size0 x) (size0 (PositionalEncoding.pe self))); [lia|].
  destruct (Nat.eqb_spec (size0 x) 1); [lia|].
  destruct (Nat.eqb_spec (size0 (PositionalEncoding.pe self)) 1); [lia|].
  reflexivity.
Qed.

Lemma init_ok_2_3 : PositionalEncoding.init 2 3 = Ok (encoder_of 2 3).
Proof. reflexivity. Qed.

Lemma init_ok_2_1 : PositionalEncoding.init 2 1 = Ok (encoder_of 2 1).
Proof. reflexivity. Qed.

End PositionalEncodingFacts.

(** C3. For a positional encoder built for dimension D and [max] positions
    and an input of L <= max vectors of dimension D, the output has the
    shape of the input and output[p] - input[p] is row p of the table; the
    table has sin(p / 10000^(2i/D)) in channel 2i and cos(p / 10000^(2i/D))
    in channel 2i+1, the code's divisor term exp(2i * (-ln 10000 / D))
    being 10000^(-2i/D). *)
Theorem PositionalEncoding_forward_adds_table :
  forall (D max : nat) (penc : PositionalEncoding.t) (x : Tensor3),
    PositionalEncoding.init D max = Ok penc ->
    (size0 x <= max)%nat ->
    size2 x = D ->
    (exists y,
        PositionalEncoding.forward penc x = Ok y /\
        shape3 y = shape3 x /\
        forall p b c, (p < size0 x)%nat -> (b < size1 x)%nat -> (c < D)%nat ->
          at3 y p b c - at3 x p b c = at3 (PositionalEncoding.pe penc) p 0 c) /\
    shape3 (PositionalEncoding.pe penc) = (max, 1%nat, D) /\
    (forall p i, (p < max)%nat ->
       ((2 * i < D)%nat ->
        at3 (PositionalEncoding.pe penc) p 0 (2 * i)
          = sin (INR p / Rpower 10000 (INR (2 * i) / INR D))) /\
       ((2 * i + 1 < D)%nat ->
        at3 (PositionalEncoding.pe penc) p 0 (2 * i + 1)
          = cos (INR p / Rpower 10000 (INR (2 * i) / INR D)))) /\
    (forall i, exp (INR (2 * i) * (- ln 10000 / INR D))
               = Rpower 10000 (- (INR (2 * i) / INR D))).
Proof.
  intros D max penc x Hinit HL HD.
  destruct (@init_table D max penc Hinit) as [Hpos [_ [Hshape Htable]]].
  injection Hshape as Hs0 Hs1 Hs2.
  split; [|split; [|split]].
  - destruct (@forward_within penc x) as [y [Hy [Hsh Hat]]].
    + exact Hs1.
    + rewrite Hs2, HD. reflexivity.
    + unfold PositionalEncoding.max_seq_len. rewrite Hs0. exact HL.
    + exists y. split; [exact Hy|]. split; [exact Hsh|].
      intros p b c Hp Hb Hc. rewrite Hat by (rewrite ?HD; assumption). ring.
  - unfold shape3. rewrite Hs0, Hs1, Hs2. reflexivity.
  - intros p i Hp. destruct (Htable p i Hp) as [Hsin Hcos].
    split; intros Hi.
    + rewrite (Hsin Hi), (angle_is_quotient p (2 * i) Hpos). reflexivity.
    + rewrite (Hcos Hi), (angle_is_quotient p (2 * i) Hpos). reflexivity.
  - intros i. apply div_term_is_power, Hpos.
Qed.

Lemma PositionalEncoding_forward_adds_table_witness :
  (exists y,
      PositionalEncoding.forward (encoder_of 2 3) (ramp 2 1 2) = Ok y /\
      shape3 y = shape3 (ramp 2 1 2) /\
      forall p b c, (p < 2)%nat -> (b < 1)%nat -> (c < 2)%nat ->
        at3 y p b c - at3 (ramp 2 1 2) p b c
        = at3 (PositionalEncoding.pe (encoder_of 2 3)) p 0 c) /\
  shape3 (PositionalEncoding.pe (encoder_of 2 3)) = (3%nat, 1%nat, 2%nat) /\
  (forall p i, (p < 3)%nat ->
     ((2 * i < 2)%nat ->
      at3 (PositionalEncoding.pe (encoder_of 2 3)) p 0 (2 * i)
        = sin (INR p / Rpower 10000 (INR (2 * i) / INR 2))) /\
     ((2 * i + 1 < 2)%nat ->
      at3 (PositionalEncoding.pe (encoder_of 2 3)) p 0 (2 * i + 1)
        = cos (INR p / Rpower 10000 (INR (2 * i) / INR 2)))) /\
  (forall i, exp (INR (2 * i) * (- ln 10000 / INR 2))
             = Rpower 10000 (- (INR (2 * i) / INR 2))).
Proof.
  apply (@PositionalEncoding_forward_adds_table
           2%nat 3%nat (encoder_of 2 3) (ramp 2 1 2)).
  - reflexivity.
  - simpl. lia.
  - reflexivity.
Defined.

(** The constructor returns for every even dimension. *)
Lemma PositionalEncoding_init_even (h max : nat) :
  (0 < h)%nat -> exists penc, PositionalEncoding.init (2 * h) max = Ok penc.
Proof.
  intros Hh. unfold PositionalEncoding.init.
  assert (Hc : PositionalEncoding.neg_log_over (2 * h)
               = Ok (- ln 10000 / INR (2 * h))).
  { unfold PositionalEncoding.neg_log_over.
    destruct (2 * h)%nat eqn:E; [lia|reflexivity]. }
  rewrite Hc. cbn [bind]. rewrite mul_row_column. cbn [bind].
  assert (Hn : len1 (exp1 (scale1 (arange_step2 (2 * h))
                                  (- ln 10000 / INR (2 * h)))) = h).
  { cbn [len1 exp1 scale1 arange_step2]. apply half_succ_double. }
  rewrite setitem_cols_ok;
    [| cbn [cols map2d zeros]; rewrite Hn; unfold slice_len;
       replace (2 * h - 0 + (2 - 1))%nat with (2 * h + 1)%nat by lia;
       symmetry; apply half_succ_double
     | reflexivity].
  cbn [bind].
  rewrite setitem_cols_ok;
    [| cbn [cols map2d zeros]; rewrite Hn; unfold slice_len;
       replace (2 * h - 1 + (2 - 1))%nat with (2 * h)%nat by lia;
       symmetry; apply half_double
     | reflexivity].
  cbn [bind]. eexists. reflexivity.
Qed.

(** The constructor raises for an odd dimension above 1: the cosine
    columns do not fit. *)
Example PositionalEncoding_init_odd :
  PositionalEncoding.init 3 4 = Raise (ExpandMismatch 1 2 1).
Proof. reflexivity. Qed.

(** C7, as amended.  When the input is longer than the table, and neither
    the table nor the input has exactly one row, [forward] raises the size
    mismatch of the two lengths and returns nothing. *)
Theorem PositionalEncoding_forward_too_long :
  forall (D max : nat) (penc : PositionalEncoding.t) (x : Tensor3),
    PositionalEncoding.init D max = Ok penc ->
    size2 x = D ->
    (max < size0 x)%nat ->
    max <> 1%nat ->
    size0 x <> 1%nat ->
    PositionalEncoding.forward penc x = Raise (SizeMismatch (size0 x) max 0).
Proof.
  intros D max penc x Hinit HD HL Hmax Hx.
  destruct (@init_table D max penc Hinit) as [_ [_ [Hshape _]]].
  injection Hshape as Hs0 Hs1 Hs2.
  rewrite <- Hs0.
  apply forward_beyond; unfold PositionalEncoding.max_seq_len;
    rewrite ?Hs0, ?Hs1, ?Hs2; auto.
Qed.

Lemma PositionalEncoding_forward_too_long_witness :
  PositionalEncoding.forward (encoder_of 2 3) (ramp 4 1 2)
  = Raise (SizeMismatch 4 3 0).
Proof.
  apply (@PositionalEncoding_forward_too_long
           2%nat 3%nat (encoder_of 2 3) (ramp 4 1 2)).
  - reflexivity.
  - reflexivity.
  - simpl. lia.
  - lia.
  - simpl. lia.
Defined.

(** C7 as stated fails: a table of one row is broadcast over a longer
    input, and the call returns. *)
Lemma PositionalEncoding_single_row_table_is_broadcast :
  PositionalEncoding.init 2 1 = Ok (encoder_of 2 1) /\
  (PositionalEncoding.max_seq_len (encoder_of 2 1) < size0 (ramp 2 1 2))%nat /\
  exists y,
    PositionalEncoding.forward (encoder_of 2 1) (ramp 2 1 2) = Ok y /\
    shape3 y = (2%nat, 1%nat, 2%nat) /\
    forall c, at3 y 1 0 c
              = at3 (ramp 2 1 2) 1 0 c
                + at3 (PositionalEncoding.pe (encoder_of 2 1)) 0 0 c.
Proof.
  split; [reflexivity|]. split; [vm_compute; lia|].
  eexists. split; [reflexivity|]. split; [reflexivity|].
  intros c. reflexivity.
Qed.

(** An empty table and a single input vector: the call returns an empty
    tensor. *)
Example PositionalEncoding_empty_table :
  exists y,
    PositionalEncoding.forward (encoder_of 2 0) (ramp 1 1 2) = Ok y /\
    shape3 y = (0%nat, 1%nat, 2%nat).
Proof. eexists. split; reflexivity. Qed.

(* ================================================================== *)
(** * Layer normalisation and the transformer block *)

Section LayerNormFacts.

Lemma mean_ext n (v w : nat -> R) :
  (forall c, (c < n)%nat -> v c = w c) -> mean n v = mean n w.
Proof. intros H. unfold mean. rewrite (@sigma_ext n v w H). reflexivity. Qed.

Lemma variance_ext n (v w : nat -> R) :
  (forall c, (c < n)%nat -> v c = w c) -> variance n v = variance n w.
Proof.
  intros H. unfold variance. rewrite (@mean_ext n v w H). f_equal.
  apply sigma_ext. intros c Hc. rewrite (H c Hc). reflexivity.
Qed.

Lemma normalize_ext n (v w : nat -> R) c :
  (forall c, (c < n)%nat -> v c = w c) -> (c < n)%nat ->
  normalize n v c = normalize n w c.
Proof.
  intros H Hc. unfold normalize.
  rewrite (@mean_ext n v w H), (@variance_ext n v w H), (H c Hc). reflexivity.
Qed.

Lemma variance_nonneg n (v : nat -> R) : 0 <= variance n v.
Proof.
  unfold variance. apply Rmult_le_pos.
  - apply sigma_nonneg. intros i. apply (Rle_0_sqr (v i - mean n v)).
  - destruct n as [|n].
    + simpl. rewrite Rinv_0. lra.
    + left. apply Rinv_0_lt_compat, lt_0_INR. lia.
Qed.

Lemma eps_pos : 0 < LayerNorm_eps.
Proof. unfold LayerNorm_eps. lra. Qed.

Lemma mean_normalize n (v : nat -> R) :
  (0 < n)%nat -> mean n (normalize n v) = 0.
Proof.
  intros Hn. unfold normalize.
  assert (HN : INR n <> 0) by (apply not_0_INR; lia).
  unfold mean at 1. rewrite sigma_div.
  replace (sigma n (fun c => v c - mean n v)) with 0.
  - unfold Rdiv. ring.
  - replace (fun c => v c - mean n v) with (fun c => v c + (- mean n v)).
    2:{ reflexivity. }
    rewrite sigma_plus, sigma_const. unfold mean. field. exact HN.
Qed.

Lemma variance_normalize n (v : nat -> R) :
  (0 < n)%nat ->
  variance n (normalize n v) = variance n v / (variance n v + LayerNorm_eps).
Proof.
  intros Hn. unfold variance at 1. rewrite (@mean_normalize n v Hn).
  pose proof (variance_nonneg n v) as Hv. pose proof eps_pos as He.
  unfold normalize.
  remember (variance n v + LayerNorm_eps) as s eqn:Es.
  assert (Hs : sqrt s * sqrt s = s) by (apply sqrt_sqrt; lra).
  assert (Hs0 : sqrt s <> 0) by (intros E; rewrite E in Hs; lra).
  rewrite (@sigma_ext n _
             (fun c => (v c - mean n v) * (v c - mean n v) * / s)).
  - rewrite sigma_scale. unfold variance, Rdiv. ring.
  - intros c _. rewrite <- Hs at 3. field. exact Hs0.
Qed.

Lemma variance_normalize_below_one n (v : nat -> R) :
  (0 < n)%nat -> variance n (normalize n v) < 1.
Proof.
  intros Hn. rewrite (@variance_normalize n v Hn).
  pose proof (variance_nonneg n v) as Hv. pose proof eps_pos as He.
  apply (Rmult_lt_reg_r (variance n v + LayerNorm_eps)); [lra|].
  unfold Rdiv. rewrite Rmult_assoc, Rinv_l by lra. lra.
Qed.

End LayerNormFacts.

Section TransformerBlockFacts.

Lemma add_same_shape (a b : Tensor3) :
  shape3 a = shape3 b ->
  exists y,
    add a b = Ok y /\
    shape3 y = shape3 a /\
    forall i j k, (i < size0 a)%nat -> (j < size1 a)%nat -> (k < size2 a)%nat ->
      at3 y i j k = at3 a i j k + at3 b i j k.
Proof.
  unfold shape3. intros H. injection H as H0 H1 H2.
  unfold add. rewrite <- H0, <- H1, <- H2, !broadcast_dim_same. cbn [bind].
  eexists. split; [reflexivity|]. split; [reflexivity|].
  intros i j k Hi Hj Hk. cbn [at3].
  rewrite (bidx_lt Hi), (bidx_lt Hj), (bidx_lt Hk). reflexivity.
Qed.

Lemma Linear_forward_ok (l : Linear) (x : Tensor3) :
  size2 x = in_features l ->
  Linear_forward l x
  = Ok {| size0 := size0 x; size1 := size1 x; size2 := out_features l;
          at3 := fun n p j => BlockSpec.linear l (at3 x n p) j |}.
Proof.
  intros H. unfold Linear_forward. rewrite H, Nat.eqb_refl. reflexivity.
Qed.

Lemma LayerNorm_forward_ok (ln : LayerNorm) (x : Tensor3) :
  size2 x = normalized_shape ln ->
  LayerNorm_forward ln x
  = Ok {| size0 := size0 x; size1 := size1 x; size2 := size2 x;
          at3 := fun n p c =>
            BlockSpec.layer_norm ln (size2 x) (at3 x n p) c |}.
Proof.
  intros H. unfold LayerNorm_forward. rewrite H, Nat.eqb_refl. reflexivity.
Qed.

Lemma layer_norm_ext ln n (v w : nat -> R) c :
  (forall c, (c < n)%nat -> v c = w c) -> (c < n)%nat ->
  BlockSpec.layer_norm ln n v c = BlockSpec.layer_norm ln n w c.
Proof.
  intros H Hc. unfold BlockSpec.layer_norm.
  rewrite (@normalize_ext n v w c H Hc). reflexivity.
Qed.

Lemma linear_ext (l : Linear) (v w : nat -> R) j :
  (forall i, (i < in_features l)%nat -> v i = w i) ->
  BlockSpec.linear l v j = BlockSpec.linear l w j.
Proof.
  intros H. unfold BlockSpec.linear. f_equal.
  apply sigma_ext. intros i Hi. rewrite (H i Hi). reflexivity.
Qed.

Lemma block_forward (self : TransformerBlock.t) (D H : nat) (x : Tensor3) :
  TransformerBlock.constructed D H self ->
  size2 x = D ->
  exists y,
    TransformerBlock.forward self x = Ok y /\
    same3 y (BlockSpec.block self x).
Proof.
  intros [Hatt [[Hi0 Ho0] [[Hi2 Ho2] [Hn1 Hn2]]]] HD.
  unfold TransformerBlock.forward.
  rewrite (@forward_unfold (TransformerBlock.attention self) D x Hatt HD).
  cbn [bind].
  destruct (@add_same_shape x
              (AttentionSpec.attention (TransformerBlock.attention self) x))
    as [s1 [Es1 [Hs1 Hat1]]]; [reflexivity|].
  rewrite Es1. cbn [bind].
  injection Hs1 as Hs10 Hs11 Hs12.
  rewrite LayerNorm_forward_ok by congruence. cbn [bind].
  unfold TransformerBlock.feed_forward.
  rewrite Linear_forward_ok by (cbn [size2]; congruence). cbn [bind].
  rewrite Linear_forward_ok by (cbn [size2 relu]; congruence).
  cbn [bind].
  match goal with
  | |- context [add ?a ?b] =>
      destruct (@add_same_shape a b) as [s2 [Es2 [Hs2 Hat2]]];
        [unfold shape3; cbn [size0 size1 size2 relu]; congruence|]
  end.
  rewrite Es2. cbn [bind].
  injection Hs2 as Hs20 Hs21 Hs22. cbn [size0 size1 size2] in *.
  rewrite LayerNorm_forward_ok by congruence. cbn [bind].
  eexists. split; [reflexivity|].
  unfold same3, shape3, BlockSpec.block. cbn [size0 size1 size2 at3].
  split; [congruence|].
  intros n p c Hn Hp Hc.
  rewrite Hs20, Hs10 in Hn. rewrite Hs21, Hs11 in Hp.
  rewrite Hs22, Hs12 in Hc. rewrite Hs22, Hs12.
  assert (Hx1 : forall c', (c' < size2 x)%nat ->
            BlockSpec.layer_norm (TransformerBlock.norm1 self) (size2 s1)
              (at3 s1 n p) c'
            = BlockSpec.x1 self x n p c').
  { intros c' Hc'. unfold BlockSpec.x1. rewrite Hs12.
    apply layer_norm_ext; [|exact Hc'].
    intros c'' Hc''. apply Hat1; assumption. }
  unfold BlockSpec.x2. apply layer_norm_ext; [|exact Hc].
  intros c' Hc'.
  rewrite Hat2 by (cbn [size0 size1 size2]; congruence || lia).
  cbn [at3 relu]. rewrite (Hx1 c' Hc'). f_equal.
  unfold BlockSpec.feed_forward.
  apply linear_ext. intros j _. f_equal.
  apply linear_ext. intros i Hi. apply Hx1. congruence.
Qed.

End TransformerBlockFacts.

(** C4, as amended.  [TransformerBlock.forward] returns
    x2 = LayerNorm(x1 + forwarded) with x1 = LayerNorm(x + SelfAttention(x))
    and forwarded = Linear(D to H), rectified linear, Linear(H to D) applied
    to x1.  Each LayerNorm works on one token across its channels: it
    subtracts the mean and divides by sqrt(variance + eps), eps = 1e-5, so
    the normalised token has mean zero and variance var / (var + eps),
    which is below one; then it applies the per-channel scale and shift. *)
Theorem TransformerBlock_forward_composition :
  forall (self : TransformerBlock.t) (D H : nat) (x : Tensor3),
    TransformerBlock.constructed D H self ->
    size2 x = D ->
    (0 < D)%nat ->
    (exists y,
        TransformerBlock.forward self x = Ok y /\
        same3 y (BlockSpec.block self x)) /\
    (forall v : nat -> R,
        mean D (normalize D v) = 0 /\
        variance D (normalize D v)
          = variance D v / (variance D v + LayerNorm_eps) /\
        variance D (normalize D v) < 1).
Proof.
  intros self D H x Hc Hx HD. split.
  - eapply block_forward; eassumption.
  - intros v. split; [|split].
    + apply mean_normalize, HD.
    + apply variance_normalize, HD.
    + apply variance_normalize_below_one, HD.
Qed.

Lemma TransformerBlock_forward_composition_witness :
  (exists y,
      TransformerBlock.forward small_block (two_positions 0 2) = Ok y /\
      same3 y (BlockSpec.block small_block (two_positions 0 2))) /\
  (forall v : nat -> R,
      mean 1 (normalize 1 v) = 0 /\
      variance 1 (normalize 1 v)
        = variance 1 v / (variance 1 v + LayerNorm_eps) /\
      variance 1 (normalize 1 v) < 1).
Proof.
  apply (@TransformerBlock_forward_composition
           small_block 1%nat 3%nat (two_positions 0 2)).
  - constructed_by_computation.
  - reflexivity.
  - lia.
Defined.

(** With scale 1 and shift 0 the output of a block is the normalised token
    itself; its variance is below 1. *)
Lemma small_block_output_variance :
  exists y,
    TransformerBlock.forward small_block (two_positions 0 2) = Ok y /\
    variance 1 (at3 y 0 0) < 1.
Proof.
  destruct (@block_forward small_block 1%nat 3%nat (two_positions 0 2))
    as [y [Hy [Hsh Hat]]]; [constructed_by_computation | reflexivity |].
  exists y. split; [exact Hy|].
  apply shape3_eq in Hsh. destruct Hsh as [H0 [H1 H2]].
  cbn [BlockSpec.block size0 size1 size2 two_positions] in H0, H1, H2.
  set (v := fun c' =>
         BlockSpec.x1 small_block (two_positions 0 2) 0 0 c'
         + BlockSpec.feed_forward small_block
             (BlockSpec.x1 small_block (two_positions 0 2) 0 0) c').
  rewrite (@variance_ext 1 (at3 y 0 0) (normalize 1 v)).
  - apply variance_normalize_below_one. lia.
  - intros c Hc. rewrite Hat by lia.
    unfold BlockSpec.block, BlockSpec.x2, BlockSpec.layer_norm.
    cbn [at3 small_block TransformerBlock.norm2 plain_norm ln_weight
         ln_bias two_positions size2]. fold v. ring.
Qed.

(** The LayerNorm of a token whose channels are all equal is the zero
    vector (here with scale 1 and shift 0). *)
Lemma flat_token_is_normalised_to_zero :
  exists y,
    LayerNorm_forward (plain_norm 2) flat_token = Ok y /\
    (forall c, at3 y 0 0 c = 0) /\
    variance 2 (at3 y 0 0) = 0.
Proof.
  rewrite LayerNorm_forward_ok by reflexivity.
  eexists. split; [reflexivity|].
  assert (Hm : mean 2 (fun _ => 1) = 1).
  { unfold mean, sigma. simpl. field. }
  assert (Hz : forall c,
             BlockSpec.layer_norm (plain_norm 2) 2 (fun _ => 1) c = 0).
  { intros c. unfold BlockSpec.layer_norm, normalize. rewrite Hm. simpl.
    unfold Rdiv. ring. }
  cbn [at3 flat_token size2]. split; [exact Hz|].
  rewrite (@variance_ext 2 _ (fun _ => 0)) by (intros; apply Hz).
  unfold variance, mean, sigma. simpl. field.
Qed.

(** C4 as stated fails: the normalised token does not have unit variance.
    The output of the small block (scale 1, shift 0, so the output is the
    normalised token) has variance different from 1, and a token with
    equal channels is normalised to variance 0. *)
Lemma TransformerBlock_norm_is_not_unit_variance :
  (exists y,
      TransformerBlock.forward small_block (two_positions 0 2) = Ok y /\
      variance 1 (at3 y 0 0) <> 1) /\
  (exists y,
      LayerNorm_forward (plain_norm 2) flat_token = Ok y /\
      variance 2 (at3 y 0 0) = 0 /\
      variance 2 (at3 y 0 0) <> 1).
Proof.
  split.
  - destruct small_block_output_variance as [y [Hy Hv]].
    exists y. split; [exact Hy | lra].
  - destruct flat_token_is_normalised_to_zero as [y [Hy [_ Hv]]].
    exists y. split; [exact Hy|]. split; [exact Hv | rewrite Hv; lra].
Qed.

(* ================================================================== *)
(** * Training and prediction *)

Section TrainingFacts.

Variable OptState : Type.
Variable autograd :
  (SimpleLLM.Parameters -> result R) ->
  SimpleLLM.Parameters -> SimpleLLM.Parameters.
Variable accumulate :
  SimpleLLM.Parameters -> SimpleLLM.Parameters -> SimpleLLM.Parameters.
Variable adam :
  OptState -> SimpleLLM.Parameters -> SimpleLLM.Parameters ->
  OptState * SimpleLLM.Parameters.

Lemma bind_assoc {A B C} (m : result A) (f : A -> result B)
    (g : B -> result C) :
  bind (bind m f) g = bind m (fun a => bind (f a) g).
Proof. destruct m; reflexivity. Qed.

Lemma for_each_ext_in {A} (l : list A) (f g : A -> Run OptState unit) :
  (forall a st, In a l -> f a st = g a st) ->
  forall st, for_each l f st = for_each l g st.
Proof.
  induction l as [|a l IH]; intros H st; [reflexivity|].
  cbn [for_each]. unfold seq_run.
  rewrite (H a st) by (left; reflexivity).
  destruct (g a st) as [[[]|e] st']; [|reflexivity].
  apply IH. intros b st'' Hb. apply H. right. exact Hb.
Qed.

Lemma for_each_map {A B} (h : A -> B) (l : list A)
    (f : B -> Run OptState unit) :
  forall st, for_each (map h l) f st = for_each l (fun a => f (h a)) st.
Proof.
  induction l as [|a l IH]; intros st; [reflexivity|].
  cbn [for_each map]. unfold seq_run.
  destruct (f (h a) st) as [[[]|e] st']; [apply IH|reflexivity].
Qed.

Lemma list_getitem_nth (l : list Z) (i : nat) :
  (i < length l)%nat -> list_getitem l i = Ok (nth i l 0%Z).
Proof.
  intros H. unfold list_getitem.
  rewrite (nth_error_nth' l 0%Z H). reflexivity.
Qed.

Lemma tensor_row_inv (l : list Z) (t : LongTensor2) :
  tensor_row l = Ok t -> t = long_row l.
Proof.
  unfold tensor_row. destruct l as [|a l]; [discriminate|].
  destruct (forallb is_int64 (a :: l)); [|discriminate].
  intros E. apply Ok_inj in E. symmetry. exact E.
Qed.

Lemma tensor_item_inv (t : Z) (l : list Z) :
  tensor_item t = Ok l -> l = [t].
Proof.
  unfold tensor_item. destruct (is_int64 t); [|discriminate].
  intros E. apply Ok_inj in E. symmetry. exact E.
Qed.

Lemma is_int64_in_range (V : nat) (id : Z) :
  (Z.of_nat V < 2 ^ 63)%Z -> Tokenizer.id_in_range V id -> is_int64 id = true.
Proof.
  unfold Tokenizer.id_in_range, is_int64. intros HV Hid.
  apply andb_true_iff. split; [apply Z.leb_le | apply Z.ltb_lt]; lia.
Qed.

Lemma tensor_row_returns (V : nat) (ids : list Z) :
  (Z.of_nat V < 2 ^ 63)%Z ->
  ids <> [] ->
  Forall (Tokenizer.id_in_range V) ids ->
  tensor_row ids = Ok (long_row ids).
Proof.
  intros HV Hne Hids. unfold tensor_row.
  destruct ids as [|a l]; [congruence|].
  replace (forallb is_int64 (a :: l)) with true; [reflexivity|].
  symmetry. apply forallb_forall. intros id Hin.
  rewrite Forall_forall in Hids.
  apply (@is_int64_in_range V id HV), Hids, Hin.
Qed.

Lemma tensor_item_returns (V : nat) (t : Z) :
  (Z.of_nat V < 2 ^ 63)%Z ->
  Tokenizer.id_in_range V t ->
  tensor_item t = Ok [t].
Proof.
  intros HV Ht. unfold tensor_item.
  rewrite (@is_int64_in_range V t HV Ht). reflexivity.
Qed.

(** The graph recorded through [model], [[:, -1, :]] and [criterion] is
    the loss of the example as a function of the parameters. *)
Lemma tracked_graph (m : SimpleLLM.t) (prefix : list Z) (target : Z) :
  (fun p =>
     i <- (o <- SimpleLLM.forward (SimpleLLM.update_parameters m p)
                                  (long_row prefix) ;;
           select_last o) ;;
     CrossEntropyLoss i [target])
  = example_graph m prefix target.
Proof.
  apply functional_extensionality. intros p.
  unfold example_graph, example_loss. apply bind_assoc.
Qed.

Lemma train_prefix_is_spec (sentence : list Z) (i : nat) (st : State OptState) :
  (i < length sentence)%nat ->
  train_prefix autograd accumulate adam sentence i st
  = spec_train_example autograd adam (firstn i sentence)
                       (nth i sentence 0%Z) st.
Proof.
  intros Hi. unfold train_prefix, spec_train_example, seq_run at 1, lift.
  destruct (tensor_row (firstn i sentence)) as [input|e] eqn:Et;
    cbn [bind]; [|reflexivity].
  apply tensor_row_inv in Et. subst input.
  unfold seq_run at 1. rewrite (list_getitem_nth sentence Hi).
  unfold seq_run at 1.
  destruct (tensor_item (nth i sentence 0%Z)) as [target|e] eqn:Eg;
    [|reflexivity].
  apply tensor_item_inv in Eg. subst target.
  unfold seq_run at 1, zero_grad.
  unfold seq_run at 1, call_model. cbn [model].
  unfold example_loss.
  destruct (SimpleLLM.forward (model st) (long_row (firstn i sentence)))
    as [out|e]; cbn [bind]; [|reflexivity].
  unfold seq_run at 1, last_position, lift. cbn [value graph].
  destruct (select_last out) as [last|e]; cbn [bind]; [|reflexivity].
  unfold seq_run at 1, criterion, lift. cbn [value graph].
  destruct (CrossEntropyLoss last [nth i sentence 0%Z]) as [v|e];
    cbn [bind]; [|reflexivity].
  unfold seq_run at 1, assign_loss. cbn [model grad optimizer loss].
  unfold seq_run at 1, backward. cbn [model grad optimizer loss graph].
  unfold step. cbn [model grad optimizer loss].
  rewrite tracked_graph. reflexivity.
Qed.

Lemma train_sentence_is_spec (sentence : list Z) (st : State OptState) :
  train_sentence autograd accumulate adam sentence st
  = spec_train_sentence autograd adam sentence st.
Proof.
  unfold train_sentence, spec_train_sentence, spec_examples, range.
  rewrite for_each_map. apply for_each_ext_in.
  intros i st' Hi. apply in_seq in Hi. cbn [fst snd].
  apply train_prefix_is_spec. lia.
Qed.

(** ** The frame of every statement *)

Lemma keeps_model_table {A} (m : Run OptState A) :
  keeps_model m -> keeps_table m.
Proof. intros H st. rewrite (H st). reflexivity. Qed.

Lemma keeps_table_seq_run {A B} (m : Run OptState A)
    (k : A -> Run OptState B) :
  keeps_table m -> (forall a, keeps_table (k a)) -> keeps_table (seq_run m k).
Proof.
  intros Hm Hk st. unfold seq_run. specialize (Hm st).
  destruct (m st) as [[a|e] st']; cbn [snd] in *.
  - rewrite (Hk a st'). exact Hm.
  - exact Hm.
Qed.

Lemma keeps_table_for_each {A} (l : list A) (body : A -> Run OptState unit) :
  (forall a, keeps_table (body a)) -> keeps_table (for_each l body).
Proof.
  intros H. induction l as [|a l IH]; [intros st; reflexivity|].
  cbn [for_each]. apply keeps_table_seq_run; [apply H | intros _; exact IH].
Qed.

Lemma keeps_table_if {A} (b : bool) (m1 m2 : Run OptState A) :
  keeps_table m1 -> keeps_table m2 -> keeps_table (if b then m1 else m2).
Proof. destruct b; auto. Qed.

Lemma lift_keeps_model {A} (r : result A) : keeps_model (@lift OptState A r).
Proof. intros st. reflexivity. Qed.

Lemma ret_keeps_model {A} (a : A) : keeps_model (@ret OptState A a).
Proof. intros st. reflexivity. Qed.

Lemma zero_grad_keeps_model : keeps_model (@zero_grad OptState).
Proof. intros st. reflexivity. Qed.

Lemma call_model_keeps_model x : keeps_model (@call_model OptState x).
Proof. intros st. reflexivity. Qed.

Lemma last_position_keeps_model o : keeps_model (@last_position OptState o).
Proof. intros st. reflexivity. Qed.

Lemma criterion_keeps_model i t : keeps_model (@criterion OptState i t).
Proof. intros st. reflexivity. Qed.

Lemma assign_loss_keeps_model l : keeps_model (@assign_loss OptState l).
Proof. intros st. reflexivity. Qed.

Lemma backward_keeps_model l :
  keeps_model (@backward OptState autograd accumulate l).
Proof. intros st. reflexivity. Qed.

Lemma print_loss_keeps_state (st : State OptState) :
  snd (print_loss st) = st.
Proof. unfold print_loss. destruct (loss st); reflexivity. Qed.

Lemma print_loss_keeps_model : keeps_model (@print_loss OptState).
Proof. intros st. rewrite print_loss_keeps_state. reflexivity. Qed.

(** The one statement that writes to the model. *)
Lemma step_keeps_table : keeps_table (@step OptState adam).
Proof.
  intros st. unfold step. destruct (grad st) as [g|]; [|reflexivity].
  destruct (adam (optimizer st) (SimpleLLM.parameters (model st)) g).
  reflexivity.
Qed.

Create HintDb frame.

#[local] Hint Resolve keeps_model_table keeps_table_seq_run
  keeps_table_for_each keeps_table_if lift_keeps_model ret_keeps_model
  zero_grad_keeps_model call_model_keeps_model last_position_keeps_model
  criterion_keeps_model assign_loss_keeps_model backward_keeps_model
  print_loss_keeps_model step_keeps_table : frame.

Lemma train_prefix_keeps_table sentence i :
  keeps_table (train_prefix autograd accumulate adam sentence i).
Proof. unfold train_prefix. auto 30 with frame. Qed.

#[local] Hint Resolve train_prefix_keeps_table : frame.

Lemma train_keeps_table epochs data :
  keeps_table (train autograd accumulate adam epochs data).
Proof. unfold train, train_epoch, train_sentence. auto 10 with frame. Qed.

Lemma cell7_keeps_table : keeps_table (cell7 autograd accumulate adam).
Proof.
  unfold cell7. apply keeps_table_seq_run; [auto with frame|].
  intros tokenized_data. apply train_keeps_table.
Qed.

End TrainingFacts.

Section ForwardFacts.

Variable OptState : Type.

Lemma sequential_shape (D H : nat) (blocks : list TransformerBlock.t) :
  Forall (TransformerBlock.constructed D H) blocks ->
  forall x, size2 x = D ->
  exists y, SimpleLLM.sequential blocks x = Ok y /\ shape3 y = shape3 x.
Proof.
  induction 1 as [|b rest Hb _ IH]; intros x Hx.
  - exists x. split; reflexivity.
  - cbn [SimpleLLM.sequential].
    destruct (@block_forward b D H x Hb Hx) as [y [Hy [Hsh _]]].
    rewrite Hy. cbn [bind].
    assert (Hy2 : size2 y = D).
    { unfold shape3, BlockSpec.block in Hsh. cbn [size0 size1 size2] in Hsh.
      congruence. }
    destruct (IH y Hy2) as [z [Hz Hzs]].
    exists z. split; [exact Hz|]. rewrite Hzs. exact Hsh.
Qed.

Lemma SimpleLLM_forward_shape (V D H N : nat) (m : SimpleLLM.t)
    (ids : list Z) :
  SimpleLLM.constructed V D H N m ->
  Forall (Tokenizer.id_in_range V) ids ->
  (length ids <= PositionalEncoding.default_max_seq_len)%nat ->
  exists out,
    SimpleLLM.forward m (long_row ids) = Ok out /\
    shape3 out = (1%nat, length ids, V).
Proof.
  intros [[Hev [Hed _]] [Hpe [_ [Hblocks [Hoi Hoo]]]]] Hids Hlen.
  unfold SimpleLLM.forward, Embedding.forward, nn_Embedding_forward.
  rewrite Hev, (long_row_valid Hids). cbn [bind].
  destruct (@init_table D PositionalEncoding.default_max_seq_len
              (SimpleLLM.positional_encoding m) Hpe)
    as [_ [_ [Hshape _]]].
  injection Hshape as Hs0 Hs1 Hs2.
  match goal with
  | |- context [PositionalEncoding.forward ?p ?x] =>
      destruct (@forward_within p x) as [y [Hy [Hysh _]]]
  end.
  - exact Hs1.
  - rewrite Hs2. cbn [size2 transpose01]. symmetry. exact Hed.
  - unfold PositionalEncoding.max_seq_len. rewrite Hs0.
    cbn [size0 transpose01 size1 long_row lcols]. exact Hlen.
  - rewrite Hy. cbn [bind].
    unfold shape3 in Hysh.
    cbn [size0 size1 size2 transpose01 long_row lrows lcols] in Hysh.
    injection Hysh as Hy0 Hy1 Hy2.
    destruct (@sequential_shape D H (SimpleLLM.transformer_blocks m) Hblocks
                (transpose01 y)) as [z [Hz Hzs]].
    + cbn [size2 transpose01]. congruence.
    + rewrite Hz. cbn [bind].
      unfold shape3 in Hzs. cbn [size0 size1 size2 transpose01] in Hzs.
      injection Hzs as Hz0 Hz1 Hz2.
      rewrite Linear_forward_ok by congruence. cbn [bind].
      eexists. split; [reflexivity|].
      unfold shape3. cbn [size0 size1 size2]. congruence.
Qed.

(** [argmax_from] keeps the first maximal index seen so far. *)
Lemma argmax_from_first_max (f : nat -> R) (count : nat) :
  forall best next,
    (best < next)%nat ->
    (forall j, (j < next)%nat -> f j <= f best) ->
    (forall j, (j < best)%nat -> f j < f best) ->
    let r := argmax_from f best next count in
    (r < next + count)%nat /\
    (forall j, (j < next + count)%nat -> f j <= f r) /\
    (forall j, (j < r)%nat -> f j < f r).
Proof.
  induction count as [|count IH]; intros best next Hb Hmax Hfirst; cbn zeta.
  - cbn [argmax_from]. rewrite Nat.add_0_r. auto.
  - cbn [argmax_from].
    replace (next + S count)%nat with (S next + count)%nat by lia.
    destruct (Rlt_dec (f best) (f next)) as [Hlt|Hge].
    + apply IH.
      * lia.
      * intros j Hj. destruct (Nat.eq_dec j next) as [->|Hne]; [lra|].
        assert (f j <= f best) by (apply Hmax; lia). lra.
      * intros j Hj. assert (f j <= f best) by (apply Hmax; lia). lra.
    + apply IH.
      * lia.
      * intros j Hj. destruct (Nat.eq_dec j next) as [->|Hne]; [lra|].
        apply Hmax. lia.
      * exact Hfirst.
Qed.

Lemma argmax_single_row (t : Tensor2) :
  rows t = 1%nat -> (0 < cols t)%nat ->
  exists r,
    argmax t = Ok r /\ (r < cols t)%nat /\
    (forall j, (j < cols t)%nat -> at2 t 0 j <= at2 t 0 r) /\
    (forall j, (j < r)%nat -> at2 t 0 j < at2 t 0 r).
Proof.
  intros Hr Hc. unfold argmax. rewrite Hr, Nat.mul_1_l.
  destruct (cols t) as [|n] eqn:En; [lia|].
  destruct (@argmax_from_first_max (flat2 t) n 0%nat 1%nat) as [H1 [H2 H3]].
  - lia.
  - intros j Hj. replace j with 0%nat by lia. lra.
  - intros j Hj. lia.
  - assert (Hflat : forall j, (j < S n)%nat -> flat2 t j = at2 t 0 j).
    { intros j Hj. unfold flat2. rewrite En.
      rewrite Nat.div_small, Nat.mod_small by lia. reflexivity. }
    eexists. split; [reflexivity|]. split; [lia|]. split.
    + intros j Hj. rewrite <- !Hflat by lia. apply H2. lia.
    + intros j Hj. rewrite <- !Hflat by lia. apply H3. exact Hj.
Qed.

Lemma predict_token_keeps_state ids (st : State OptState) :
  snd (predict_token ids st) = st.
Proof.
  unfold predict_token, seq_run, call_model, last_position, lift.
  destruct (tensor_row ids) as [input|e]; [|reflexivity].
  destruct (SimpleLLM.forward (model st) input); cbn [bind];
    [|reflexivity].
  cbn [value]. destruct (select_last a); reflexivity.
Qed.

Lemma predict_keeps_state text vocab (st : State OptState) :
  snd (predict text vocab st) = st.
Proof.
  unfold predict, seq_run at 1, lift.
  destruct (Tokenizer.tokenize text vocab) as [ids|e]; [|reflexivity].
  unfold seq_run. pose proof (predict_token_keeps_state ids st) as H.
  destruct (predict_token ids st) as [[t|e] st']; cbn [snd] in H; subst st';
    reflexivity.
Qed.

End ForwardFacts.

Section TrainingReturns.

Variable OptState : Type.
Variable autograd :
  (SimpleLLM.Parameters -> result R) ->
  SimpleLLM.Parameters -> SimpleLLM.Parameters.
Variable accumulate :
  SimpleLLM.Parameters -> SimpleLLM.Parameters -> SimpleLLM.Parameters.
Variable adam :
  OptState -> SimpleLLM.Parameters -> SimpleLLM.Parameters ->
  OptState * SimpleLLM.Parameters.

Variables V D H N : nat.

(** The optimizer changes the values of the parameters, not their
    shapes. *)
Hypothesis adam_keeps_shapes :
  forall m o g,
    SimpleLLM.constructed V D H N m ->
    SimpleLLM.constructed V D H N
      (SimpleLLM.update_parameters m
         (snd (adam o (SimpleLLM.parameters m) g))).

Lemma example_loss_returns (m : SimpleLLM.t) (ids : list Z) (t : Z) :
  SimpleLLM.constructed V D H N m ->
  ids <> [] ->
  Forall (Tokenizer.id_in_range V) ids ->
  (length ids <= PositionalEncoding.default_max_seq_len)%nat ->
  Tokenizer.id_in_range V t ->
  exists v, example_loss m (long_row ids) [t] = Ok v.
Proof.
  intros Hc Hne Hids Hlen Ht.
  destruct (@SimpleLLM_forward_shape V D H N m ids Hc Hids Hlen)
    as [out [Hf Hsh]].
  apply shape3_eq in Hsh. destruct Hsh as [Hs0 [Hs1 Hs2]].
  unfold example_loss. rewrite Hf. cbn [bind].
  unfold select_last. rewrite Hs1.
  destruct (length ids) as [|l] eqn:El;
    [destruct ids; [congruence | discriminate]|].
  cbn [bind]. unfold CrossEntropyLoss, valid_target. cbn [rows cols length].
  rewrite Hs0, Hs2. cbn [Nat.eqb negb forallb].
  rewrite (proj2 (valid_index_spec V t) Ht). cbn [andb orb negb].
  eexists. reflexivity.
Qed.

Lemma spec_train_example_returns (prefix : list Z) (t : Z)
    (st : State OptState) :
  SimpleLLM.constructed V D H N (model st) ->
  prefix <> [] ->
  Forall (Tokenizer.id_in_range V) prefix ->
  (length prefix <= PositionalEncoding.default_max_seq_len)%nat ->
  Tokenizer.id_in_range V t ->
  exists st',
    spec_train_example autograd adam prefix t st = (Ok tt, st') /\
    SimpleLLM.constructed V D H N (model st') /\
    optimizer st'
    = fst (adam (optimizer st) (SimpleLLM.parameters (model st))
             (autograd (example_graph (model st) prefix t)
                       (SimpleLLM.parameters (model st)))).
Proof.
  intros Hc Hne Hids Hlen Ht.
  destruct (@example_loss_returns (model st) prefix t Hc Hne Hids Hlen Ht)
    as [v Hv].
  assert (HV : (Z.of_nat V < 2 ^ 63)%Z) by apply Hc.
  unfold spec_train_example.
  rewrite (@tensor_row_returns V prefix HV Hne Hids),
    (@tensor_item_returns V t HV Ht). cbn [bind]. rewrite Hv.
  pose proof (@adam_keeps_shapes (model st) (optimizer st)
                (autograd (example_graph (model st) prefix t)
                          (SimpleLLM.parameters (model st))) Hc) as Hk.
  destruct (adam (optimizer st) (SimpleLLM.parameters (model st))
              (autograd (example_graph (model st) prefix t)
                        (SimpleLLM.parameters (model st)))) as [o p].
  eexists. split; [reflexivity|]. split; [exact Hk | reflexivity].
Qed.

(** The examples of a sentence stay inside the model's domain. *)
Lemma train_prefix_returns (sentence : list Z) (i : nat)
    (st : State OptState) :
  SimpleLLM.constructed V D H N (model st) ->
  Forall (Tokenizer.id_in_range V) sentence ->
  (length sentence <= S PositionalEncoding.default_max_seq_len)%nat ->
  (1 <= i < length sentence)%nat ->
  exists st',
    train_prefix autograd accumulate adam sentence i st = (Ok tt, st') /\
    SimpleLLM.constructed V D H N (model st') /\
    optimizer st'
    = fst (adam (optimizer st) (SimpleLLM.parameters (model st))
             (autograd
                (example_graph (model st) (firstn i sentence)
                               (nth i sentence 0%Z))
                (SimpleLLM.parameters (model st)))).
Proof.
  intros Hc Hids Hlen Hi.
  rewrite train_prefix_is_spec by lia.
  apply spec_train_example_returns.
  - exact Hc.
  - intros E. apply (f_equal (@length Z)) in E.
    rewrite length_firstn in E. cbn [length] in E. lia.
  - apply Forall_forall. intros id Hin.
    rewrite Forall_forall in Hids. apply Hids.
    rewrite <- (firstn_skipn i sentence). apply in_or_app. left. exact Hin.
  - rewrite length_firstn. lia.
  - rewrite Forall_forall in Hids. apply Hids, nth_In. lia.
Qed.

Lemma for_each_returns {A} (Inv : State OptState -> Prop) (l : list A)
    (body : A -> Run OptState unit) :
  (forall a st, In a l -> Inv st ->
     exists st', body a st = (Ok tt, st') /\ Inv st') ->
  forall st, Inv st ->
    exists st', for_each l body st = (Ok tt, st') /\ Inv st'.
Proof.
  induction l as [|a l IH]; intros Hb st Hst.
  - exists st. split; [reflexivity | exact Hst].
  - cbn [for_each]. unfold seq_run.
    destruct (Hb a st (or_introl eq_refl) Hst) as [st1 [E1 H1]].
    rewrite E1. apply IH; [|exact H1].
    intros b st2 Hin. apply Hb. right. exact Hin.
Qed.

Lemma train_sentence_returns (sentence : list Z) (st : State OptState) :
  SimpleLLM.constructed V D H N (model st) ->
  Forall (Tokenizer.id_in_range V) sentence ->
  (length sentence <= S PositionalEncoding.default_max_seq_len)%nat ->
  exists st',
    train_sentence autograd accumulate adam sentence st = (Ok tt, st') /\
    SimpleLLM.constructed V D H N (model st').
Proof.
  intros Hc Hids Hlen. unfold train_sentence, range.
  apply (@for_each_returns nat
           (fun s => SimpleLLM.constructed V D H N (model s)));
    [|exact Hc].
  intros i s Hi Hs. apply in_seq in Hi.
  destruct (@train_prefix_returns sentence i s Hs Hids Hlen)
    as [s' [E [Hs' _]]]; [lia|].
  exists s'. split; assumption.
Qed.

End TrainingReturns.

(* ================================================================== *)
(** * The trainer and the predictor *)

Section TrainerAndPredictor.

Variable OptState : Type.
Variable autograd :
  (SimpleLLM.Parameters -> result R) ->
  SimpleLLM.Parameters -> SimpleLLM.Parameters.
Variable accumulate :
  SimpleLLM.Parameters -> SimpleLLM.Parameters -> SimpleLLM.Parameters.
Variable adam :
  OptState -> SimpleLLM.Parameters -> SimpleLLM.Parameters ->
  OptState * SimpleLLM.Parameters.

(** C2. For every sentence S the trainer takes the prefix lengths
    i = 1 .. len(S)-1 in order; for each it runs the model on S[0:i], takes
    the cross-entropy between the logits of the last position and the
    single target S[i], and applies one optimizer update with the gradient
    of that loss alone (the gradients are reset before each example), within
    a sentence and from one sentence to the next.  A sentence shorter than
    2 gives no example and changes nothing.  On a constructed model, with
    valid ids and prefixes that fit the positional table, every example
    returns. *)
Theorem train_sentence_one_step_per_prefix :
  forall (sentence : list Z) (st : State OptState),
    train_sentence autograd accumulate adam sentence st
      = spec_train_sentence autograd adam sentence st /\
    length (spec_examples sentence) = (length sentence - 1)%nat /\
    (forall k, (k < length sentence - 1)%nat ->
       nth_error (spec_examples sentence) k
       = Some (firstn (k + 1) sentence, nth (k + 1) sentence 0%Z)) /\
    ((length sentence < 2)%nat ->
     train_sentence autograd accumulate adam sentence st = (Ok tt, st)) /\
    (forall tokenized_data s,
       for_each tokenized_data (train_sentence autograd accumulate adam) s
       = for_each tokenized_data (spec_train_sentence autograd adam) s) /\
    (forall V D H N,
       (forall m o g,
          SimpleLLM.constructed V D H N m ->
          SimpleLLM.constructed V D H N
            (SimpleLLM.update_parameters m
               (snd (adam o (SimpleLLM.parameters m) g)))) ->
       SimpleLLM.constructed V D H N (model st) ->
       Forall (Tokenizer.id_in_range V) sentence ->
       (length sentence <= S PositionalEncoding.default_max_seq_len)%nat ->
       exists st',
         train_sentence autograd accumulate adam sentence st = (Ok tt, st') /\
         SimpleLLM.constructed V D H N (model st')).
Proof.
  intros sentence st. repeat apply conj.
  - apply train_sentence_is_spec.
  - unfold spec_examples. rewrite length_map, length_seq. reflexivity.
  - intros k Hk. unfold spec_examples.
    rewrite nth_error_map, nth_error_seq.
    replace (k <? length sentence - 1)%nat with true
      by (symmetry; apply Nat.ltb_lt; exact Hk).
    cbn [option_map]. rewrite (Nat.add_comm 1 k). reflexivity.
  - intros Hlen. unfold train_sentence, range.
    replace (length sentence - 1)%nat with 0%nat by lia. reflexivity.
  - intros tokenized_data s. apply for_each_ext_in.
    intros S' s' _. apply train_sentence_is_spec.
  - intros V D H N Hadam Hc Hids Hlen.
    apply (@train_sentence_returns OptState autograd accumulate adam
             V D H N Hadam sentence st Hc Hids Hlen).
Qed.

(** C8. The positional table is a buffer, not a parameter: writing new
    parameter values keeps it; every statement of the training loop other
    than the optimizer step leaves the whole model untouched; the optimizer
    step replaces the parameters by the optimizer's output and nothing
    else; hence the table after any number of epochs over any data, and
    after the run of cell 7, is the table that was built at construction. *)
Theorem positional_table_never_modified :
  forall (epochs : nat) (tokenized_data : list (list Z))
         (st : State OptState),
    SimpleLLM.positional_encoding
      (model (snd (train autograd accumulate adam epochs tokenized_data st)))
    = SimpleLLM.positional_encoding (model st) /\
    SimpleLLM.positional_encoding
      (model (snd (cell7 autograd accumulate adam st)))
    = SimpleLLM.positional_encoding (model st) /\
    (forall m p,
        SimpleLLM.positional_encoding (SimpleLLM.update_parameters m p)
        = SimpleLLM.positional_encoding m) /\
    (forall s : State OptState, model (snd (zero_grad s)) = model s) /\
    (forall x (s : State OptState), snd (call_model x s) = s) /\
    (forall o (s : State OptState), snd (last_position o s) = s) /\
    (forall i t (s : State OptState), snd (criterion i t s) = s) /\
    (forall l (s : State OptState), model (snd (assign_loss l s)) = model s) /\
    (forall l (s : State OptState),
        model (snd (backward autograd accumulate l s)) = model s) /\
    (forall s : State OptState, snd (print_loss s) = s) /\
    (forall s : State OptState,
        SimpleLLM.positional_encoding (model (snd (step adam s)))
        = SimpleLLM.positional_encoding (model s)) /\
    (forall (s : State OptState) g,
        grad s = Some g ->
        model (snd (step adam s))
        = SimpleLLM.update_parameters (model s)
            (snd (adam (optimizer s) (SimpleLLM.parameters (model s)) g))).
Proof.
  intros epochs tokenized_data st.
  split; [apply train_keeps_table|].
  split; [apply cell7_keeps_table|].
  split; [reflexivity|].
  split; [apply zero_grad_keeps_model|].
  split; [reflexivity|].
  split; [reflexivity|].
  split; [reflexivity|].
  split; [apply assign_loss_keeps_model|].
  split; [apply backward_keeps_model|].
  split; [apply print_loss_keeps_state|].
  split; [apply step_keeps_table|].
  intros s g Hg. unfold step. rewrite Hg.
  destruct (adam (optimizer s) (SimpleLLM.parameters (model s)) g).
  reflexivity.
Qed.

(** C6. For a non-empty prefix of valid token ids within the positional
    table, the predictor runs the model, looks at the logits of the last
    position only, and returns the id with the largest logit, the lowest
    such id on ties; it changes nothing, so predicting again gives the
    same token and the same word. *)
Theorem predict_token_is_first_argmax :
  forall (V D H N : nat) (ids : list Z) (st : State OptState),
    SimpleLLM.constructed V D H N (model st) ->
    ids <> [] ->
    Forall (Tokenizer.id_in_range V) ids ->
    (length ids <= PositionalEncoding.default_max_seq_len)%nat ->
    exists logits t,
      SimpleLLM.forward (model st) (long_row ids) = Ok logits /\
      shape3 logits = (1%nat, length ids, V) /\
      predict_token ids st = (Ok t, st) /\
      (t < V)%nat /\
      (forall j, (j < V)%nat ->
         at3 logits 0 (length ids - 1) j <= at3 logits 0 (length ids - 1) t) /\
      (forall j, (j < t)%nat ->
         at3 logits 0 (length ids - 1) j < at3 logits 0 (length ids - 1) t) /\
      predict_token ids (snd (predict_token ids st)) = predict_token ids st /\
      (forall text vocab,
         Tokenizer.tokenize text vocab = Ok ids ->
         predict text vocab st = (word_of vocab t, st)) /\
      forall text vocab,
        predict text vocab (snd (predict text vocab st))
        = predict text vocab st.
Proof.
  intros V D H N ids st Hc Hne Hids Hlen.
  destruct (@SimpleLLM_forward_shape V D H N (model st) ids Hc Hids Hlen)
    as [logits [Hf Hsh]].
  injection Hsh as Hs0 Hs1 Hs2.
  assert (HV : (0 < V)%nat).
  { destruct ids as [|i ids']; [congruence|].
    inversion Hids as [|? ? Hi _]. unfold Tokenizer.id_in_range in Hi. lia. }
  assert (HL : (0 < length ids)%nat)
    by (destruct ids; [congruence | cbn; lia]).
  assert (Hlast : select_last logits
                  = Ok {| rows := size0 logits; cols := size2 logits;
                          at2 := fun n c =>
                            at3 logits n (length ids - 1) c |}).
  { unfold select_last. rewrite Hs1.
    destruct (length ids) as [|l]; [lia|].
    replace (S l - 1)%nat with l by lia. reflexivity. }
  match type of Hlast with
  | _ = Ok ?last =>
      destruct (@argmax_single_row last) as [t [Ht [Htlt [Hmax Hfirst]]]];
        [exact Hs0 | cbn [cols]; lia |]
  end.
  cbn [cols at2] in *.
  exists logits, t.
  split; [exact Hf|]. split; [unfold shape3; congruence|].
  assert (Hp : predict_token ids st = (Ok t, st)).
  { unfold predict_token, seq_run, call_model, last_position, lift.
    rewrite (@tensor_row_returns V ids (proj2 (proj2 (proj1 Hc))) Hne Hids).
    rewrite Hf. cbn [bind value]. rewrite Hlast. cbn [bind value].
    rewrite Ht. reflexivity. }
  split; [exact Hp|]. split; [lia|].
  split; [intros j Hj; apply Hmax; lia|].
  split; [exact Hfirst|].
  split; [rewrite predict_token_keeps_state; reflexivity|].
  split.
  - intros text vocab Htok. unfold predict, seq_run at 1, lift.
    rewrite Htok. unfold seq_run. rewrite Hp. reflexivity.
  - intros text vocab. rewrite predict_keeps_state. reflexivity.
Qed.

End TrainerAndPredictor.

(** The examples of the first sentence of cell 7. *)
Example spec_examples_first_sentence :
  spec_examples [0; 1; 2; 3; 4]%Z
  = [ ([0], 1); ([0; 1], 2); ([0; 1; 2], 3); ([0; 1; 2; 3], 4) ]%Z.
Proof. reflexivity. Qed.

Example tokenized_data_cell7 :
  mapM (fun sentence => Tokenizer.tokenize sentence vocab) data
  = Ok [ [0; 1; 2; 3; 4]; [2; 3; 4; 0; 1] ]%Z.
Proof. reflexivity. Qed.


Lemma tiny_model_constructed :
  SimpleLLM.constructed 6 2 3 1 tiny_model.
Proof. constructed_by_computation. Qed.

Lemma predict_token_is_first_argmax_witness :
  exists logits t,
    SimpleLLM.forward (model tiny_state) (long_row [0%Z; 1%Z; 2%Z])
      = Ok logits /\
    shape3 logits = (1%nat, 3%nat, 6%nat) /\
    predict_token [0%Z; 1%Z; 2%Z] tiny_state = (Ok t, tiny_state) /\
    (t < 6)%nat /\
    (forall j, (j < 6)%nat -> at3 logits 0 2 j <= at3 logits 0 2 t) /\
    (forall j, (j < t)%nat -> at3 logits 0 2 j < at3 logits 0 2 t) /\
    predict_token [0%Z; 1%Z; 2%Z]
      (snd (predict_token [0%Z; 1%Z; 2%Z] tiny_state))
    = predict_token [0%Z; 1%Z; 2%Z] tiny_state /\
    (forall text vocab,
       Tokenizer.tokenize text vocab = Ok [0%Z; 1%Z; 2%Z] ->
       predict text vocab tiny_state = (word_of vocab t, tiny_state)) /\
    forall text vocab,
      predict text vocab (snd (predict text vocab tiny_state))
      = predict text vocab tiny_state.
Proof.
  apply (@predict_token_is_first_argmax
           nat 6%nat 2%nat 3%nat 1%nat [0%Z; 1%Z; 2%Z] tiny_state).
  - exact tiny_model_constructed.
  - discriminate.
  - repeat constructor; unfold Tokenizer.id_in_range; simpl; lia.
  - unfold PositionalEncoding.default_max_seq_len. simpl. lia.
Defined.

(** With the default table, an input of 5001 positions raises. *)
Example forward_raises_beyond_default_table :
  PositionalEncoding.forward
    (encoder_of 16 PositionalEncoding.default_max_seq_len)
    (ramp (S PositionalEncoding.default_max_seq_len) 1 16)
  = Raise (SizeMismatch (S PositionalEncoding.default_max_seq_len)
                        PositionalEncoding.default_max_seq_len 0).
Proof.
  destruct (@init_table 16%nat PositionalEncoding.default_max_seq_len
              (encoder_of 16 PositionalEncoding.default_max_seq_len)
              eq_refl) as [_ [_ [Hshape _]]].
  apply shape3_eq in Hshape. destruct Hshape as [Hs0 [Hs1 Hs2]].
  rewrite <- Hs0 at 3.
  apply forward_beyond; unfold PositionalEncoding.max_seq_len;
    rewrite ?Hs0, ?Hs1, ?Hs2; cbn [ramp size0 size2];
    try reflexivity; try lia; apply Nat.eqb_neq; reflexivity.
Qed.

(** ** The loop on the tiny model *)

Lemma counting_adam_keeps_shapes V D H N :
  forall m o g,
    SimpleLLM.constructed V D H N m ->
    SimpleLLM.constructed V D H N
      (SimpleLLM.update_parameters m
         (snd (counting_adam o (SimpleLLM.parameters m) g))).
Proof. intros [e p b o'] o g Hc. exact Hc. Qed.

(** With the counting optimizer, a sentence of n tokens makes n - 1
    optimizer steps, one per prefix. *)
Lemma train_prefixes_count_steps V D H N autograd accumulate
    (sentence : list Z) :
  Forall (Tokenizer.id_in_range V) sentence ->
  (length sentence <= S PositionalEncoding.default_max_seq_len)%nat ->
  forall n start (st : State nat),
    (1 <= start)%nat ->
    (start + n <= length sentence)%nat ->
    SimpleLLM.constructed V D H N (model st) ->
    exists st',
      for_each (seq start n)
               (train_prefix autograd accumulate counting_adam sentence) st
      = (Ok tt, st') /\
      SimpleLLM.constructed V D H N (model st') /\
      optimizer st' = (optimizer st + n)%nat.
Proof.
  intros Hids Hlen.
  induction n as [|n IH]; intros start st Hs Hn Hc.
  - exists st. split; [reflexivity|]. split; [exact Hc | lia].
  - cbn [seq for_each]. unfold seq_run.
    destruct (@train_prefix_returns nat autograd accumulate counting_adam
                V D H N (@counting_adam_keeps_shapes V D H N)
                sentence start st Hc Hids Hlen)
      as [st1 [E1 [Hc1 Ho1]]]; [lia|].
    rewrite E1. cbn [counting_adam fst] in Ho1.
    destruct (IH (S start) st1) as [st2 [E2 [Hc2 Ho2]]];
      [lia | lia | exact Hc1 |].
    exists st2. split; [exact E2|]. split; [exact Hc2 | lia].
Qed.

Lemma train_sentence_counts_steps V D H N autograd accumulate
    (sentence : list Z) (st : State nat) :
  SimpleLLM.constructed V D H N (model st) ->
  Forall (Tokenizer.id_in_range V) sentence ->
  (length sentence <= S PositionalEncoding.default_max_seq_len)%nat ->
  exists st',
    train_sentence autograd accumulate counting_adam sentence st
    = (Ok tt, st') /\
    optimizer st' = (optimizer st + (length sentence - 1))%nat.
Proof.
  intros Hc Hids Hlen. unfold train_sentence, range.
  destruct (Nat.eq_dec (length sentence) 0) as [E0|E0].
  - rewrite E0. exists st. split; [reflexivity | cbn; lia].
  - destruct (@train_prefixes_count_steps V D H N autograd accumulate
                sentence Hids Hlen (length sentence - 1) 1%nat st)
      as [st' [E [_ Ho]]]; [lia | lia | exact Hc |].
    exists st'. split; assumption.
Qed.

Example tiny_model_trains_on_cell8_prefix :
  exists st',
    train_sentence no_gradient first_gradient counting_adam
                   [0; 1; 2]%Z tiny_state = (Ok tt, st') /\
    optimizer st' = 2%nat.
Proof.
  apply (@train_sentence_counts_steps 6%nat 2%nat 3%nat 1%nat
           no_gradient first_gradient [0; 1; 2]%Z tiny_state).
  - exact tiny_model_constructed.
  - repeat constructor; unfold Tokenizer.id_in_range; simpl; lia.
  - unfold PositionalEncoding.default_max_seq_len. simpl. lia.
Qed.

(* ================================================================== *)
(** * Further properties of the tokenizer and of the vocabulary *)

Section TokenizerMore.
Import Tokenizer.

Lemma split_from_word (w : str) : forall cur rest,
  forallb (fun c => negb (isspace c)) w = true ->
  split_from cur (w ++ rest) = split_from (rev w ++ cur) rest.
Proof.
  induction w as [|c w IH]; intros cur rest Hw; [reflexivity|].
  cbn [forallb] in Hw. apply andb_true_iff in Hw. destruct Hw as [Hc Hw].
  apply negb_true_iff in Hc.
  cbn [app split_from rev]. rewrite Hc, (IH (c :: cur) rest Hw).
  rewrite <- app_assoc. reflexivity.
Qed.

Lemma split_join (words : list str) :
  Forall is_word words -> split (join_spaces words) = words.
Proof.
  unfold split. induction 1 as [|w rest [Hne Hw] Hrest IH]; [reflexivity|].
  cbn [join_spaces]. destruct rest as [|w' rest'].
  - rewrite <- (app_nil_r w) at 1. rewrite (split_from_word w [] [] Hw).
    rewrite app_nil_r. cbn [split_from].
    destruct (rev w) eqn:E.
    + apply (f_equal (@rev char)) in E. rewrite rev_involutive in E.
      cbn in E. congruence.
    + rewrite <- E, rev_involutive. reflexivity.
  - rewrite (split_from_word w [] (32%N :: join_spaces (w' :: rest')) Hw).
    rewrite app_nil_r. cbn [split_from].
    change (isspace 32%N) with true. cbv iota.
    destruct (rev w) eqn:E.
    + apply (f_equal (@rev char)) in E. rewrite rev_involutive in E.
      cbn in E. congruence.
    + rewrite <- E, rev_involutive. f_equal. exact IH.
Qed.

Lemma split_from_app (a : str) : forall cur c b,
  isspace c = true ->
  split_from cur (a ++ c :: b) = split_from cur a ++ split b.
Proof.
  unfold split.
  induction a as [|x a IH]; intros cur c b Hc.
  - cbn [app split_from]. rewrite Hc. destruct cur; reflexivity.
  - cbn [app split_from]. destruct (isspace x).
    + destruct cur; [apply IH, Hc|].
      rewrite (IH [] c b Hc). reflexivity.
    + apply IH, Hc.
Qed.

Lemma mapM_app {A B} (f : A -> result B) (l1 l2 : list A) :
  mapM f (l1 ++ l2)
  = (x <- mapM f l1 ;; y <- mapM f l2 ;; Ok (x ++ y)).
Proof.
  induction l1 as [|a l1 IH]; cbn [app mapM].
  - cbn [bind]. destruct (mapM f l2); reflexivity.
  - destruct (f a) as [b|e]; cbn [bind]; [|reflexivity].
    rewrite IH. destruct (mapM f l1) as [x|e]; cbn [bind]; [|reflexivity].
    destruct (mapM f l2); reflexivity.
Qed.

Lemma mapM_raise {A B} (f : A -> result B) (e : exn) (l : list A) :
  l <> [] -> (forall a, f a = Raise e) -> mapM f l = Raise e.
Proof.
  intros Hne Hf. destruct l as [|a l]; [congruence|].
  cbn [mapM]. rewrite Hf. reflexivity.
Qed.

End TokenizerMore.

(** X1. On words written with single spaces between them, [tokenize]
    returns one id per word, in order: the word's id when the vocabulary
    has the word, and the id of "<UNK>" otherwise. *)
Theorem tokenize_joined_words :
  forall (words : list Tokenizer.str) (vocab : Tokenizer.dict) (unk : Z),
    Forall is_word words ->
    Tokenizer.lookup vocab Tokenizer.UNK = Some unk ->
    Tokenizer.tokenize (join_spaces words) vocab
    = Ok (map (fun w => match Tokenizer.lookup vocab w with
                        | Some id => id
                        | None => unk
                        end) words).
Proof.
  intros words vocab unk Hw Hunk. unfold Tokenizer.tokenize.
  rewrite (split_join Hw). apply mapM_ok. intros w _.
  unfold Tokenizer.getitem. rewrite Hunk. reflexivity.
Qed.

Lemma tokenize_joined_words_witness :
  Tokenizer.tokenize
    (join_spaces [Tokenizer.str_of_string "you";
                  Tokenizer.str_of_string "there"])
    vocab
  = Ok [4; 5]%Z.
Proof.
  apply (@tokenize_joined_words
           [Tokenizer.str_of_string "you"; Tokenizer.str_of_string "there"]
           vocab 5%Z).
  - apply Forall_cons; [split; [discriminate | reflexivity]|].
    apply Forall_cons; [split; [discriminate | reflexivity]|].
    apply Forall_nil.
  - reflexivity.
Defined.

(** X2. The default [vocab["<UNK>"]] is evaluated for every word, known or
    not: with a vocabulary that has no "<UNK>" key, [tokenize] raises
    KeyError on every text that has a word, and returns the empty list on
    a text without words. *)
Theorem tokenize_without_unk :
  forall (text : Tokenizer.str) (vocab : Tokenizer.dict),
    Tokenizer.lookup vocab Tokenizer.UNK = None ->
    Tokenizer.tokenize text vocab
    = match Tokenizer.count_words true text with
      | O => Ok []
      | S _ => Raise KeyError
      end.
Proof.
  intros text vocab Hunk. unfold Tokenizer.tokenize.
  rewrite <- split_length.
  destruct (Tokenizer.split text) as [|w ws] eqn:E; [reflexivity|].
  cbn [length]. apply mapM_raise; [discriminate|].
  intros a. unfold Tokenizer.getitem. rewrite Hunk. reflexivity.
Qed.

Lemma tokenize_without_unk_witness :
  Tokenizer.tokenize (Tokenizer.str_of_string "a b") gap_vocab
  = Raise KeyError.
Proof.
  apply (@tokenize_without_unk (Tokenizer.str_of_string "a b") gap_vocab).
  reflexivity.
Defined.

(** X3. Tokenizing two texts joined by a whitespace character is
    tokenizing the first, then the second, and concatenating the ids (the
    first exception wins). *)
Theorem tokenize_concatenation :
  forall (a b : Tokenizer.str) (c : Tokenizer.char) (vocab : Tokenizer.dict),
    Tokenizer.isspace c = true ->
    Tokenizer.tokenize (a ++ c :: b) vocab
    = (x <- Tokenizer.tokenize a vocab ;;
       y <- Tokenizer.tokenize b vocab ;;
       Ok (x ++ y)).
Proof.
  intros a b c vocab Hc. unfold Tokenizer.tokenize, Tokenizer.split.
  rewrite (@split_from_app a [] c b Hc). apply mapM_app.
Qed.

Lemma tokenize_concatenation_witness :
  Tokenizer.tokenize
    (Tokenizer.str_of_string "hello" ++ 10%N :: Tokenizer.str_of_string "you")
    vocab
  = (x <- Tokenizer.tokenize (Tokenizer.str_of_string "hello") vocab ;;
     y <- Tokenizer.tokenize (Tokenizer.str_of_string "you") vocab ;;
     Ok (x ++ y)).
Proof.
  apply (@tokenize_concatenation
           (Tokenizer.str_of_string "hello") (Tokenizer.str_of_string "you")
           10%N vocab).
  reflexivity.
Defined.

Section VocabularyFacts.
Import Tokenizer.

Lemma str_eqb_eq (a b : str) : str_eqb a b = true -> a = b.
Proof.
  unfold str_eqb. destruct (list_eq_dec N.eq_dec a b); [auto|discriminate].
Qed.

Lemma lookup_in (vocab : dict) (w : str) (id : Z) :
  lookup vocab w = Some id -> In (w, id) vocab.
Proof.
  induction vocab as [|[k v] rest IH]; cbn [lookup]; [discriminate|].
  destruct (str_eqb k w) eqn:E.
  - intros H. injection H as <-. apply str_eqb_eq in E. subst k.
    left. reflexivity.
  - intros H. right. apply IH, H.
Qed.

Lemma list_index_found (l : list Z) (v : Z) :
  In v l ->
  exists i, list_index l v = Ok i /\ nth_error l i = Some v.
Proof.
  induction l as [|a l IH]; intros Hin; [destruct Hin|].
  cbn [list_index]. destruct (Z.eqb_spec a v) as [->|Hne].
  - exists 0%nat. split; reflexivity.
  - destruct Hin as [E|Hin]; [congruence|].
    destruct (IH Hin) as [i [Hi Hn]]. exists (S i).
    rewrite Hi. split; [reflexivity | exact Hn].
Qed.

Lemma list_index_missing (l : list Z) (v : Z) :
  ~ In v l -> list_index l v = Raise ValueError.
Proof.
  induction l as [|a l IH]; intros Hin; [reflexivity|].
  cbn [list_index]. destruct (Z.eqb_spec a v) as [->|Hne].
  - exfalso. apply Hin. left. reflexivity.
  - rewrite IH; [reflexivity|]. intros H. apply Hin. right. exact H.
Qed.

Lemma nth_error_pair (vocab : dict) (i : nat) (v : Z) :
  nth_error (map snd vocab) i = Some v ->
  exists k, nth_error (map fst vocab) i = Some k /\ In (k, v) vocab.
Proof.
  revert i. induction vocab as [|[k' v'] rest IH]; intros [|i] H;
    try discriminate.
  - cbn in H. injection H as ->. exists k'. split; [reflexivity|].
    left. reflexivity.
  - cbn in H. destruct (IH i H) as [k [Hk Hin]].
    exists k. split; [exact Hk | right; exact Hin].
Qed.

Lemma word_of_found (vocab : dict) (t : nat) :
  In (Z.of_nat t) (map snd vocab) ->
  exists w, word_of vocab t = Ok w /\ In (w, Z.of_nat t) vocab.
Proof.
  intros Hin. unfold word_of.
  destruct (list_index_found _ _ Hin) as [i [Hi Hn]].
  rewrite Hi. cbn [bind].
  destruct (nth_error_pair vocab i Hn) as [k [Hk Hkin]].
  exists k. unfold list_getitem. rewrite Hk. split; [reflexivity | exact Hkin].
Qed.

Lemma NoDup_values_key (vocab : dict) (k k' : str) (v : Z) :
  NoDup (map snd vocab) -> In (k, v) vocab -> In (k', v) vocab -> k = k'.
Proof.
  induction vocab as [|[a b] rest IH]; intros Hnd H1 H2; [destruct H1|].
  cbn [map snd] in Hnd. inversion Hnd as [|? ? Hnotin Hnd']; subst.
  assert (Hv : forall x, In (x, b) rest -> False).
  { intros x Hx. apply Hnotin.
    change b with (snd (x, b)). apply in_map, Hx. }
  destruct H1 as [E1|H1], H2 as [E2|H2].
  - congruence.
  - injection E1 as -> ->. exfalso. eapply Hv, H2.
  - injection E2 as -> ->. exfalso. eapply Hv, H1.
  - apply IH; assumption.
Qed.

End VocabularyFacts.

(** X4. The reverse lookup of cell 8 inverts the vocabulary where the ids
    are pairwise distinct: the word found for the id of [w] is [w]. *)
Theorem word_of_inverts_lookup :
  forall (vocab : Tokenizer.dict) (w : Tokenizer.str) (id : Z),
    NoDup (map snd vocab) ->
    Tokenizer.lookup vocab w = Some id ->
    (0 <= id)%Z ->
    word_of vocab (Z.to_nat id) = Ok w.
Proof.
  intros vocab w id Hnd Hl Hid.
  pose proof (lookup_in vocab w Hl) as Hin.
  assert (Hv : In (Z.of_nat (Z.to_nat id)) (map snd vocab)).
  { rewrite Z2Nat.id by exact Hid.
    change id with (snd (w, id)). apply in_map, Hin. }
  destruct (word_of_found vocab _ Hv) as [k [Hk Hkin]].
  rewrite Z2Nat.id in Hkin by exact Hid.
  rewrite Hk. f_equal. eapply NoDup_values_key; eassumption.
Qed.

Lemma word_of_inverts_lookup_witness :
  word_of vocab (Z.to_nat 2) = Ok (Tokenizer.str_of_string "how").
Proof.
  apply (@word_of_inverts_lookup vocab (Tokenizer.str_of_string "how") 2%Z).
  - repeat (apply NoDup_cons; [cbn; intuition discriminate|]).
    apply NoDup_nil.
  - reflexivity.
  - lia.
Defined.

(** X5. The reverse lookup returns a word of the vocabulary that carries
    the id when some word does, and raises ValueError (from [list.index])
    when no word does. *)
Theorem word_of_value_error :
  forall (vocab : Tokenizer.dict) (t : nat),
    (In (Z.of_nat t) (map snd vocab) ->
     exists w, word_of vocab t = Ok w /\ In (w, Z.of_nat t) vocab) /\
    (~ In (Z.of_nat t) (map snd vocab) ->
     word_of vocab t = Raise ValueError).
Proof.
  intros vocab t. split.
  - apply word_of_found.
  - intros Hn. unfold word_of. rewrite (@list_index_missing _ _ Hn).
    reflexivity.
Qed.

(** An id in the gap of a vocabulary has no word. *)
Example word_of_gap :
  word_of gap_vocab 1 = Raise ValueError /\
  word_of gap_vocab 2 = Ok (Tokenizer.str_of_string "b").
Proof. split; reflexivity. Qed.

(* ================================================================== *)
(** * Further properties of the embedding and of the positional table *)

Section EmbeddingMore.

Lemma long_row_invalid (n : nat) (ids : list Z) :
  (exists id, In id ids /\ ~ Tokenizer.id_in_range n id) ->
  all_indices_valid n (long_row ids) = false.
Proof.
  intros [id [Hin Hbad]].
  destruct (all_indices_valid n (long_row ids)) eqn:E; [|reflexivity].
  exfalso. apply Hbad. apply valid_index_spec.
  unfold all_indices_valid in E. cbn [long_row lrows lcols lat2] in E.
  rewrite forallb_forall in E.
  specialize (E 0%nat (or_introl eq_refl)). rewrite forallb_forall in E.
  destruct (In_nth ids id 0%Z Hin) as [i [Hi Hn]].
  rewrite <- Hn. apply E. apply in_seq. lia.
Qed.

End EmbeddingMore.


(** X7. The model raises IndexError on a token id outside the embedding
    table, whatever the other layers are: the "<UNK>" fallback of the
    tokenizer is the only guard. *)
Theorem SimpleLLM_forward_index_error :
  forall (m : SimpleLLM.t) (ids : list Z) (id : Z),
    In id ids ->
    ~ Tokenizer.id_in_range
        (num_embeddings (Embedding.embedding (SimpleLLM.embedding m))) id ->
    SimpleLLM.forward m (long_row ids) = Raise IndexError.
Proof.
  intros m ids id Hin Hbad.
  unfold SimpleLLM.forward, Embedding.forward, nn_Embedding_forward.
  rewrite (@long_row_invalid _ ids) by (exists id; split; assumption).
  reflexivity.
Qed.

Lemma SimpleLLM_forward_index_error_witness :
  SimpleLLM.forward tiny_model (long_row [0; 6]%Z) = Raise IndexError.
Proof.
  apply (@SimpleLLM_forward_index_error tiny_model [0; 6]%Z 6%Z).
  - right. left. reflexivity.
  - unfold Tokenizer.id_in_range. cbn. lia.
Defined.

Section PositionalEncodingMore.

Lemma init_zero max : PositionalEncoding.init 0 max = Raise ZeroDivisionError.
Proof. reflexivity. Qed.

Lemma init_one max : exists penc, PositionalEncoding.init 1 max = Ok penc.
Proof.
  unfold PositionalEncoding.init. cbn [PositionalEncoding.neg_log_over bind].
  rewrite mul_row_column. cbn [bind].
  rewrite setitem_cols_ok by reflexivity. cbn [bind].
  unfold setitem_cols, expand_dim.
  cbn [cols rows map2d zeros len1 exp1 scale1 arange_step2].
  cbn. rewrite Nat.eqb_refl. cbn. eexists. reflexivity.
Qed.

Lemma init_odd h max :
  (1 <= h)%nat ->
  PositionalEncoding.init (2 * h + 1) max
  = Raise (ExpandMismatch h (h + 1) 1).
Proof.
  intros Hh. unfold PositionalEncoding.init.
  assert (Hc : PositionalEncoding.neg_log_over (2 * h + 1)
               = Ok (- ln 10000 / INR (2 * h + 1))).
  { unfold PositionalEncoding.neg_log_over.
    destruct (2 * h + 1)%nat eqn:E; [lia|reflexivity]. }
  rewrite Hc. cbn [bind]. rewrite mul_row_column. cbn [bind].
  assert (Hn : len1 (exp1 (scale1 (arange_step2 (2 * h + 1))
                                  (- ln 10000 / INR (2 * h + 1))))
               = (h + 1)%nat).
  { cbn [len1 exp1 scale1 arange_step2].
    replace (2 * h + 1 + 1)%nat with (2 * (h + 1))%nat by lia.
    apply half_double. }
  rewrite setitem_cols_ok;
    [| cbn [cols map2d zeros]; rewrite Hn; unfold slice_len;
       replace (2 * h + 1 - 0 + (2 - 1))%nat with (2 * (h + 1))%nat by lia;
       symmetry; apply half_double
     | reflexivity].
  cbn [bind]. unfold setitem_cols, expand_dim.
  cbn [cols rows map2d zeros]. rewrite Hn. unfold slice_len.
  replace (2 * h + 1 - 1 + (2 - 1))%nat with (2 * h + 1)%nat by lia.
  rewrite half_succ_double.
  destruct (Nat.eqb_spec (h + 1) h); [lia|].
  destruct (Nat.eqb_spec (h + 1) 1); [lia|].
  reflexivity.
Qed.

Lemma channel_cases (c : nat) :
  exists i, c = (2 * i)%nat \/ c = (2 * i + 1)%nat.
Proof.
  destruct (Nat.Even_or_Odd c) as [[i Hi]|[i Hi]]; exists i; [left|right];
    exact Hi.
Qed.

End PositionalEncodingMore.

(** X8. Which dimensions [PositionalEncoding.__init__] accepts, for any
    table length: D = 0 raises ZeroDivisionError (the division by
    embedding_dim); D = 1 and every even D >= 2 return; every odd D >= 3
    raises at the assignment of the cosine columns, which has (D+1)/2
    values for (D-1)/2 columns. *)
Theorem PositionalEncoding_init_dimension :
  forall (max : nat),
    PositionalEncoding.init 0 max = Raise ZeroDivisionError /\
    (exists penc, PositionalEncoding.init 1 max = Ok penc) /\
    (forall h, (1 <= h)%nat ->
       exists penc, PositionalEncoding.init (2 * h) max = Ok penc) /\
    (forall h, (1 <= h)%nat ->
       PositionalEncoding.init (2 * h + 1) max
       = Raise (ExpandMismatch h (h + 1) 1)).
Proof.
  intros max. split; [apply init_zero|]. split; [apply init_one|].
  split.
  - intros h Hh. apply PositionalEncoding_init_even. lia.
  - intros h Hh. apply init_odd, Hh.
Qed.

(** X9. Every entry of the positional table lies in [-1, 1], and row 0 is
    0 on the even channels and 1 on the odd ones. *)
Theorem positional_table_bounded :
  forall (D max : nat) (penc : PositionalEncoding.t),
    PositionalEncoding.init D max = Ok penc ->
    (forall p c, (p < max)%nat -> (c < D)%nat ->
       -1 <= at3 (PositionalEncoding.pe penc) p 0 c <= 1) /\
    (forall c, (0 < max)%nat -> (c < D)%nat ->
       at3 (PositionalEncoding.pe penc) 0 0 c
       = if Nat.even c then 0 else 1).
Proof.
  intros D max penc Hinit.
  destruct (@init_table D max penc Hinit) as [_ [_ [_ Htable]]].
  split.
  - intros p c Hp Hc. destruct (channel_cases c) as [i [-> | ->]].
    + rewrite (proj1 (Htable p i Hp) Hc). apply SIN_bound.
    + rewrite (proj2 (Htable p i Hp) Hc). apply COS_bound.
  - intros c Hmax Hc. destruct (channel_cases c) as [i [-> | ->]].
    + rewrite (proj1 (Htable 0%nat i Hmax) Hc).
      replace (Nat.even (2 * i)) with true
        by (symmetry; apply Nat.even_spec; exists i; reflexivity).
      cbn [INR]. rewrite Rmult_0_l. apply sin_0.
    + rewrite (proj2 (Htable 0%nat i Hmax) Hc).
      replace (Nat.even (2 * i + 1)) with false.
      * cbn [INR]. rewrite Rmult_0_l. apply cos_0.
      * symmetry. rewrite Nat.even_add, Nat.even_mul. reflexivity.
Qed.

Lemma positional_table_bounded_witness :
  (forall p c, (p < 3)%nat -> (c < 2)%nat ->
     -1 <= at3 (PositionalEncoding.pe (encoder_of 2 3)) p 0 c <= 1) /\
  (forall c, (0 < 3)%nat -> (c < 2)%nat ->
     at3 (PositionalEncoding.pe (encoder_of 2 3)) 0 0 c
     = if Nat.even c then 0 else 1).
Proof.
  apply (@positional_table_bounded 2%nat 3%nat (encoder_of 2 3)).
  reflexivity.
Defined.

(* ================================================================== *)
(** * Further properties of self-attention *)

Section SelfAttentionMore.

Lemma forward_wrong_dimension (self : SelfAttention.t) (D : nat)
    (x : Tensor3) :
  SelfAttention.constructed D self ->
  size2 x <> D ->
  SelfAttention.forward self x = Raise ShapeError.
Proof.
  intros [[Hq _] _] Hx. unfold SelfAttention.forward, Linear_forward.
  rewrite Hq. destruct (Nat.eqb_spec (size2 x) D); [contradiction|].
  reflexivity.
Qed.

Lemma sigma_le n (f g : nat -> R) :
  (forall i, (i < n)%nat -> f i <= g i) -> sigma n f <= sigma n g.
Proof.
  intros H. unfold sigma.
  assert (Hs : forall l, (forall i, In i l -> f i <= g i) ->
                         Rsum (map f l) <= Rsum (map g l)).
  { induction l as [|a l IH]; intros Hl; [cbn; lra|].
    change (f a + Rsum (map f l) <= g a + Rsum (map g l)).
    assert (f a <= g a) by (apply Hl; left; reflexivity).
    assert (Rsum (map f l) <= Rsum (map g l))
      by (apply IH; intros; apply Hl; right; assumption).
    lra. }
  apply Hs. intros i Hi. apply in_seq in Hi. apply H. lia.
Qed.

(** A weighted mean lies between the bounds of what it averages. *)
Lemma weighted_mean_bounds n (w v : nat -> R) lo hi :
  (forall k, (k < n)%nat -> 0 <= w k) ->
  sigma n w = 1 ->
  (forall k, (k < n)%nat -> lo <= v k <= hi) ->
  lo <= sigma n (fun k => w k * v k) <= hi.
Proof.
  intros Hw Hone Hv. split.
  - replace lo with (sigma n (fun k => w k * lo))
      by (rewrite sigma_scale, Hone; ring).
    apply sigma_le. intros k Hk. cbv beta.
    apply Rmult_le_compat_l; [apply Hw, Hk | apply Hv, Hk].
  - replace hi with (sigma n (fun k => w k * hi))
      by (rewrite sigma_scale, Hone; ring).
    apply sigma_le. intros k Hk. cbv beta.
    apply Rmult_le_compat_l; [apply Hw, Hk | apply Hv, Hk].
Qed.

Lemma weights_sum_one (self : SelfAttention.t) (x : Tensor3) n q :
  (0 < size1 x)%nat ->
  sigma (size1 x) (fun k => AttentionSpec.weight_of self x n q k) = 1.
Proof.
  intros HL. unfold AttentionSpec.weight_of.
  apply (softmax_row (fun k => AttentionSpec.score self x n q k) HL).
Qed.

Lemma project_ext (l : Linear) (x x' : Tensor3) n p j :
  size2 x = size2 x' ->
  (forall c, (c < size2 x)%nat -> at3 x n p c = at3 x' n p c) ->
  AttentionSpec.project l x n p j = AttentionSpec.project l x' n p j.
Proof.
  intros Hs H. unfold AttentionSpec.project. rewrite <- Hs. f_equal.
  apply sigma_ext. intros i Hi. rewrite (H i Hi). reflexivity.
Qed.

Lemma score_ext (self : SelfAttention.t) (x x' : Tensor3) n q k :
  size2 x = size2 x' ->
  (forall c, (c < size2 x)%nat -> at3 x n q c = at3 x' n q c) ->
  (forall c, (c < size2 x)%nat -> at3 x n k c = at3 x' n k c) ->
  AttentionSpec.score self x n q k = AttentionSpec.score self x' n q k.
Proof.
  intros Hs Hq Hk. unfold AttentionSpec.score. rewrite <- Hs. f_equal.
  apply sigma_ext. intros i _.
  rewrite (@project_ext (SelfAttention.query self) x x' n q i Hs Hq),
    (@project_ext (SelfAttention.key self) x x' n k i Hs Hk).
  reflexivity.
Qed.

(** The output for sequence [n] at an in-range query reads the input only
    at sequence [n], at in-range positions and channels. *)
Lemma attention_ext (self : SelfAttention.t) (x x' : Tensor3) n q c :
  size1 x = size1 x' -> size2 x = size2 x' ->
  (forall p c, (p < size1 x)%nat -> (c < size2 x)%nat ->
     at3 x n p c = at3 x' n p c) ->
  (q < size1 x)%nat ->
  at3 (AttentionSpec.attention self x) n q c
  = at3 (AttentionSpec.attention self x') n q c.
Proof.
  intros H1 H2 H Hq. unfold AttentionSpec.attention. cbn [at3].
  rewrite <- H1. apply sigma_ext. intros k Hk.
  unfold AttentionSpec.weight_of. rewrite <- H1.
  rewrite (@project_ext (SelfAttention.value self) x x' n k c H2
             (fun c' => H k c' Hk)).
  rewrite (@score_ext self x x' n q k H2
             (fun c' => H q c' Hq) (fun c' => H k c' Hk)).
  f_equal. unfold Rdiv. f_equal. f_equal.
  apply sigma_ext. intros k' Hk'.
  rewrite (@score_ext self x x' n q k' H2
             (fun c' => H q c' Hq) (fun c' => H k' c' Hk')).
  reflexivity.
Qed.

End SelfAttentionMore.

(** X10. On a sequence of one position, self-attention returns the value
    projection of that position: the single weight is 1, whatever the query
    and key projections are. *)
Theorem SelfAttention_single_position :
  forall (self : SelfAttention.t) (D : nat) (x : Tensor3),
    SelfAttention.constructed D self ->
    size2 x = D ->
    size1 x = 1%nat ->
    exists y,
      SelfAttention.forward self x = Ok y /\
      forall n c,
        at3 y n 0 c
        = AttentionSpec.project (SelfAttention.value self) x n 0 c.
Proof.
  intros self D x Hc HD HL.
  exists (AttentionSpec.attention self x).
  split; [eapply forward_unfold; eassumption|].
  intros n c. unfold AttentionSpec.attention, AttentionSpec.weight_of.
  cbn [at3]. rewrite HL. unfold sigma. cbn [seq map Rsum fold_right].
  pose proof (exp_pos (AttentionSpec.score self x n 0 0)) as He.
  field. lra.
Qed.

Lemma SelfAttention_single_position_witness :
  exists y,
    SelfAttention.forward averaging_attention (ramp 2 1 1) = Ok y /\
    forall n c,
      at3 y n 0 c
      = AttentionSpec.project (SelfAttention.value averaging_attention)
                              (ramp 2 1 1) n 0 c.
Proof.
  apply (@SelfAttention_single_position averaging_attention 1%nat
           (ramp 2 1 1)).
  - constructed_by_computation.
  - reflexivity.
  - reflexivity.
Defined.

(** X11. Every output channel of self-attention is a weighted mean of the
    value projections of the sequence's positions: it lies between any
    bounds that hold for that channel of all the values. *)
Theorem SelfAttention_output_between_values :
  forall (self : SelfAttention.t) (D : nat) (x : Tensor3),
    SelfAttention.constructed D self ->
    size2 x = D ->
    exists y,
      SelfAttention.forward self x = Ok y /\
      forall n q c lo hi,
        (q < size1 x)%nat ->
        (forall k, (k < size1 x)%nat ->
           lo <= AttentionSpec.project (SelfAttention.value self) x n k c
              <= hi) ->
        lo <= at3 y n q c <= hi.
Proof.
  intros self D x Hc HD.
  exists (AttentionSpec.attention self x).
  split; [eapply forward_unfold; eassumption|].
  intros n q c lo hi Hq Hv. unfold AttentionSpec.attention. cbn [at3].
  apply (@weighted_mean_bounds (size1 x)
           (fun k => AttentionSpec.weight_of self x n q k)
           (fun k => AttentionSpec.project (SelfAttention.value self) x n k c)).
  - intros k Hk. left. apply weight_of_pos, Hk.
  - apply weights_sum_one. lia.
  - exact Hv.
Qed.

Lemma SelfAttention_output_between_values_witness :
  exists y,
    SelfAttention.forward averaging_attention (two_positions 1 3) = Ok y /\
    forall n q c lo hi,
      (q < size1 (two_positions 1 3))%nat ->
      (forall k, (k < size1 (two_positions 1 3))%nat ->
         lo <= AttentionSpec.project (SelfAttention.value averaging_attention)
                                     (two_positions 1 3) n k c
            <= hi) ->
      lo <= at3 y n q c <= hi.
Proof.
  apply (@SelfAttention_output_between_values averaging_attention 1%nat
           (two_positions 1 3)).
  - constructed_by_computation.
  - reflexivity.
Defined.

(** X12. The sequences of a batch do not interact in self-attention: the
    output for sequence n depends on the input through sequence n
    only. *)
Theorem SelfAttention_sequences_independent :
  forall (self : SelfAttention.t) (D : nat) (x x' : Tensor3) (n : nat),
    SelfAttention.constructed D self ->
    size2 x = D -> size2 x' = D ->
    size1 x = size1 x' ->
    (forall p c, (p < size1 x)%nat -> (c < D)%nat ->
       at3 x n p c = at3 x' n p c) ->
    exists y y',
      SelfAttention.forward self x = Ok y /\
      SelfAttention.forward self x' = Ok y' /\
      forall q c, (q < size1 x)%nat -> at3 y n q c = at3 y' n q c.
Proof.
  intros self D x x' n Hc HD HD' HL H.
  exists (AttentionSpec.attention self x), (AttentionSpec.attention self x').
  split; [eapply forward_unfold; eassumption|].
  split; [eapply forward_unfold; eassumption|].
  intros q c Hq. apply attention_ext; [exact HL | congruence | | exact Hq].
  intros p c' Hp Hc'. apply H; [exact Hp | congruence].
Qed.

Lemma SelfAttention_sequences_independent_witness :
  exists y y',
    SelfAttention.forward averaging_attention (two_sequences 5) = Ok y /\
    SelfAttention.forward averaging_attention (two_sequences 7) = Ok y' /\
    forall q c, (q < size1 (two_sequences 5))%nat ->
                at3 y 0 q c = at3 y' 0 q c.
Proof.
  apply (@SelfAttention_sequences_independent averaging_attention 1%nat
           (two_sequences 5) (two_sequences 7) 0%nat).
  - constructed_by_computation.
  - reflexivity.
  - reflexivity.
  - reflexivity.
  - intros p c _ _. reflexivity.
Defined.

(* ================================================================== *)
(** * Further properties of the transformer block and of the stack *)

Section TransformerBlockMore.

Lemma term_le_sigma n (f : nat -> R) c :
  (forall i, 0 <= f i) -> (c < n)%nat -> f c <= sigma n f.
Proof.
  intros Hf Hc. unfold sigma.
  assert (Hin : In c (seq 0 n)) by (apply in_seq; lia).
  induction (seq 0 n) as [|a l IH]; [destruct Hin|].
  change (f c <= f a + Rsum (map f l)).
  assert (0 <= Rsum (map f l)).
  { apply Rsum_nonneg, Forall_forall. intros r Hr.
    apply in_map_iff in Hr. destruct Hr as [i [<- _]]. apply Hf. }
  destruct Hin as [->|Hin]; [lra|].
  specialize (IH Hin). pose proof (Hf a). lra.
Qed.

(** A normalised channel is below sqrt(n) in absolute value. *)
Lemma normalize_square_bound n (v : nat -> R) c :
  (c < n)%nat -> normalize n v c * normalize n v c < INR n.
Proof.
  intros Hc. assert (Hn : (0 < n)%nat) by lia.
  pose proof (@variance_normalize_below_one n v Hn) as Hvar.
  unfold variance in Hvar. rewrite (@mean_normalize n v Hn) in Hvar.
  assert (HN : 0 < INR n) by (apply lt_0_INR; exact Hn).
  assert (Hsum : sigma n (fun k => (normalize n v k - 0)
                                   * (normalize n v k - 0)) < INR n).
  { apply (Rmult_lt_reg_r (/ INR n)).
    - apply Rinv_0_lt_compat, HN.
    - rewrite Rinv_r by lra. exact Hvar. }
  pose proof (@term_le_sigma n
                (fun k => (normalize n v k - 0) * (normalize n v k - 0)) c)
    as Hterm.
  cbv beta in Hterm.
  assert (Hle : (normalize n v c - 0) * (normalize n v c - 0)
                <= sigma n (fun k => (normalize n v k - 0)
                                     * (normalize n v k - 0))).
  { apply Hterm; [|exact Hc]. intros i.
    apply (Rle_0_sqr (normalize n v i - 0)). }
  replace (normalize n v c * normalize n v c)
    with ((normalize n v c - 0) * (normalize n v c - 0)) by ring.
  lra.
Qed.

Lemma block_wrong_dimension (self : TransformerBlock.t) (D H : nat)
    (x : Tensor3) :
  TransformerBlock.constructed D H self ->
  size2 x <> D ->
  TransformerBlock.forward self x = Raise ShapeError.
Proof.
  intros [Hatt _] Hx. unfold TransformerBlock.forward.
  rewrite (@forward_wrong_dimension (TransformerBlock.attention self) D x
             Hatt Hx).
  reflexivity.
Qed.

Lemma sequential_app (a b : list TransformerBlock.t) : forall x,
  SimpleLLM.sequential (a ++ b) x
  = (y <- SimpleLLM.sequential a x ;; SimpleLLM.sequential b y).
Proof.
  induction a as [|blk a IH]; intros x; [reflexivity|].
  cbn [app SimpleLLM.sequential].
  destruct (TransformerBlock.forward blk x) as [y|e]; cbn [bind];
    [apply IH | reflexivity].
Qed.

End TransformerBlockMore.

(** X13. A transformer block keeps the shape of its input, and raises on an
    input whose last dimension is not the block's embedding dimension. *)
Theorem TransformerBlock_preserves_shape :
  forall (self : TransformerBlock.t) (D H : nat) (x : Tensor3),
    TransformerBlock.constructed D H self ->
    (size2 x = D ->
     exists y, TransformerBlock.forward self x = Ok y /\
               shape3 y = shape3 x) /\
    (size2 x <> D -> TransformerBlock.forward self x = Raise ShapeError).
Proof.
  intros self D H x Hc. split.
  - intros HD.
    destruct (@block_forward self D H x Hc HD) as [y [Hy [Hsh _]]].
    exists y. split; [exact Hy | exact Hsh].
  - intros HD. eapply block_wrong_dimension; eassumption.
Qed.

Lemma TransformerBlock_preserves_shape_witness :
  (size2 (two_positions 1 3) = 1%nat ->
   exists y, TransformerBlock.forward small_block (two_positions 1 3) = Ok y /\
             shape3 y = shape3 (two_positions 1 3)) /\
  (size2 (two_positions 1 3) <> 1%nat ->
   TransformerBlock.forward small_block (two_positions 1 3)
   = Raise ShapeError).
Proof.
  apply (@TransformerBlock_preserves_shape small_block 1%nat 3%nat
           (two_positions 1 3)).
  constructed_by_computation.
Defined.

(** X14. The output of a block is bounded whatever its input: channel c of
    every token is within sqrt(D) * |weight c| of bias c, with the scale and
    shift of the second LayerNorm. *)
Theorem TransformerBlock_output_bounded :
  forall (self : TransformerBlock.t) (D H : nat) (x : Tensor3),
    TransformerBlock.constructed D H self ->
    size2 x = D ->
    exists y,
      TransformerBlock.forward self x = Ok y /\
      forall n p c,
        (n < size0 x)%nat -> (p < size1 x)%nat -> (c < D)%nat ->
        (at3 y n p c - ln_bias (TransformerBlock.norm2 self) c)
        * (at3 y n p c - ln_bias (TransformerBlock.norm2 self) c)
        <= INR D * (ln_weight (TransformerBlock.norm2 self) c
                    * ln_weight (TransformerBlock.norm2 self) c).
Proof.
  intros self D H x Hc HD.
  destruct (@block_forward self D H x Hc HD) as [y [Hy [Hsh Hat]]].
  exists y. split; [exact Hy|].
  apply shape3_eq in Hsh. destruct Hsh as [H0 [H1 H2]].
  cbn [BlockSpec.block size0 size1 size2] in H0, H1, H2.
  intros n p c Hn Hp Hcd.
  rewrite Hat by lia.
  unfold BlockSpec.block, BlockSpec.x2, BlockSpec.layer_norm. cbn [at3].
  rewrite HD.
  match goal with
  | |- context [normalize D ?v c] =>
      pose proof (@normalize_square_bound D v c Hcd) as Hb;
      set (u := normalize D v c) in *
  end.
  set (w := ln_weight (TransformerBlock.norm2 self) c).
  set (b := ln_bias (TransformerBlock.norm2 self) c).
  replace ((u * w + b - b) * (u * w + b - b)) with ((u * u) * (w * w))
    by ring.
  apply Rmult_le_compat_r; [apply (Rle_0_sqr w) | lra].
Qed.

Lemma TransformerBlock_output_bounded_witness :
  exists y,
    TransformerBlock.forward tiny_block (ramp 1 3 2) = Ok y /\
    forall n p c,
      (n < size0 (ramp 1 3 2))%nat -> (p < size1 (ramp 1 3 2))%nat ->
      (c < 2)%nat ->
      (at3 y n p c - ln_bias (TransformerBlock.norm2 tiny_block) c)
      * (at3 y n p c - ln_bias (TransformerBlock.norm2 tiny_block) c)
      <= INR 2 * (ln_weight (TransformerBlock.norm2 tiny_block) c
                  * ln_weight (TransformerBlock.norm2 tiny_block) c).
Proof.
  apply (@TransformerBlock_output_bounded tiny_block 2%nat 3%nat
           (ramp 1 3 2)).
  - constructed_by_computation.
  - reflexivity.
Defined.

Section Equivariance.

Lemma perm_nth_lt (pi : list nat) (L q : nat) :
  Permutation pi (seq 0 L) -> (q < L)%nat -> (nth q pi 0 < L)%nat.
Proof.
  intros Hp Hq.
  assert (Hlen : length pi = L)
    by (rewrite (Permutation_length Hp); apply length_seq).
  assert (Hin : In (nth q pi 0%nat) (seq 0 L)).
  { apply (Permutation_in _ Hp). apply nth_In. lia. }
  apply in_seq in Hin. lia.
Qed.

(** Attention of the re-ordered sequence, entry by entry. *)
Lemma attention_perm (self : SelfAttention.t) (pi : list nat) (x : Tensor3)
    n q c :
  Permutation pi (seq 0 (size1 x)) ->
  at3 (AttentionSpec.attention self (permute_positions pi x)) n q c
  = at3 (AttentionSpec.attention self x) n (nth q pi 0%nat) c.
Proof.
  intros Hp.
  assert (Hlen : length pi = size1 x)
    by (rewrite (Permutation_length Hp); apply length_seq).
  unfold AttentionSpec.attention, AttentionSpec.weight_of,
    AttentionSpec.score, AttentionSpec.project, permute_positions.
  cbn [at3 size0 size1 size2]. rewrite Hlen.
  match goal with
  | |- _ = sigma (size1 x) ?F =>
      rewrite <- (@sigma_perm (size1 x) pi F Hp)
  end.
  apply sigma_ext. intros k _.
  f_equal. unfold Rdiv. f_equal. f_equal.
  match goal with
  | |- _ = sigma (size1 x) ?G => exact (@sigma_perm (size1 x) pi G Hp)
  end.
Qed.

Lemma feed_forward_ext (self : TransformerBlock.t) (D H : nat)
    (v w : nat -> R) c :
  TransformerBlock.constructed D H self ->
  (forall i, (i < D)%nat -> v i = w i) ->
  BlockSpec.feed_forward self v c = BlockSpec.feed_forward self w c.
Proof.
  intros [_ [[Hi0 _] _]] Hv. unfold BlockSpec.feed_forward.
  apply linear_ext. intros j _. f_equal.
  apply linear_ext. intros i Hi. apply Hv. congruence.
Qed.

(** The block's formula reads sequence [n] of the input at in-range
    positions and channels only. *)
Lemma block_spec_ext (self : TransformerBlock.t) (D H : nat)
    (x x' : Tensor3) n p c :
  TransformerBlock.constructed D H self ->
  size2 x = D -> size2 x' = D -> size1 x = size1 x' ->
  (forall p c, (p < size1 x)%nat -> (c < D)%nat ->
     at3 x n p c = at3 x' n p c) ->
  (p < size1 x)%nat -> (c < D)%nat ->
  BlockSpec.x2 self x n p c = BlockSpec.x2 self x' n p c.
Proof.
  intros Hc HD HD' HL Hx Hp Hcd.
  assert (H1 : forall c', (c' < D)%nat ->
            BlockSpec.x1 self x n p c' = BlockSpec.x1 self x' n p c').
  { intros c' Hc'. unfold BlockSpec.x1. rewrite HD, HD'.
    apply layer_norm_ext; [|exact Hc'].
    intros c'' Hc''. rewrite (Hx p c'' Hp Hc''). f_equal.
    apply attention_ext; [exact HL | congruence | | exact Hp].
    intros p' k Hp' Hk. apply Hx; [exact Hp' | congruence]. }
  unfold BlockSpec.x2. rewrite HD, HD'.
  apply layer_norm_ext; [|exact Hcd].
  intros c' Hc'. rewrite (H1 c' Hc'). f_equal.
  apply (@feed_forward_ext self D H _ _ c' Hc). exact H1.
Qed.

Lemma block_spec_perm (self : TransformerBlock.t) (D H : nat)
    (pi : list nat) (x : Tensor3) n q c :
  TransformerBlock.constructed D H self ->
  size2 x = D ->
  Permutation pi (seq 0 (size1 x)) ->
  (c < D)%nat ->
  BlockSpec.x2 self (permute_positions pi x) n q c
  = BlockSpec.x2 self x n (nth q pi 0%nat) c.
Proof.
  intros Hc HD Hp Hcd.
  assert (H1 : forall c', (c' < D)%nat ->
            BlockSpec.x1 self (permute_positions pi x) n q c'
            = BlockSpec.x1 self x n (nth q pi 0%nat) c').
  { intros c' Hc'. unfold BlockSpec.x1.
    cbn [size2 permute_positions]. rewrite HD.
    apply layer_norm_ext; [|exact Hc'].
    intros c'' _. rewrite (@attention_perm
                             (TransformerBlock.attention self) pi x n q c'' Hp).
    reflexivity. }
  unfold BlockSpec.x2. cbn [size2 permute_positions]. rewrite HD.
  apply layer_norm_ext; [|exact Hcd].
  intros c' Hc'. rewrite (H1 c' Hc'). f_equal.
  apply (@feed_forward_ext self D H _ _ c' Hc). exact H1.
Qed.

(** Blocks send equal tensors to equal tensors. *)
Lemma block_forward_same3 (self : TransformerBlock.t) (D H : nat)
    (x x' : Tensor3) :
  TransformerBlock.constructed D H self ->
  size2 x = D ->
  same3 x x' ->
  exists y y',
    TransformerBlock.forward self x = Ok y /\
    TransformerBlock.forward self x' = Ok y' /\
    same3 y y'.
Proof.
  intros Hc HD [Hsh Hxx'].
  apply shape3_eq in Hsh. destruct Hsh as [E0 [E1 E2]].
  destruct (@block_forward self D H x Hc HD) as [y [Hy [Hysh Hyat]]].
  destruct (@block_forward self D H x' Hc) as [y' [Hy' [Hysh' Hyat']]];
    [congruence|].
  exists y, y'. split; [exact Hy|]. split; [exact Hy'|].
  apply shape3_eq in Hysh. destruct Hysh as [A0 [A1 A2]].
  apply shape3_eq in Hysh'. destruct Hysh' as [B0 [B1 B2]].
  cbn [BlockSpec.block size0 size1 size2] in A0, A1, A2, B0, B1, B2.
  split; [unfold shape3; congruence|].
  intros n p c Hn Hp Hcd.
  rewrite Hyat by assumption. rewrite Hyat' by congruence.
  cbn [BlockSpec.block at3].
  apply (@block_spec_ext self D H x x' n p c Hc HD);
    [congruence | congruence | | congruence | congruence].
  intros p' c' Hp' Hc'. apply Hxx'; congruence.
Qed.

Lemma block_forward_perm (self : TransformerBlock.t) (D H : nat)
    (pi : list nat) (x : Tensor3) :
  TransformerBlock.constructed D H self ->
  size2 x = D ->
  Permutation pi (seq 0 (size1 x)) ->
  exists y y',
    TransformerBlock.forward self x = Ok y /\
    TransformerBlock.forward self (permute_positions pi x) = Ok y' /\
    same3 y' (permute_positions pi y).
Proof.
  intros Hc HD Hp.
  assert (Hlen : length pi = size1 x)
    by (rewrite (Permutation_length Hp); apply length_seq).
  destruct (@block_forward self D H x Hc HD) as [y [Hy [Hysh Hyat]]].
  destruct (@block_forward self D H (permute_positions pi x) Hc HD)
    as [y' [Hy' [Hysh' Hyat']]].
  exists y, y'. split; [exact Hy|]. split; [exact Hy'|].
  apply shape3_eq in Hysh. destruct Hysh as [A0 [A1 A2]].
  apply shape3_eq in Hysh'. destruct Hysh' as [B0 [B1 B2]].
  cbn [BlockSpec.block size0 size1 size2 permute_positions]
    in A0, A1, A2, B0, B1, B2.
  split.
  - unfold shape3. cbn [permute_positions size0 size1 size2]. congruence.
  - intros n q c Hn Hq Hcd.
    rewrite Hyat' by assumption.
    cbn [permute_positions at3 BlockSpec.block].
    rewrite Hyat.
    + cbn [BlockSpec.block at3].
      apply (@block_spec_perm self D H pi x n q c Hc HD Hp). congruence.
    + congruence.
    + rewrite A1. apply (perm_nth_lt Hp). congruence.
    + congruence.
Qed.

Lemma same3_trans (a b c : Tensor3) : same3 a b -> same3 b c -> same3 a c.
Proof.
  intros [Hab Hab'] [Hbc Hbc']. split; [congruence|].
  apply shape3_eq in Hab. destruct Hab as [E0 [E1 E2]].
  intros i j k Hi Hj Hk. rewrite Hab' by assumption.
  apply Hbc'; congruence.
Qed.

Lemma sequential_perm (D H : nat) (pi : list nat)
    (blocks : list TransformerBlock.t) :
  Forall (TransformerBlock.constructed D H) blocks ->
  forall x x',
    size2 x = D ->
    Permutation pi (seq 0 (size1 x)) ->
    same3 x' (permute_positions pi x) ->
    exists y y',
      SimpleLLM.sequential blocks x = Ok y /\
      SimpleLLM.sequential blocks x' = Ok y' /\
      same3 y' (permute_positions pi y).
Proof.
  induction 1 as [|b rest Hb _ IH]; intros x x' HD Hp Hxx'.
  - exists x, x'. split; [reflexivity|]. split; [reflexivity | exact Hxx'].
  - cbn [SimpleLLM.sequential].
    destruct (@block_forward_perm b D H pi x Hb HD Hp)
      as [y [yp [Hy [Hyp Hsame]]]].
    assert (Hx'D : size2 x' = D).
    { destruct Hxx' as [Hsh _]. apply shape3_eq in Hsh.
      cbn [permute_positions size2] in Hsh. destruct Hsh as [_ [_ E]].
      congruence. }
    destruct (@block_forward_same3 b D H x' (permute_positions pi x)
                Hb Hx'D Hxx') as [y' [yp' [Hy' [Hyp' Hsame']]]].
    rewrite Hyp in Hyp'. apply Ok_inj in Hyp'. subst yp'.
    rewrite Hy, Hy'. cbn [bind].
    destruct (@block_forward b D H x Hb HD) as [y0 [Hy0 [Hsh0 _]]].
    rewrite Hy in Hy0. apply Ok_inj in Hy0. subst y0.
    apply shape3_eq in Hsh0. destruct Hsh0 as [S0 [S1 S2]].
    cbn [BlockSpec.block size0 size1 size2] in S0, S1, S2.
    apply IH.
    + congruence.
    + rewrite S1. exact Hp.
    + eapply same3_trans; eassumption.
Qed.

Lemma same3_refl (a : Tensor3) : same3 a a.
Proof. split; [reflexivity | intros; reflexivity]. Qed.

End Equivariance.

(** X15. A transformer block is permutation-equivariant: on the sequence
    re-ordered by a permutation of its positions it returns the output of
    the original sequence, re-ordered the same way. *)
Theorem TransformerBlock_permutation_equivariant :
  forall (self : TransformerBlock.t) (D H : nat) (pi : list nat)
         (x : Tensor3),
    TransformerBlock.constructed D H self ->
    size2 x = D ->
    Permutation pi (seq 0 (size1 x)) ->
    exists y y',
      TransformerBlock.forward self x = Ok y /\
      TransformerBlock.forward self (permute_positions pi x) = Ok y' /\
      same3 y' (permute_positions pi y).
Proof. intros self D H pi x. apply block_forward_perm. Qed.

Lemma TransformerBlock_permutation_equivariant_witness :
  exists y y',
    TransformerBlock.forward tiny_block (ramp 1 2 2) = Ok y /\
    TransformerBlock.forward tiny_block
      (permute_positions [1%nat; 0%nat] (ramp 1 2 2)) = Ok y' /\
    same3 y' (permute_positions [1%nat; 0%nat] y).
Proof.
  apply (@TransformerBlock_permutation_equivariant tiny_block 2%nat 3%nat
           [1%nat; 0%nat] (ramp 1 2 2)).
  - constructed_by_computation.
  - reflexivity.
  - apply perm_swap.
Defined.

(** X16. The stack of blocks of the model is permutation-equivariant:
    between the positional encoding and the output layer, nothing depends
    on the order of the positions. *)
Theorem transformer_stack_permutation_equivariant :
  forall (D H : nat) (blocks : list TransformerBlock.t) (pi : list nat)
         (x : Tensor3),
    Forall (TransformerBlock.constructed D H) blocks ->
    size2 x = D ->
    Permutation pi (seq 0 (size1 x)) ->
    exists y y',
      SimpleLLM.sequential blocks x = Ok y /\
      SimpleLLM.sequential blocks (permute_positions pi x) = Ok y' /\
      same3 y' (permute_positions pi y).
Proof.
  intros D H blocks pi x Hb HD Hp.
  apply (@sequential_perm D H pi blocks Hb x (permute_positions pi x) HD Hp).
  apply same3_refl.
Qed.

Lemma transformer_stack_permutation_equivariant_witness :
  exists y y',
    SimpleLLM.sequential [tiny_block; tiny_block] (ramp 1 2 2) = Ok y /\
    SimpleLLM.sequential [tiny_block; tiny_block]
      (permute_positions [1%nat; 0%nat] (ramp 1 2 2)) = Ok y' /\
    same3 y' (permute_positions [1%nat; 0%nat] y).
Proof.
  apply (@transformer_stack_permutation_equivariant 2%nat 3%nat
           [tiny_block; tiny_block] [1%nat; 0%nat] (ramp 1 2 2)).
  - repeat (apply Forall_cons; [constructed_by_computation|]).
    apply Forall_nil.
  - reflexivity.
  - apply perm_swap.
Defined.

(** X17. Running a stack of blocks is running its first part, then its
    second part on the result (an exception of the first part ends the
    run); the empty stack returns its input; a stack of constructed blocks
    keeps the shape. *)
Theorem sequential_composes :
  forall (D H : nat) (blocks1 blocks2 : list TransformerBlock.t)
         (x : Tensor3),
    SimpleLLM.sequential (blocks1 ++ blocks2) x
      = (y <- SimpleLLM.sequential blocks1 x ;;
         SimpleLLM.sequential blocks2 y) /\
    SimpleLLM.sequential [] x = Ok x /\
    (Forall (TransformerBlock.constructed D H) blocks1 ->
     size2 x = D ->
     exists y, SimpleLLM.sequential blocks1 x = Ok y /\
               shape3 y = shape3 x).
Proof.
  intros D H blocks1 blocks2 x. split; [apply sequential_app|].
  split; [reflexivity|].
  intros Hb HD. apply (@sequential_shape D H blocks1 Hb x HD).
Qed.

(* ================================================================== *)
(** * Further properties of the model, of the loss and of the loops *)

Section ModelMore.

Lemma default_max_above_one :
  (1 < PositionalEncoding.default_max_seq_len)%nat.
Proof. apply Nat.ltb_lt. reflexivity. Qed.

(** One exponential is at most the sum of all of them. *)
Lemma softmax_entry_le_one n (f : nat -> R) c :
  (c < n)%nat ->
  0 < exp (f c) / sigma n (fun k => exp (f k)) <= 1.
Proof.
  intros Hc.
  assert (Hs : 0 < sigma n (fun k => exp (f k)))
    by (apply exp_sum_pos; lia).
  split.
  - apply Rdiv_lt_0_compat; [apply exp_pos | exact Hs].
  - apply (Rmult_le_reg_r (sigma n (fun k => exp (f k)))); [exact Hs|].
    unfold Rdiv. rewrite Rmult_assoc, Rinv_l by lra.
    rewrite Rmult_1_r, Rmult_1_l.
    apply (@term_le_sigma n (fun k => exp (f k)) c); [|exact Hc].
    intros i. left. apply exp_pos.
Qed.

Lemma nll_nonneg (input : Tensor2) (n : nat) (t : Z) :
  Tokenizer.id_in_range (cols input) t -> 0 <= nll input n t.
Proof.
  intros Ht. unfold nll.
  destruct (@softmax_entry_le_one (cols input) (at2 input n) (Z.to_nat t))
    as [Hpos Hle].
  - unfold Tokenizer.id_in_range in Ht. lia.
  - destruct Hle as [Hlt|Heq].
    + pose proof (ln_increasing _ _ Hpos Hlt) as Hln.
      rewrite ln_1 in Hln. lra.
    + rewrite Heq, ln_1. lra.
Qed.

Lemma counted_in_range (V : nat) (t : Z) :
  Tokenizer.id_in_range V t -> counted t = true.
Proof.
  unfold Tokenizer.id_in_range, counted, ignore_index. intros Ht.
  apply negb_true_iff. apply Z.eqb_neq. lia.
Qed.

End ModelMore.

(** X18. The model raises on a prompt longer than the 5000 rows of the
    default positional table: the addition of the table cannot broadcast
    L > 5000 positions against 5000. *)
Theorem SimpleLLM_forward_too_long :
  forall (V D H N : nat) (m : SimpleLLM.t) (ids : list Z),
    SimpleLLM.constructed V D H N m ->
    Forall (Tokenizer.id_in_range V) ids ->
    (PositionalEncoding.default_max_seq_len < length ids)%nat ->
    SimpleLLM.forward m (long_row ids)
    = Raise (SizeMismatch (length ids)
                          PositionalEncoding.default_max_seq_len 0).
Proof.
  intros V D H N m ids [[Hev [Hed _]] [Hpe _]] Hids Hlen.
  pose proof default_max_above_one as Hmax.
  unfold SimpleLLM.forward, Embedding.forward, nn_Embedding_forward.
  rewrite Hev, (long_row_valid Hids). cbn [bind].
  destruct (@init_table D PositionalEncoding.default_max_seq_len
              (SimpleLLM.positional_encoding m) Hpe)
    as [_ [_ [Hshape _]]].
  apply shape3_eq in Hshape. destruct Hshape as [Hs0 [Hs1 Hs2]].
  rewrite forward_beyond.
  - unfold PositionalEncoding.max_seq_len. rewrite Hs0. reflexivity.
  - exact Hs1.
  - rewrite Hs2. cbn [size2 transpose01]. symmetry. exact Hed.
  - unfold PositionalEncoding.max_seq_len. rewrite Hs0.
    cbn [size0 transpose01 size1 long_row lcols]. exact Hlen.
  - unfold PositionalEncoding.max_seq_len. rewrite Hs0. lia.
  - cbn [size0 transpose01 size1 long_row lcols]. lia.
Qed.

Lemma SimpleLLM_forward_too_long_witness :
  SimpleLLM.forward tiny_model
    (long_row (repeat 0%Z (S PositionalEncoding.default_max_seq_len)))
  = Raise (SizeMismatch
             (length (repeat 0%Z (S PositionalEncoding.default_max_seq_len)))
             PositionalEncoding.default_max_seq_len 0).
Proof.
  apply (@SimpleLLM_forward_too_long 6%nat 2%nat 3%nat 1%nat tiny_model
           (repeat 0%Z (S PositionalEncoding.default_max_seq_len))).
  - exact tiny_model_constructed.
  - apply Forall_forall. intros id Hin. apply repeat_spec in Hin. subst id.
    unfold Tokenizer.id_in_range. lia.
  - rewrite repeat_length. apply Nat.lt_succ_diag_r.
Defined.

(** X19. The loss of one training example is the cross-entropy of the
    logits of the last position: ln(sum_c exp(logit c)) - logit target; it
    is never negative. *)
Theorem example_loss_nonnegative :
  forall (V D H N : nat) (m : SimpleLLM.t) (ids : list Z) (t : Z),
    SimpleLLM.constructed V D H N m ->
    ids <> [] ->
    Forall (Tokenizer.id_in_range V) ids ->
    (length ids <= PositionalEncoding.default_max_seq_len)%nat ->
    Tokenizer.id_in_range V t ->
    exists logits v,
      SimpleLLM.forward m (long_row ids) = Ok logits /\
      example_loss m (long_row ids) [t] = Ok v /\
      v = ln (sigma V (fun c => exp (at3 logits 0 (length ids - 1) c)))
          - at3 logits 0 (length ids - 1) (Z.to_nat t) /\
      0 <= v.
Proof.
  intros V D H N m ids t Hc Hne Hids Hlen Ht.
  destruct (@SimpleLLM_forward_shape V D H N m ids Hc Hids Hlen)
    as [out [Hf Hsh]].
  apply shape3_eq in Hsh. destruct Hsh as [Hs0 [Hs1 Hs2]].
  exists out.
  unfold example_loss. rewrite Hf. cbn [bind].
  unfold select_last. rewrite Hs1.
  destruct (length ids) as [|l] eqn:El;
    [destruct ids; [congruence | discriminate]|].
  replace (S l - 1)%nat with l by lia.
  cbn [bind]. unfold CrossEntropyLoss, valid_target. cbn [rows cols length].
  rewrite Hs0, Hs2. cbn [Nat.eqb negb forallb].
  rewrite (proj2 (valid_index_spec V t) Ht). cbn [andb orb negb].
  cbn [filter nth]. rewrite (@counted_in_range V t Ht). cbn [length].
  unfold sigma at 1. cbn [seq map Rsum fold_right nth].
  eexists. split; [reflexivity|]. split; [reflexivity|].
  set (last := {| rows := 1; cols := V;
                  at2 := fun n c => at3 out n l c |}).
  assert (Hnll : 0 <= nll last 0 t) by (apply nll_nonneg; exact Ht).
  assert (Hform : nll last 0 t
                  = ln (sigma V (fun c => exp (at3 out 0 l c)))
                    - at3 out 0 l (Z.to_nat t)).
  { unfold nll, last. cbn [at2 cols].
    assert (Hs : 0 < sigma V (fun c => exp (at3 out 0 l c))).
    { apply exp_sum_pos. unfold Tokenizer.id_in_range in Ht. lia. }
    unfold Rdiv. rewrite ln_mult;
      [| apply exp_pos | apply Rinv_0_lt_compat, Hs].
    rewrite ln_exp, ln_Rinv by exact Hs. ring. }
  rewrite (@counted_in_range V t Ht).
  split.
  - rewrite <- Hform. cbn [INR]. field.
  - cbn [INR]. replace ((nll last 0 t + 0) / 1) with (nll last 0 t) by field.
    exact Hnll.
Qed.

Lemma example_loss_nonnegative_witness :
  exists logits v,
    SimpleLLM.forward tiny_model (long_row [0; 1; 2]%Z) = Ok logits /\
    example_loss tiny_model (long_row [0; 1; 2]%Z) [3%Z] = Ok v /\
    v = ln (sigma 6 (fun c => exp (at3 logits 0 (3 - 1) c)))
        - at3 logits 0 (3 - 1) (Z.to_nat 3) /\
    0 <= v.
Proof.
  apply (@example_loss_nonnegative 6%nat 2%nat 3%nat 1%nat tiny_model
           [0; 1; 2]%Z 3%Z).
  - exact tiny_model_constructed.
  - discriminate.
  - repeat constructor; unfold Tokenizer.id_in_range; simpl; lia.
  - unfold PositionalEncoding.default_max_seq_len. simpl. lia.
  - unfold Tokenizer.id_in_range. simpl. lia.
Defined.

Section TrainingMore.

Variable OptState : Type.
Variable autograd :
  (SimpleLLM.Parameters -> result R) ->
  SimpleLLM.Parameters -> SimpleLLM.Parameters.
Variable accumulate :
  SimpleLLM.Parameters -> SimpleLLM.Parameters -> SimpleLLM.Parameters.
Variable adam :
  OptState -> SimpleLLM.Parameters -> SimpleLLM.Parameters ->
  OptState * SimpleLLM.Parameters.

Lemma example_loss_bad_target (V D H N : nat) (m : SimpleLLM.t)
    (ids : list Z) (t : Z) :
  SimpleLLM.constructed V D H N m ->
  ids <> [] ->
  Forall (Tokenizer.id_in_range V) ids ->
  (length ids <= PositionalEncoding.default_max_seq_len)%nat ->
  ~ Tokenizer.id_in_range V t ->
  t <> ignore_index ->
  example_loss m (long_row ids) [t] = Raise IndexError.
Proof.
  intros Hc Hne Hids Hlen Ht Hig.
  destruct (@SimpleLLM_forward_shape V D H N m ids Hc Hids Hlen)
    as [out [Hf Hsh]].
  apply shape3_eq in Hsh. destruct Hsh as [Hs0 [Hs1 Hs2]].
  unfold example_loss. rewrite Hf. cbn [bind].
  unfold select_last. rewrite Hs1.
  destruct (length ids) as [|l] eqn:El;
    [destruct ids; [congruence | discriminate]|].
  cbn [bind]. unfold CrossEntropyLoss, valid_target. cbn [rows cols length].
  rewrite Hs0, Hs2. cbn [Nat.eqb negb forallb].
  replace (valid_index V t) with false.
  2:{ symmetry. apply not_true_is_false. intros E.
      apply Ht, valid_index_spec, E. }
  replace (counted t) with true.
  2:{ symmetry. unfold counted. apply negb_true_iff, Z.eqb_neq, Hig. }
  reflexivity.
Qed.

Lemma sentences_without_examples (data : list (list Z))
    (st : State OptState) :
  Forall (fun sentence => (length sentence < 2)%nat) data ->
  for_each data (train_sentence autograd accumulate adam) st = (Ok tt, st).
Proof.
  induction 1 as [|s data Hs _ IH]; [reflexivity|].
  cbn [for_each]. unfold seq_run.
  replace (train_sentence autograd accumulate adam s st) with (Ok tt, st).
  - exact IH.
  - unfold train_sentence, range.
    replace (length s - 1)%nat with 0%nat by lia. reflexivity.
Qed.

End TrainingMore.

Section TrainingTheorems.

Variable OptState : Type.
Variable autograd :
  (SimpleLLM.Parameters -> result R) ->
  SimpleLLM.Parameters -> SimpleLLM.Parameters.
Variable accumulate :
  SimpleLLM.Parameters -> SimpleLLM.Parameters -> SimpleLLM.Parameters.
Variable adam :
  OptState -> SimpleLLM.Parameters -> SimpleLLM.Parameters ->
  OptState * SimpleLLM.Parameters.

(** X20. A target id outside the vocabulary (and not -100, the ignored
    index) makes the loop raise IndexError at the loss: the gradients have
    been cleared by then, and neither the parameters nor the optimizer nor
    the variable [loss] have been written. *)
Theorem train_prefix_bad_target :
  forall (V D H N : nat) (sentence : list Z) (i : nat)
         (st : State OptState),
    SimpleLLM.constructed V D H N (model st) ->
    (1 <= i < length sentence)%nat ->
    (i <= PositionalEncoding.default_max_seq_len)%nat ->
    Forall (Tokenizer.id_in_range V) (firstn i sentence) ->
    is_int64 (nth i sentence 0%Z) = true ->
    ~ Tokenizer.id_in_range V (nth i sentence 0%Z) ->
    nth i sentence 0%Z <> ignore_index ->
    train_prefix autograd accumulate adam sentence i st
    = (Raise IndexError,
       {| model := model st; grad := None;
          optimizer := optimizer st; loss := loss st |}).
Proof.
  intros V D H N sentence i st Hc Hi Hmax Hids Hint Hbad Hig.
  rewrite train_prefix_is_spec by lia.
  unfold spec_train_example.
  assert (Hne : firstn i sentence <> []).
  { intros E. apply (f_equal (@length Z)) in E.
    rewrite length_firstn in E. cbn [length] in E. lia. }
  assert (HV : (Z.of_nat V < 2 ^ 63)%Z) by apply Hc.
  rewrite (@tensor_row_returns V (firstn i sentence) HV Hne Hids).
  unfold tensor_item. rewrite Hint. cbn [bind].
  rewrite (@example_loss_bad_target V D H N (model st) (firstn i sentence)
             (nth i sentence 0%Z) Hc Hne Hids).
  - reflexivity.
  - rewrite length_firstn. lia.
  - exact Hbad.
  - exact Hig.
Qed.

(** X21. Data without a single example (every sentence shorter than two
    tokens) leaves the state as it is; the variable [loss] is then never
    assigned, so the print of the first epoch raises NameError unless
    [loss] was bound before the loop. *)
Theorem train_without_examples :
  forall (epochs : nat) (tokenized_data : list (list Z))
         (st : State OptState),
    Forall (fun sentence => (length sentence < 2)%nat) tokenized_data ->
    train autograd accumulate adam 0 tokenized_data st = (Ok tt, st) /\
    (loss st = None ->
     train autograd accumulate adam (S epochs) tokenized_data st
     = (Raise NameError, st)) /\
    (loss st <> None ->
     train autograd accumulate adam epochs tokenized_data st = (Ok tt, st)).
Proof.
  intros epochs data st Hdata. split; [reflexivity|]. split.
  - intros Hloss. unfold train, range.
    rewrite Nat.sub_0_r. cbn [seq for_each]. unfold seq_run at 1.
    unfold train_epoch at 1, seq_run at 1.
    rewrite (sentences_without_examples autograd accumulate adam st Hdata).
    cbn. unfold print_loss. rewrite Hloss. reflexivity.
  - intros Hloss. unfold train, range. rewrite Nat.sub_0_r.
    generalize 0%nat. induction epochs as [|e IH]; intros k; [reflexivity|].
    cbn [seq for_each]. unfold seq_run at 1.
    unfold train_epoch at 1, seq_run at 1.
    rewrite (sentences_without_examples autograd accumulate adam st Hdata).
    assert (Hp : forall b : bool,
               (if b then @print_loss OptState else ret tt) st = (Ok tt, st)).
    { intros [|]; [|reflexivity]. unfold print_loss.
      destruct (loss st); [reflexivity | congruence]. }
    rewrite Hp. apply IH.
Qed.

(** X22. On a text without words the prediction raises, whatever the
    vocabulary and the model: the empty token list gives an empty float
    tensor, which the embedding lookup rejects for its dtype (the exception
    [TypeError] of [tensor_row]); the state is left as it is. *)
Theorem predict_text_without_words :
  forall (text : Tokenizer.str) (vocab : Tokenizer.dict)
         (st : State OptState),
    Tokenizer.count_words true text = 0%nat ->
    predict text vocab st = (Raise TypeError, st).
Proof.
  intros text vocab st Hw. unfold predict, seq_run at 1, lift.
  unfold Tokenizer.tokenize.
  assert (Hs : Tokenizer.split text = []).
  { apply length_zero_iff_nil. rewrite split_length. exact Hw. }
  rewrite Hs. cbn [mapM]. unfold seq_run at 1, predict_token, seq_run at 1.
  reflexivity.
Qed.

End TrainingTheorems.

Lemma train_prefix_bad_target_witness :
  train_prefix no_gradient first_gradient counting_adam [0; 1; 6]%Z 2
               tiny_state
  = (Raise IndexError,
     {| model := model tiny_state; grad := None;
        optimizer := optimizer tiny_state; loss := loss tiny_state |}).
Proof.
  apply (@train_prefix_bad_target nat no_gradient first_gradient
           counting_adam 6%nat 2%nat 3%nat 1%nat [0; 1; 6]%Z 2%nat
           tiny_state).
  - exact tiny_model_constructed.
  - simpl. lia.
  - unfold PositionalEncoding.default_max_seq_len. simpl. lia.
  - repeat constructor; unfold Tokenizer.id_in_range; simpl; lia.
  - reflexivity.
  - unfold Tokenizer.id_in_range. simpl. lia.
  - discriminate.
Defined.

Lemma train_without_examples_witness :
  train no_gradient first_gradient counting_adam 0 [[0%Z]; []] tiny_state
    = (Ok tt, tiny_state) /\
  (loss tiny_state = None ->
   train no_gradient first_gradient counting_adam 1 [[0%Z]; []] tiny_state
   = (Raise NameError, tiny_state)) /\
  (loss tiny_state <> None ->
   train no_gradient first_gradient counting_adam 0 [[0%Z]; []] tiny_state
   = (Ok tt, tiny_state)).
Proof.
  apply (@train_without_examples nat no_gradient first_gradient
           counting_adam 0%nat [[0%Z]; []] tiny_state).
  repeat constructor.
Defined.

Lemma predict_text_without_words_witness :
  predict (Tokenizer.str_of_string "  ") vocab tiny_state
  = (Raise TypeError, tiny_state).
Proof.
  apply (@predict_text_without_words nat (Tokenizer.str_of_string "  ")
           vocab tiny_state).
  reflexivity.
Defined.

(** ** Counting the optimizer steps *)

Section CountingSteps.

Variable OptState : Type.
Variable autograd :
  (SimpleLLM.Parameters -> result R) ->
  SimpleLLM.Parameters -> SimpleLLM.Parameters.
Variable accumulate :
  SimpleLLM.Parameters -> SimpleLLM.Parameters -> SimpleLLM.Parameters.
Variable adam :
  OptState -> SimpleLLM.Parameters -> SimpleLLM.Parameters ->
  OptState * SimpleLLM.Parameters.

(** The step counter of the optimizer state. *)
Variable steps : OptState -> nat.

Variables V D H N : nat.

Hypothesis adam_keeps_shapes :
  forall m o g,
    SimpleLLM.constructed V D H N m ->
    SimpleLLM.constructed V D H N
      (SimpleLLM.update_parameters m
         (snd (adam o (SimpleLLM.parameters m) g))).

Hypothesis adam_counts :
  forall o p g, steps (fst (adam o p g)) = S (steps o).

Lemma counted_prefix (sentence : list Z) (i : nat) (st : State OptState) :
  SimpleLLM.constructed V D H N (model st) ->
  Forall (Tokenizer.id_in_range V) sentence ->
  (length sentence <= S PositionalEncoding.default_max_seq_len)%nat ->
  (1 <= i < length sentence)%nat ->
  exists st',
    train_prefix autograd accumulate adam sentence i st = (Ok tt, st') /\
    SimpleLLM.constructed V D H N (model st') /\
    steps (optimizer st') = S (steps (optimizer st)) /\
    loss st' <> None.
Proof.
  intros Hc Hids Hlen Hi.
  rewrite train_prefix_is_spec by lia. unfold spec_train_example.
  assert (Hne : firstn i sentence <> []).
  { intros E. apply (f_equal (@length Z)) in E.
    rewrite length_firstn in E. cbn [length] in E. lia. }
  assert (Hpre : Forall (Tokenizer.id_in_range V) (firstn i sentence)).
  { apply Forall_forall. intros id Hin.
    rewrite Forall_forall in Hids. apply Hids.
    rewrite <- (firstn_skipn i sentence). apply in_or_app. left. exact Hin. }
  assert (Ht : Tokenizer.id_in_range V (nth i sentence 0%Z)).
  { rewrite Forall_forall in Hids. apply Hids, nth_In. lia. }
  assert (HV : (Z.of_nat V < 2 ^ 63)%Z) by apply Hc.
  rewrite (@tensor_row_returns V (firstn i sentence) HV Hne Hpre),
    (@tensor_item_returns V (nth i sentence 0%Z) HV Ht). cbn [bind].
  destruct (@example_loss_returns V D H N (model st) (firstn i sentence)
              (nth i sentence 0%Z) Hc Hne Hpre) as [v Hv];
    [rewrite length_firstn; lia | exact Ht |].
  rewrite Hv.
  match goal with
  | |- context [adam ?o ?p ?g] =>
      pose proof (@adam_keeps_shapes (model st) o g Hc) as Hk;
      pose proof (adam_counts o p g) as Hs;
      destruct (adam o p g) as [o' p']
  end.
  eexists. split; [reflexivity|]. cbn [model optimizer loss].
  split; [exact Hk|]. split; [exact Hs | discriminate].
Qed.

Lemma counted_prefixes (sentence : list Z) :
  Forall (Tokenizer.id_in_range V) sentence ->
  (length sentence <= S PositionalEncoding.default_max_seq_len)%nat ->
  forall n start (st : State OptState),
    (1 <= start)%nat ->
    (start + n <= length sentence)%nat ->
    SimpleLLM.constructed V D H N (model st) ->
    exists st',
      for_each (seq start n)
               (train_prefix autograd accumulate adam sentence) st
      = (Ok tt, st') /\
      SimpleLLM.constructed V D H N (model st') /\
      steps (optimizer st') = (steps (optimizer st) + n)%nat /\
      (loss st <> None \/ (0 < n)%nat -> loss st' <> None).
Proof.
  intros Hids Hlen. induction n as [|n IH]; intros start st Hstart Hn Hc.
  - exists st. split; [reflexivity|]. split; [exact Hc|].
    split; [lia|]. intros [Hl|Hl]; [exact Hl | lia].
  - cbn [seq for_each]. unfold seq_run.
    destruct (@counted_prefix sentence start st Hc Hids Hlen)
      as [st1 [E1 [Hm1 [Ho1 Hl1]]]]; [lia|].
    rewrite E1.
    destruct (IH (S start) st1) as [st2 [E2 [Hm2 [Ho2 Hl2]]]];
      [lia | lia | exact Hm1 |].
    exists st2. split; [exact E2|]. split; [exact Hm2|].
    split; [lia|]. intros _. apply Hl2. left. exact Hl1.
Qed.

Lemma counted_sentence (sentence : list Z) (st : State OptState) :
  Forall (Tokenizer.id_in_range V) sentence ->
  (length sentence <= S PositionalEncoding.default_max_seq_len)%nat ->
  SimpleLLM.constructed V D H N (model st) ->
  exists st',
    train_sentence autograd accumulate adam sentence st = (Ok tt, st') /\
    SimpleLLM.constructed V D H N (model st') /\
    steps (optimizer st')
    = (steps (optimizer st) + (length sentence - 1))%nat /\
    (loss st <> None \/ (0 < length sentence - 1)%nat -> loss st' <> None).
Proof.
  intros Hids Hlen Hc. unfold train_sentence, range.
  destruct (Nat.eq_dec (length sentence) 0) as [E0|E0].
  - rewrite E0. exists st. split; [reflexivity|]. split; [exact Hc|].
    split; [cbn; lia|]. intros [Hl|Hl]; [exact Hl | cbn in Hl; lia].
  - apply counted_prefixes; [exact Hids | exact Hlen | lia | lia | exact Hc].
Qed.

Lemma counted_sentences (data : list (list Z)) :
  Forall (fun sentence =>
            Forall (Tokenizer.id_in_range V) sentence /\
            (length sentence
             <= S PositionalEncoding.default_max_seq_len)%nat) data ->
  forall st : State OptState,
    SimpleLLM.constructed V D H N (model st) ->
    exists st',
      for_each data (train_sentence autograd accumulate adam) st
      = (Ok tt, st') /\
      SimpleLLM.constructed V D H N (model st') /\
      steps (optimizer st')
      = (steps (optimizer st) + count_examples data)%nat /\
      (loss st <> None \/ (0 < count_examples data)%nat -> loss st' <> None).
Proof.
  induction 1 as [|s data [Hids Hlen] _ IH]; intros st Hc.
  - exists st. split; [reflexivity|]. split; [exact Hc|].
    split; [cbn; lia|]. intros [Hl|Hl]; [exact Hl | cbn in Hl; lia].
  - cbn [for_each count_examples fold_right]. unfold seq_run.
    destruct (@counted_sentence s st Hids Hlen Hc)
      as [st1 [E1 [Hm1 [Ho1 Hl1]]]].
    rewrite E1.
    destruct (IH st1 Hm1) as [st2 [E2 [Hm2 [Ho2 Hl2]]]].
    exists st2. split; [exact E2|]. split; [exact Hm2|].
    fold (count_examples data). split; [lia|].
    intros Hor. apply Hl2.
    destruct (Nat.eq_dec (length s - 1) 0) as [Ez|Ez].
    + destruct Hor as [Hl|Hl]; [left; apply Hl1; left; exact Hl | right; lia].
    + left. apply Hl1. right. lia.
Qed.

Lemma counted_epochs (data : list (list Z)) :
  Forall (fun sentence =>
            Forall (Tokenizer.id_in_range V) sentence /\
            (length sentence
             <= S PositionalEncoding.default_max_seq_len)%nat) data ->
  forall epochs first (st : State OptState),
    SimpleLLM.constructed V D H N (model st) ->
    (loss st <> None \/ (0 < count_examples data)%nat) ->
    exists st',
      for_each (seq first epochs)
               (train_epoch autograd accumulate adam data) st
      = (Ok tt, st') /\
      SimpleLLM.constructed V D H N (model st') /\
      steps (optimizer st')
      = (steps (optimizer st) + epochs * count_examples data)%nat.
Proof.
  intros Hd. induction epochs as [|e IH]; intros first st Hc Hor.
  - exists st. split; [reflexivity|]. split; [exact Hc | cbn; lia].
  - cbn [seq for_each]. unfold seq_run at 1, train_epoch at 1, seq_run at 1.
    destruct (@counted_sentences data Hd st Hc)
      as [st1 [E1 [Hm1 [Ho1 Hl1]]]].
    rewrite E1. specialize (Hl1 Hor).
    assert (Hp : forall b : bool,
               (if b then @print_loss OptState else ret tt) st1
               = (Ok tt, st1)).
    { intros [|]; [|reflexivity]. unfold print_loss.
      destruct (loss st1); [reflexivity | congruence]. }
    rewrite Hp.
    destruct (IH (S first) st1 Hm1) as [st2 [E2 [Hm2 Ho2]]];
      [left; exact Hl1 |].
    exists st2. split; [exact E2|]. split; [exact Hm2|].
    rewrite Ho2, Ho1. cbn [Nat.mul]. lia.
Qed.

End CountingSteps.

(** X23. The training loop makes exactly epochs * sum over the sentences
    of (len(S) - 1) optimizer steps, and returns: for any optimizer whose
    step keeps the shapes of the parameters and advances its step counter
    by one, on a constructed model and sentences of in-range ids that fit
    the positional table, provided there is an example at all (or [loss]
    is already bound). *)
Theorem train_counts_optimizer_steps :
  forall (OptState : Type) autograd accumulate
         (adam : OptState -> SimpleLLM.Parameters -> SimpleLLM.Parameters ->
                 OptState * SimpleLLM.Parameters)
         (steps : OptState -> nat)
         (V D H N : nat) (epochs : nat)
         (tokenized_data : list (list Z)) (st : State OptState),
    (forall m o g,
       SimpleLLM.constructed V D H N m ->
       SimpleLLM.constructed V D H N
         (SimpleLLM.update_parameters m
            (snd (adam o (SimpleLLM.parameters m) g)))) ->
    (forall o p g, steps (fst (adam o p g)) = S (steps o)) ->
    SimpleLLM.constructed V D H N (model st) ->
    Forall (fun sentence =>
              Forall (Tokenizer.id_in_range V) sentence /\
              (length sentence
               <= S PositionalEncoding.default_max_seq_len)%nat)
           tokenized_data ->
    (loss st <> None \/ (0 < count_examples tokenized_data)%nat) ->
    exists st',
      train autograd accumulate adam epochs tokenized_data st
      = (Ok tt, st') /\
      SimpleLLM.constructed V D H N (model st') /\
      steps (optimizer st')
      = (steps (optimizer st) + epochs * count_examples tokenized_data)%nat.
Proof.
  intros OptState autograd accumulate adam steps V D H N epochs data st
         Hk Hs Hc Hd Hor.
  unfold train, range. rewrite Nat.sub_0_r.
  apply (@counted_epochs OptState autograd accumulate adam steps V D H N
           Hk Hs data Hd epochs 0%nat st Hc Hor).
Qed.

(** The loop of cell 7 on its two tokenized sentences: 100 epochs of 8
    examples each. *)
Lemma train_counts_optimizer_steps_witness :
  exists st',
    train no_gradient first_gradient counting_adam num_epochs
          [ [0; 1; 2; 3; 4]; [2; 3; 4; 0; 1] ]%Z tiny_state
    = (Ok tt, st') /\
    SimpleLLM.constructed 6 2 3 1 (model st') /\
    optimizer st'
    = (optimizer tiny_state
       + num_epochs
         * count_examples [ [0; 1; 2; 3; 4]; [2; 3; 4; 0; 1] ]%Z)%nat.
Proof.
  apply (@train_counts_optimizer_steps nat no_gradient first_gradient
           counting_adam (fun n => n) 6%nat 2%nat 3%nat 1%nat num_epochs
           [ [0; 1; 2; 3; 4]; [2; 3; 4; 0; 1] ]%Z tiny_state).
  - apply counting_adam_keeps_shapes.
  - reflexivity.
  - exact tiny_model_constructed.
  - repeat (apply Forall_cons;
            [split;
             [repeat constructor; unfold Tokenizer.id_in_range; simpl; lia
             | unfold PositionalEncoding.default_max_seq_len; simpl; lia]|]).
    apply Forall_nil.
  - right. simpl. lia.
Defined.

(* ================================================================== *)
(** * The prediction and the two cells, end to end *)

Section PredictionReturns.

Variable OptState : Type.

Lemma predict_token_returns (V D H N : nat) (ids : list Z)
    (st : State OptState) :
  SimpleLLM.constructed V D H N (model st) ->
  ids <> [] ->
  Forall (Tokenizer.id_in_range V) ids ->
  (length ids <= PositionalEncoding.default_max_seq_len)%nat ->
  exists t, predict_token ids st = (Ok t, st) /\ (t < V)%nat.
Proof.
  intros Hc Hne Hids Hlen.
  destruct (@SimpleLLM_forward_shape V D H N (model st) ids Hc Hids Hlen)
    as [logits [Hf Hsh]].
  apply shape3_eq in Hsh. destruct Hsh as [Hs0 [Hs1 Hs2]].
  assert (HV : (0 < V)%nat).
  { destruct ids as [|i ids']; [congruence|].
    inversion Hids as [|? ? Hi _]. unfold Tokenizer.id_in_range in Hi. lia. }
  assert (HL : (0 < length ids)%nat)
    by (destruct ids; [congruence | cbn; lia]).
  assert (Hlast : select_last logits
                  = Ok {| rows := size0 logits; cols := size2 logits;
                          at2 := fun n c =>
                            at3 logits n (length ids - 1) c |}).
  { unfold select_last. rewrite Hs1.
    destruct (length ids) as [|l]; [lia|].
    replace (S l - 1)%nat with l by lia. reflexivity. }
  match type of Hlast with
  | _ = Ok ?last =>
      destruct (@argmax_single_row last) as [t [Ht [Htlt _]]];
        [exact Hs0 | cbn [cols]; lia |]
  end.
  cbn [cols] in Htlt.
  exists t. split; [|lia].
  unfold predict_token, seq_run, call_model, last_position, lift.
  rewrite (@tensor_row_returns V ids (proj2 (proj2 (proj1 Hc))) Hne Hids).
  rewrite Hf. cbn [bind value]. rewrite Hlast. cbn [bind value].
  rewrite Ht. reflexivity.
Qed.

Lemma tokenize_returns (text : Tokenizer.str) (vocab : Tokenizer.dict)
    (V : nat) :
  Tokenizer.contains_key vocab Tokenizer.UNK ->
  Tokenizer.values_in_range vocab V ->
  exists ids,
    Tokenizer.tokenize text vocab = Ok ids /\
    length ids = Tokenizer.count_words true text /\
    Forall (Tokenizer.id_in_range V) ids.
Proof.
  intros [unk Hunk] Hrange.
  assert (Hu : Tokenizer.id_in_range V unk)
    by (eapply lookup_in_range; eauto).
  exists (map (fun word => Tokenizer.get vocab word unk)
              (Tokenizer.split text)).
  split; [|split].
  - unfold Tokenizer.tokenize. apply mapM_ok. intros w _.
    unfold Tokenizer.getitem. rewrite Hunk. reflexivity.
  - rewrite length_map. apply split_length.
  - apply Forall_forall. intros id Hin. apply in_map_iff in Hin.
    destruct Hin as [w [<- _]]. apply get_in_range; assumption.
Qed.

Lemma predict_returns (V D H N : nat) (text : Tokenizer.str)
    (vocab : Tokenizer.dict) (st : State OptState) :
  SimpleLLM.constructed V D H N (model st) ->
  Tokenizer.contains_key vocab Tokenizer.UNK ->
  Tokenizer.values_in_range vocab V ->
  (forall t, (t < V)%nat -> In (Z.of_nat t) (map snd vocab)) ->
  (1 <= Tokenizer.count_words true text
     <= PositionalEncoding.default_max_seq_len)%nat ->
  exists w t,
    predict text vocab st = (Ok w, st) /\
    (t < V)%nat /\ In (w, Z.of_nat t) vocab.
Proof.
  intros Hc Hunk Hrange Hcover Hwords.
  destruct (@tokenize_returns text vocab V Hunk Hrange)
    as [ids [Htok [Hlen Hids]]].
  destruct (@predict_token_returns V D H N ids st Hc) as [t [Hp Ht]].
  - intros E. rewrite E in Hlen. cbn [length] in Hlen. lia.
  - exact Hids.
  - lia.
  - destruct (word_of_found vocab t (Hcover t Ht)) as [w [Hw Hin]].
    exists w, t. split; [|split; assumption].
    unfold predict, seq_run at 1, lift. rewrite Htok.
    unfold seq_run. rewrite Hp. unfold lift. rewrite Hw. reflexivity.
Qed.

End PredictionReturns.


(** The vocabulary of cell 7 has "<UNK>" and the ids 0 .. 5. *)
Lemma vocab_has_unk : Tokenizer.contains_key vocab Tokenizer.UNK.
Proof. exists 5%Z. reflexivity. Qed.

Lemma vocab_values_in_range : Tokenizer.values_in_range vocab vocab_size.
Proof.
  unfold Tokenizer.values_in_range, vocab, vocab_size. simpl.
  repeat constructor; simpl; lia.
Qed.

Lemma vocab_covers_ids :
  forall t, (t < vocab_size)%nat -> In (Z.of_nat t) (map snd vocab).
Proof.
  intros t Ht. unfold vocab_size, vocab in Ht. cbn [length] in Ht.
  do 6 (destruct t as [|t]; [cbn; tauto|]). lia.
Qed.


Section Cells.

Variable OptState : Type.
Variable autograd :
  (SimpleLLM.Parameters -> result R) ->
  SimpleLLM.Parameters -> SimpleLLM.Parameters.
Variable accumulate :
  SimpleLLM.Parameters -> SimpleLLM.Parameters -> SimpleLLM.Parameters.
Variable adam :
  OptState -> SimpleLLM.Parameters -> SimpleLLM.Parameters ->
  OptState * SimpleLLM.Parameters.
Variable steps : OptState -> nat.
Variables D H N : nat.

Hypothesis adam_keeps_shapes :
  forall m o g,
    SimpleLLM.constructed vocab_size D H N m ->
    SimpleLLM.constructed vocab_size D H N
      (SimpleLLM.update_parameters m
         (snd (adam o (SimpleLLM.parameters m) g))).

Hypothesis adam_counts :
  forall o p g, steps (fst (adam o p g)) = S (steps o).

Lemma cell7_returns (st : State OptState) :
  SimpleLLM.constructed vocab_size D H N (model st) ->
  exists st',
    cell7 autograd accumulate adam st = (Ok tt, st') /\
    SimpleLLM.constructed vocab_size D H N (model st') /\
    steps (optimizer st') = (steps (optimizer st) + 800)%nat.
Proof.
  intros Hc. unfold cell7, seq_run at 1, lift.
  rewrite tokenized_data_cell7.
  destruct (@counted_epochs OptState autograd accumulate adam steps
              vocab_size D H N adam_keeps_shapes adam_counts
              [ [0; 1; 2; 3; 4]; [2; 3; 4; 0; 1] ]%Z) with
    (epochs := num_epochs) (first := 0%nat) (st := st)
    as [st' [E [Hc' Hs]]].
  - repeat (apply Forall_cons;
            [split;
             [repeat constructor; unfold Tokenizer.id_in_range; simpl; lia
             | unfold PositionalEncoding.default_max_seq_len; simpl; lia]|]).
    apply Forall_nil.
  - exact Hc.
  - right. simpl. lia.
  - exists st'. split; [|split; [exact Hc'|]].
    + unfold train, range. rewrite Nat.sub_0_r. exact E.
    + rewrite Hs. reflexivity.
Qed.

End Cells.

(** X25. The notebook end to end, as written (its vocabulary, its two
    sentences, 100 epochs, its prompt): cell 7 returns without an exception
    after exactly 800 optimizer steps, and cell 8 then returns one of the
    six words of the vocabulary ("<UNK>" included) and leaves the trained
    state as it is; for any model built with the cell's vocabulary size and
    any optimizer whose step keeps the parameter shapes and counts
    itself. *)
Theorem notebook_trains_and_predicts :
  forall (OptState : Type) autograd accumulate
         (adam : OptState -> SimpleLLM.Parameters -> SimpleLLM.Parameters ->
                 OptState * SimpleLLM.Parameters)
         (steps : OptState -> nat) (D H N : nat) (st : State OptState),
    (forall m o g,
       SimpleLLM.constructed vocab_size D H N m ->
       SimpleLLM.constructed vocab_size D H N
         (SimpleLLM.update_parameters m
            (snd (adam o (SimpleLLM.parameters m) g)))) ->
    (forall o p g, steps (fst (adam o p g)) = S (steps o)) ->
    SimpleLLM.constructed vocab_size D H N (model st) ->
    exists st' w,
      cell7 autograd accumulate adam st = (Ok tt, st') /\
      steps (optimizer st') = (steps (optimizer st) + 800)%nat /\
      cell8 st' = (Ok w, st') /\
      In w (map fst vocab).
Proof.
  intros OptState autograd accumulate adam steps D H N st Hk Hs Hc.
  destruct (@cell7_returns OptState autograd accumulate adam steps D H N
              Hk Hs st Hc) as [st' [E [Hc' Hn]]].
  destruct (@predict_returns OptState vocab_size D H N
              (Tokenizer.str_of_string "hello world how") vocab st' Hc'
              vocab_has_unk vocab_values_in_range vocab_covers_ids)
    as [w [t [Hp [_ Hin]]]].
  - split; [simpl; lia|]. apply Nat.leb_le. reflexivity.
  - exists st', w. split; [exact E|]. split; [exact Hn|].
    split; [exact Hp|].
    change w with (fst (w, Z.of_nat t)). apply in_map, Hin.
Qed.

Lemma notebook_trains_and_predicts_witness :
  exists st' w,
    cell7 no_gradient first_gradient counting_adam tiny_state = (Ok tt, st') /\
    optimizer st' = (optimizer tiny_state + 800)%nat /\
    cell8 st' = (Ok w, st') /\
    In w (map fst vocab).
Proof.
  apply (@notebook_trains_and_predicts nat no_gradient first_gradient
           counting_adam (fun n => n) 2%nat 3%nat 1%nat tiny_state).
  - apply counting_adam_keeps_shapes.
  - reflexivity.
  - exact tiny_model_constructed.
Defined.
